(** * imake: a terminal dashboard over Makefile targets

    Shallow embedding of [main.go] and the properties of its catalog
    reader, grid layout, render loop and command runner.

    Go strings are byte strings ([string]); Go [int] is a 64-bit integer
    carried in [Z]; [float64] is IEEE binary64, computed with the
    specification floats of the Standard Library; [map[string]string] is a
    [gmap string string].  What the program takes from its libraries
    (package [strings], [bufio.Scanner], the gocui view registry and event
    queue, [exec.Cmd]) is modelled at the interface the source uses. *)

From Stdlib Require Import ZArith String Ascii List Bool Lia.
From Stdlib Require Import Floats.SpecFloat.
From stdpp Require Import gmap strings.

Local Open Scope string_scope.
Local Open Scope Z_scope.

(** ** Package [strings] on byte strings *)

Module GoStrings.

Definition TAB : ascii := "009"%char.
Definition LF : ascii := "010"%char.
Definition CR : ascii := "013"%char.

Definition byte (n : nat) : ascii := ascii_of_nat n.

(** [strings.HasPrefix(s, prefix)] *)
Fixpoint HasPrefix (s prefix : string) : bool :=
  match prefix, s with
  | EmptyString, _ => true
  | String p prefix', String c s' => Ascii.eqb c p && HasPrefix s' prefix'
  | String _ _, EmptyString => false
  end.

(** [strings.Contains(s, substr)] *)
Fixpoint Contains (s substr : string) : bool :=
  HasPrefix s substr ||
  match s with
  | EmptyString => false
  | String _ s' => Contains s' substr
  end.

Fixpoint drop_bytes (n : nat) (s : string) : string :=
  match n, s with
  | O, _ => s
  | S n', String _ s' => drop_bytes n' s'
  | S _, EmptyString => EmptyString
  end.

(** [strings.Cut(s, sep)]: the text before and after the first instance of
    [sep], when there is one. *)
Fixpoint Cut (s sep : string) : option (string * string) :=
  if HasPrefix s sep then Some (EmptyString, drop_bytes (String.length sep) s)
  else match s with
       | EmptyString => None
       | String c s' =>
           match Cut s' sep with
           | Some (before, after) => Some (String c before, after)
           | None => None
           end
       end.

(** [strings.SplitN(s, sep, 2)] for a non-empty separator: at most two
    pieces, the second one being the unsplit remainder. *)
Definition SplitN2 (s sep : string) : list string :=
  match Cut s sep with
  | Some (before, after) => [before; after]
  | None => [s]
  end.

(** White space as [unicode.IsSpace] defines it, in UTF-8: the six ASCII
    characters, U+0085 and U+00A0 (two bytes), and U+1680, U+2000..U+200A,
    U+2028, U+2029, U+202F, U+205F, U+3000 (three bytes). *)
Definition space1 (c : ascii) : bool :=
  let n := N_of_ascii c in
  ((9 <=? n) && (n <=? 13) || (n =? 32))%N.

Definition space2 (c1 c2 : ascii) : bool :=
  let a := N_of_ascii c1 in
  let b := N_of_ascii c2 in
  ((a =? 194) && ((b =? 133) || (b =? 160)))%N.

Definition space3 (c1 c2 c3 : ascii) : bool :=
  let a := N_of_ascii c1 in
  let b := N_of_ascii c2 in
  let c := N_of_ascii c3 in
  ((a =? 225) && (b =? 154) && (c =? 128)
   || (a =? 226) && (b =? 128)
        && ((128 <=? c) && (c <=? 138) || (c =? 168) || (c =? 169) || (c =? 175))
   || (a =? 226) && (b =? 129) && (c =? 159)
   || (a =? 227) && (b =? 128) && (c =? 128))%N.

(** [strings.TrimLeftFunc(s, unicode.IsSpace)] *)
Fixpoint TrimLeft (s : string) : string :=
  match s with
  | EmptyString => EmptyString
  | String c1 s1 =>
      if space1 c1 then TrimLeft s1
      else match s1 with
           | EmptyString => s
           | String c2 s2 =>
               if space2 c1 c2 then TrimLeft s2
               else match s2 with
                    | EmptyString => s
                    | String c3 s3 =>
                        if space3 c1 c2 c3 then TrimLeft s3 else s
                    end
           end
  end.

Fixpoint rev_onto (s acc : string) : string :=
  match s with
  | EmptyString => acc
  | String c s' => rev_onto s' (String c acc)
  end.

Definition rev (s : string) : string := rev_onto s EmptyString.

(** The same scan from the end of the string: [r] is the string reversed,
    so the last byte of a rune comes first. *)
Fixpoint TrimLeft_rev (r : string) : string :=
  match r with
  | EmptyString => EmptyString
  | String c1 r1 =>
      if space1 c1 then TrimLeft_rev r1
      else match r1 with
           | EmptyString => r
           | String c2 r2 =>
               if space2 c2 c1 then TrimLeft_rev r2
               else match r2 with
                    | EmptyString => r
                    | String c3 r3 =>
                        if space3 c3 c2 c1 then TrimLeft_rev r3 else r
                    end
           end
  end.

(** [strings.TrimRightFunc(s, unicode.IsSpace)] *)
Definition TrimRight (s : string) : string := rev (TrimLeft_rev (rev s)).

(** [strings.TrimSpace(s)] *)
Definition TrimSpace (s : string) : string := TrimRight (TrimLeft s).

End GoStrings.

(** ** [bufio.Scanner] with the default split function [ScanLines] *)

Module Bufio.
Import GoStrings.

(** The input cut at every line feed; a last piece without line feed counts
    when it is not empty. *)
Fixpoint raw_lines (data : string) : list string :=
  match data with
  | EmptyString => []
  | String c rest =>
      if Ascii.eqb c LF then EmptyString :: raw_lines rest
      else match raw_lines rest with
           | [] => [String c EmptyString]
           | l :: ls => String c l :: ls
           end
  end.

(** [dropCR]: one trailing carriage return is removed. *)
Fixpoint dropCR (l : string) : string :=
  match l with
  | EmptyString => EmptyString
  | String c EmptyString => if Ascii.eqb c CR then EmptyString else l
  | String c rest => String c (dropCR rest)
  end.

Definition MaxScanTokenSize : Z := 64 * 1024.

Definition ErrTooLong : string := "bufio.Scanner: token too long".

(** The tokens [Scan] delivers and the value of [Err] afterwards: a line
    that fills the whole buffer before its line feed stops the scanner. *)
Fixpoint scan (raws : list string) : list string * option string :=
  match raws with
  | [] => ([], None)
  | r :: rs =>
      if MaxScanTokenSize <=? Z.of_nat (String.length r) then ([], Some ErrTooLong)
      else let '(toks, err) := scan rs in (dropCR r :: toks, err)
  end.

Definition ScanLines (data : string) : list string * option string :=
  scan (raw_lines data).

End Bufio.

(** ** The catalog: [readMakefile] *)

Module Catalog.
Import GoStrings Bufio.

(** The character class of the regular expression, [[a-zA-Z0-9_-]]. *)
Definition target_char (c : ascii) : bool :=
  let n := N_of_ascii c in
  ((97 <=? n) && (n <=? 122) || (65 <=? n) && (n <=? 90)
   || (48 <=? n) && (n <=? 57) || (n =? 95) || (n =? 45))%N.

(** What is left of [s] after its longest prefix of class characters. *)
Fixpoint skip_target_chars (s : string) : string :=
  match s with
  | String c s' => if target_char c then skip_target_chars s' else s
  | EmptyString => EmptyString
  end.

(** [regexp.MustCompile(`^[a-zA-Z0-9_-]+:`).MatchString(line)]: at the start
    of the line, one or more class characters and then a colon.  The colon
    is outside the class, so the match is the longest run or nothing. *)
Definition MatchString (line : string) : bool :=
  match line with
  | String c rest =>
      target_char c &&
      match skip_target_chars rest with
      | String d _ => Ascii.eqb d ":"%char
      | EmptyString => false
      end
  | EmptyString => false
  end.

(** The condition of the [if] in the scanning loop. *)
Definition is_target_line (line : string) : bool :=
  Contains line ":" &&
  negb (HasPrefix line (String TAB EmptyString)) &&
  negb (HasPrefix line ".") &&
  negb (Contains line "PHONY") &&
  MatchString line.

(** The body of the scanning loop on one line.  [None] is the run-time
    panic of an index out of range on [parts]. *)
Definition scan_line (targetsMap : gmap string string) (line : string)
  : option (gmap string string) :=
  if is_target_line line then
    let parts := SplitN2 line ":" in
    match parts !! 0%nat, parts !! 1%nat with
    | Some target, Some rest => Some (<[target := TrimSpace rest]> targetsMap)
    | _, _ => None
    end
  else Some targetsMap.

Fixpoint scan_loop (targetsMap : gmap string string) (lines : list string)
  : option (gmap string string) :=
  match lines with
  | [] => Some targetsMap
  | line :: rest =>
      match scan_line targetsMap line with
      | Some m => scan_loop m rest
      | None => None
      end
  end.

(** [readMakefile]: [file] is the content of [Makefile], or [None] when it
    cannot be opened.  The result is [None] where the program aborts
    ([log.Fatal] or a panic). *)
Definition readMakefile (file : option string) : option (gmap string string) :=
  match file with
  | None => None
  | Some data =>
      let '(lines, err) := ScanLines data in
      match scan_loop ∅ lines with
      | Some m => match err with None => Some m | Some _ => None end
      | None => None
      end
  end.

(** The grammar of a target line in the words of the specification. *)
Definition identifier (s : string) : bool :=
  match s with
  | EmptyString => false
  | _ => forallb target_char (list_ascii_of_string s)
  end.

Definition target_of (line : string) : string :=
  match Cut line ":" with Some (before, _) => before | None => line end.

Definition doc_of (line : string) : string :=
  match Cut line ":" with Some (_, after) => TrimSpace after | None => EmptyString end.

Definition admissible (line : string) : Prop :=
  Contains line ":" = true /\
  HasPrefix line (String TAB EmptyString) = false /\
  HasPrefix line "." = false /\
  Contains line "PHONY" = false /\
  identifier (target_of line) = true.

(** What the loop body does to the catalog, written without the panic. *)
Definition store (m : gmap string string) (line : string) : gmap string string :=
  if is_target_line line then <[target_of line := doc_of line]> m else m.

End Catalog.

(** ** [float64] and the conversions between [int] and [float64] *)

Module Float64.

Definition prec : Z := 53.
Definition emax : Z := 1024.

Definition float64 : Type := spec_float.

Definition min_int : Z := - 2 ^ 63.
Definition max_int : Z := 2 ^ 63 - 1.

(** Arithmetic of [int]: results wrap around modulo [2^64]. *)
Definition wrap (z : Z) : Z := (z - min_int) mod 2 ^ 64 + min_int.

Definition int_sub (a b : Z) : Z := wrap (a - b).

(** [float64(n)]: the nearest binary64, ties to even. *)
Definition of_int (n : Z) : float64 := binary_normalize prec emax n 0 false.

Definition mul : float64 -> float64 -> float64 := SFmul prec emax.
Definition add : float64 -> float64 -> float64 := SFadd prec emax.
Definition div : float64 -> float64 -> float64 := SFdiv prec emax.

(** The integer part of a finite value, rounding toward zero. *)
Definition truncate (f : float64) : option Z :=
  match f with
  | S754_zero _ => Some 0
  | S754_finite s m e =>
      Some (cond_Zopp s
              match e with
              | Z0 => Zpos m
              | Zpos _ => Zpos m * 2 ^ e
              | Zneg p => Zpos m / 2 ^ Zpos p
              end)
  | S754_infinity _ | S754_nan => None
  end.

(** [int(f)].  Where the value does not fit an [int] the language leaves
    the result to the implementation; amd64 gives the smallest [int]. *)
Definition to_int (f : float64) : Z :=
  match truncate f with
  | Some z => if (min_int <=? z) && (z <=? max_int) then z else min_int
  | None => min_int
  end.

End Float64.

(** ** The view registry of gocui, as far as the program uses it *)

Module Gocui.
Import GoStrings.

Inductive error : Type :=
| ErrUnknownView
| ErrQuit
| Err (msg : string).

Definition error_eqb (e1 e2 : error) : bool :=
  match e1, e2 with
  | ErrUnknownView, ErrUnknownView => true
  | ErrQuit, ErrQuit => true
  | Err m1, Err m2 => String.eqb m1 m2
  | _, _ => false
  end.

Inductive Attribute : Type := ColorDefault | ColorBlack | ColorBlue.

(** A view.  [buf] is what has been written to the view since it was last
    cleared; ([x0],[y0])-([x1],[y1]) is its rectangle, ([ox],[oy]) its
    origin (scroll position) and ([cx],[cy]) its cursor. *)
Record View : Type := mkView {
  x0 : Z; y0 : Z; x1 : Z; y1 : Z;
  ox : Z; oy : Z; cx : Z; cy : Z;
  Title : string;
  Highlight : bool;
  SelBgColor : Attribute;
  SelFgColor : Attribute;
  Autoscroll : bool;
  Wrap : bool;
  buf : string
}.

Definition newView (a b c d : Z) : View :=
  mkView a b c d 0 0 0 0 EmptyString false ColorDefault ColorDefault false false
         EmptyString.

Definition set_rect (a b c d : Z) (v : View) : View :=
  mkView a b c d (ox v) (oy v) (cx v) (cy v) (Title v) (Highlight v)
         (SelBgColor v) (SelFgColor v) (Autoscroll v) (Wrap v) (buf v).

Definition set_cy (y : Z) (v : View) : View :=
  mkView (x0 v) (y0 v) (x1 v) (y1 v) (ox v) (oy v) (cx v) y (Title v)
         (Highlight v) (SelBgColor v) (SelFgColor v) (Autoscroll v) (Wrap v)
         (buf v).

Definition set_Title (t : string) (v : View) : View :=
  mkView (x0 v) (y0 v) (x1 v) (y1 v) (ox v) (oy v) (cx v) (cy v) t
         (Highlight v) (SelBgColor v) (SelFgColor v) (Autoscroll v) (Wrap v)
         (buf v).

Definition set_Highlight (b : bool) (v : View) : View :=
  mkView (x0 v) (y0 v) (x1 v) (y1 v) (ox v) (oy v) (cx v) (cy v) (Title v)
         b (SelBgColor v) (SelFgColor v) (Autoscroll v) (Wrap v) (buf v).

Definition set_SelBgColor (c : Attribute) (v : View) : View :=
  mkView (x0 v) (y0 v) (x1 v) (y1 v) (ox v) (oy v) (cx v) (cy v) (Title v)
         (Highlight v) c (SelFgColor v) (Autoscroll v) (Wrap v) (buf v).

Definition set_SelFgColor (c : Attribute) (v : View) : View :=
  mkView (x0 v) (y0 v) (x1 v) (y1 v) (ox v) (oy v) (cx v) (cy v) (Title v)
         (Highlight v) (SelBgColor v) c (Autoscroll v) (Wrap v) (buf v).

Definition set_Autoscroll (b : bool) (v : View) : View :=
  mkView (x0 v) (y0 v) (x1 v) (y1 v) (ox v) (oy v) (cx v) (cy v) (Title v)
         (Highlight v) (SelBgColor v) (SelFgColor v) b (Wrap v) (buf v).

Definition set_Wrap (b : bool) (v : View) : View :=
  mkView (x0 v) (y0 v) (x1 v) (y1 v) (ox v) (oy v) (cx v) (cy v) (Title v)
         (Highlight v) (SelBgColor v) (SelFgColor v) (Autoscroll v) b (buf v).

Definition set_buf (s : string) (v : View) : View :=
  mkView (x0 v) (y0 v) (x1 v) (y1 v) (ox v) (oy v) (cx v) (cy v) (Title v)
         (Highlight v) (SelBgColor v) (SelFgColor v) (Autoscroll v) (Wrap v) s.

(** [v.Clear()] empties the view and leaves cursor and origin alone. *)
Definition Clear (v : View) : View := set_buf EmptyString v.

(** [v.Write(p)], which [fmt.Fprintf] and [fmt.Fprintln] call: [p] joins
    the bytes written to the view; [buffer_lines] below says what lines the
    view makes of them. *)
Definition Write (p : string) (v : View) : View := set_buf (buf v +:+ p) v.

(** The lines of the view, as [v.Write] makes them of the bytes written
    since the view was cleared.  [done] are the lines before the last one
    and [cur] is the last line, if the view has a line.  A line feed
    opens a new line; a carriage return empties the last line; any other
    byte is added to the last line; on a view without line the byte makes
    the first line, which is empty for a line feed and for a carriage
    return.  So text that ends in a line feed is followed by one empty
    line, a line feed written to a view without line leaves one line and
    not two, and an empty buffer has no line.

    gocui decodes the bytes as UTF-8 and lets its escape interpreter
    consume escape sequences before it stores a character.  Here every
    byte other than the two above is stored as it is, which is what gocui
    does with printable ASCII text; what is said of the lines of a view
    is said of such text. *)
Fixpoint write_bytes (done : list string) (cur : option string) (s : string)
  : list string :=
  match s with
  | EmptyString => (done ++ match cur with Some l => [l] | None => [] end)%list
  | String c rest =>
      if Ascii.eqb c LF then
        match cur with
        | Some l => write_bytes (done ++ [l])%list (Some EmptyString) rest
        | None => write_bytes done (Some EmptyString) rest
        end
      else if Ascii.eqb c CR then write_bytes done (Some EmptyString) rest
      else write_bytes done
             (Some (default EmptyString cur +:+ String c EmptyString)) rest
  end.

Definition buffer_lines (s : string) : list string := write_bytes [] None s.

(** [v.Cursor()], second component. *)
Definition Cursor_y (v : View) : Z := cy v.

(** [v.Line(y)]: the line of the view shown in its row [y]. *)
Definition Line (v : View) (y : Z) : string * option error :=
  let row := oy v + y in
  if row <? 0 then (EmptyString, Some (Err "invalid point"))
  else match buffer_lines (buf v) !! Z.to_nat row with
       | Some l => (l, None)
       | None => (EmptyString, Some (Err "invalid point"))
       end.

(** Modelled from the spec: [v.MoveCursor(0, dy, false)] of gocui, which
    is not part of this repository.  The cursor row moves by [dy] as long
    as it stays on a line of the buffer. *)
Definition MoveCursor (dy : Z) (v : View) : View :=
  let y := cy v + dy in
  if (0 <=? y) && (0 <=? oy v + y)
     && (oy v + y <? Z.of_nat (length (buffer_lines (buf v))))
  then set_cy y v else v.

End Gocui.

(** ** The program *)

Module Main.
Import GoStrings Bufio Float64 Gocui.

(** An element of the [grid] slice. *)
Record Cell : Type := mkCell {
  Name : string;
  Width : Z;
  Height : Z;
  XPos : Z;
  YPos : Z
}.

(** The [grid] of [main]. *)
Definition grid : list Cell :=
  [ mkCell "Sidebar" 3 10 0 0;
    mkCell "command" 9 12 3 0;
    mkCell "help" 3 2 0 10 ].

(** The functions handed to [g.Update].  [UExec line] is the function
    literal of [executeCommand]; [UPrint p text] is the one of the
    goroutine, which prints [text] to the command view.  [p] names the
    process whose goroutine issued it; the code keeps no such tag and
    nothing below reads it except the statements about overlapping
    executions. *)
Inductive update : Type :=
| UExec (line : string)
| UPrint (p : nat) (text : string).

(** A started process: its arguments and what its goroutine has still to
    hand over, one [g.Update] each (the tokens of its standard output,
    then the diagnostic of a read error if there is one). *)
Record proc : Type := mkProc {
  argv : list string;
  script : list string
}.

(** What the operating system answers to [cmd.StdoutPipe()] and
    [cmd.Start()]: the pipe cannot be made, the process cannot be started,
    or the process runs; a running process is given by the bytes it is
    going to write to its standard output and by the error, if any, on
    which reading them ends. *)
Inductive start_result : Type :=
| PipeFailed (msg : string)
| StartFailed (msg : string)
| Started (stdout : string) (read_err : option string).

(** The state of the program: the gocui instance (views, current view,
    terminal size, updates not yet run), the variable [started] of [main],
    the processes started so far and the calls of [cmd.Start]. *)
Record App : Type := mkApp {
  views : gmap string View;
  currentView : option string;
  maxX : Z;
  maxY : Z;
  userEvents : list update;
  started : bool;
  procs : list proc;
  starts : list (list string)
}.

Definition set_views (vs : gmap string View) (a : App) : App :=
  mkApp vs (currentView a) (maxX a) (maxY a) (userEvents a) (started a)
        (procs a) (starts a).

Definition set_currentView (c : option string) (a : App) : App :=
  mkApp (views a) c (maxX a) (maxY a) (userEvents a) (started a) (procs a)
        (starts a).

Definition set_size (w h : Z) (a : App) : App :=
  mkApp (views a) (currentView a) w h (userEvents a) (started a) (procs a)
        (starts a).

Definition set_userEvents (q : list update) (a : App) : App :=
  mkApp (views a) (currentView a) (maxX a) (maxY a) q (started a) (procs a)
        (starts a).

Definition set_started (b : bool) (a : App) : App :=
  mkApp (views a) (currentView a) (maxX a) (maxY a) (userEvents a) b
        (procs a) (starts a).

Definition set_procs (ps : list proc) (a : App) : App :=
  mkApp (views a) (currentView a) (maxX a) (maxY a) (userEvents a)
        (started a) ps (starts a).

Definition set_starts (l : list (list string)) (a : App) : App :=
  mkApp (views a) (currentView a) (maxX a) (maxY a) (userEvents a)
        (started a) (procs a) l.

(** *** Functions that change the state and may return an error *)

Inductive res (A : Type) : Type :=
| Ok (x : A)
| Fail (e : error).
Arguments Ok {A} x.
Arguments Fail {A} e.

Definition M (A : Type) : Type := App -> App * res A.

Definition ret {A : Type} (x : A) : M A := fun a => (a, Ok x).

Definition fail {A : Type} (e : error) : M A := fun a => (a, Fail e).

Definition bind {A B : Type} (m : M A) (k : A -> M B) : M B :=
  fun a =>
    match m a with
    | (a', Ok x) => k x a'
    | (a', Fail e) => (a', Fail e)
    end.

Notation "x <- m ;; k" := (bind m (fun x => k))
  (at level 90, m at level 80, right associativity).
Notation "m >> k" := (bind m (fun _ => k))
  (at level 90, right associativity).

(** [g.View(name)] *)
Definition getView (name : string) : M View :=
  fun a =>
    match views a !! name with
    | Some v => (a, Ok v)
    | None => (a, Fail ErrUnknownView)
    end.

(** An assignment or a call through the pointer to the view [name]. *)
Definition modView (name : string) (f : View -> View) : M unit :=
  fun a => (set_views (alter f name (views a)) a, Ok tt).

(** [g.SetView(name, x0, y0, x1, y1)].  The error is returned as a value,
    for [GridLayout] inspects it: a view that exists already is moved and
    the error is nil, a new one is created and the error is
    [ErrUnknownView]. *)
Definition SetView (name : string) (a b c d : Z) : M (option error) :=
  fun app =>
    if (c <=? a) || (d <=? b) then (app, Ok (Some (Err "invalid dimensions")))
    else if String.eqb name EmptyString then (app, Ok (Some (Err "invalid name")))
    else match views app !! name with
         | Some v =>
             (set_views (<[name := set_rect a b c d v]> (views app)) app, Ok None)
         | None =>
             (set_views (<[name := newView a b c d]> (views app)) app,
              Ok (Some ErrUnknownView))
         end.

(** [g.SetCurrentView(name)] *)
Definition SetCurrentView (name : string) : M unit :=
  fun a =>
    match views a !! name with
    | Some _ => (set_currentView (Some name) a, Ok tt)
    | None => (a, Fail ErrUnknownView)
    end.

(** [g.Update(f)]: the function joins the updates waiting for the loop. *)
Definition Update (u : update) : M unit :=
  fun a => (set_userEvents (userEvents a ++ [u]) a, Ok tt).

(** *** [GridLayout] *)

(** The rectangle computed for one element of the grid. *)
Definition section_rect (unitX unitY : float64) (section : Cell) : Z * Z * Z * Z :=
  let width := mul (of_int (Width section)) unitX in
  let height := mul (of_int (Height section)) unitY in
  let xPos := mul (of_int (XPos section)) unitX in
  let yPos := mul (of_int (YPos section)) unitY in
  let x0 := to_int xPos in
  let y0 := to_int yPos in
  let x1 := int_sub (to_int (add xPos width)) 1 in
  let y1 := int_sub (to_int (add yPos height)) 1 in
  if (x1 <=? 0) && (y1 <=? 0) then (x0, y0, 1, 1) else (x0, y0, x1, y1).

Fixpoint GridLayout_loop (unitX unitY : float64) (grid : list Cell) : M unit :=
  match grid with
  | [] => ret tt
  | section :: rest =>
      let '(x0, y0, x1, y1) := section_rect unitX unitY section in
      (err <- SetView (Name section) x0 y0 x1 y1 ;;
       match err with
       | Some e =>
           if negb (error_eqb e ErrUnknownView) then fail e
           else modView (Name section) (set_Title (Name section))
       | None => ret tt
       end) >>
      GridLayout_loop unitX unitY rest
  end.

Definition GridLayout (grid : list Cell) : M unit :=
  fun a =>
    let unitX := div (of_int (maxX a)) (of_int 12) in
    let unitY := div (of_int (maxY a)) (of_int 12) in
    GridLayout_loop unitX unitY grid a.

(** *** [initViews] and [updateViews] *)

(** The loop [for target, _ := range targetsMap] with the keys in the
    order [keys] in which the run time yields them. *)
Fixpoint print_targets (keys : list string) : M unit :=
  match keys with
  | [] => ret tt
  | target :: rest =>
      modView "Sidebar" (Write (target +:+ String LF EmptyString)) >>
      print_targets rest
  end.

Definition initViews (keys : list string) : M unit :=
  _ <- getView "Sidebar" ;;
  modView "Sidebar" (set_Title "Makefile Targets") >>
  modView "Sidebar" (set_SelBgColor ColorBlue) >>
  modView "Sidebar" (set_SelFgColor ColorBlack) >>
  modView "Sidebar" (set_Highlight true) >>
  print_targets keys >>
  SetCurrentView "Sidebar" >>
  (_ <- getView "command" ;;
   modView "command" (set_Title "Command Output") >>
   modView "command" (set_Autoscroll true)).

(** [targetsMap[line]]: a key that is absent reads as the empty string. *)
Definition index (targetsMap : gmap string string) (key : string) : string :=
  default EmptyString (targetsMap !! key).

Definition doc_for (targetsMap : gmap string string) (line : string) : string :=
  if String.eqb line EmptyString then EmptyString else index targetsMap line.

Definition updateViews (targetsMap : gmap string string) : M unit :=
  v <- getView "Sidebar" ;;
  let line := fst (Line v (Cursor_y v)) in
  _ <- getView "help" ;;
  modView "help" Clear >>
  let doc := doc_for targetsMap line in
  modView "help" (Write doc) >>
  if negb (String.eqb doc EmptyString) then modView "help" (set_Wrap true)
  else ret tt.

(** *** Key handlers, updates and the goroutine *)

(** The view a handler is called with is the current view. *)
Definition current (a : App) : option View :=
  match currentView a with
  | Some name => views a !! name
  | None => None
  end.

(** A handler that goes through its view.  With no current view it gets
    a nil pointer and the program panics, which is an error here. *)
Definition on_current (f : View -> View) : M unit :=
  fun a =>
    match currentView a with
    | Some name => modView name f a
    | None => (a, Fail (Err "nil pointer dereference"))
    end.

Definition cursorDown : M unit := on_current (MoveCursor 1).

Definition cursorUp : M unit := on_current (MoveCursor (-1)).

Definition quit : M unit := fail ErrQuit.

Definition executeCommand : M unit :=
  fun a =>
    match current a with
    | None => (a, Fail (Err "nil pointer dereference"))
    | Some v =>
        match Line v (Cursor_y v) with
        | (_, Some e) => (a, Fail e)
        | (line, None) => Update (UExec line) a
        end
    end.

(** The text the goroutine forwards for a process that writes [stdout]:
    the tokens of the scanner, and the diagnostic when [scanner.Err()] is
    not nil, be it for a line too long or for the error of the read. *)
Definition pump_script (stdout : string) (read_err : option string) : list string :=
  let '(toks, err) := ScanLines stdout in
  toks ++ match err with
          | Some e => ["Error reading command output: " +:+ e]
          | None =>
              match read_err with
              | Some e => ["Error reading command output: " +:+ e]
              | None => []
              end
          end.

Section Program.

(** The catalog read at start-up, the order in which [range] yields its
    keys in this run, and the operating system's answer to the command
    made after [n] calls of [cmd.Start]. *)
Variable targetsMap : gmap string string.
Variable range_keys : list string.
Variable os_start : nat -> list string -> start_result.

(** [cmd.StdoutPipe()] and [cmd.Start()] for [exec.Command(args...)],
    followed on success by the [go] statement.  Without the pipe
    [cmd.Start] is not called. *)
Definition Start (args : list string) : M unit :=
  fun a =>
    let a' := set_starts (starts a ++ [args]) a in
    match os_start (length (starts a)) args with
    | PipeFailed msg => (a, Fail (Err msg))
    | StartFailed msg => (a', Fail (Err msg))
    | Started stdout read_err =>
        (set_procs (procs a ++ [mkProc args (pump_script stdout read_err)]) a',
         Ok tt)
    end.

Definition run_update (u : update) : M unit :=
  match u with
  | UExec line =>
      _ <- getView "command" ;;
      modView "command" Clear >>
      Start ["make"; line]
  | UPrint _ text =>
      modView "command" (Write (text +:+ String LF EmptyString))
  end.

(** One turn of the goroutine of process [p]: [scanner.Scan()] and the
    [g.Update] of the loop body, or the one after the loop. *)
Definition pump (p : nat) (a : App) : App :=
  match procs a !! p with
  | Some pr =>
      match script pr with
      | text :: rest =>
          set_userEvents (userEvents a ++ [UPrint p text])
            (set_procs (<[p := mkProc (argv pr) rest]> (procs a)) a)
      | [] => a
      end
  | None => a
  end.

(** The function given to [g.SetManagerFunc]. *)
Definition manager : M unit :=
  GridLayout grid >>
  (fun a =>
     if negb (started a) then initViews range_keys (set_started true a)
     else updateViews targetsMap a).

(** *** The main loop *)

(** What can happen next: a key, a new terminal size, the loop receiving
    the [i]-th of the waiting updates, or the goroutine of process [p]
    making one turn.  [g.Update] is gocui's: it sends the function to the
    loop from a goroutine of its own, so which of the waiting updates the
    loop receives next is not fixed by this program; [UserEvent 0]
    throughout is reception in the order of the calls. *)
Inductive event : Type :=
| KeyArrowDown
| KeyArrowUp
| KeyEnter
| KeyCtrlC
| Resize (w h : Z)
| UserEvent (i : nat)
| PumpRead (p : nat).

(** The loop goes on with a state, or [g.MainLoop()] has returned. *)
Inductive outcome : Type :=
| Running (a : App)
| Returned (e : error) (a : App).

(** What the loop does with an event before it redraws: a key goes to
    the handler that [keybindings] binds to it, the current view being its
    argument; an update is taken from the waiting ones and run. *)
Definition handle (ev : event) : M unit :=
  match ev with
  | KeyArrowDown => cursorDown
  | KeyArrowUp => cursorUp
  | KeyEnter => executeCommand
  | KeyCtrlC => quit
  | Resize w h => fun a => (set_size w h a, Ok tt)
  | UserEvent i =>
      fun a =>
        match userEvents a !! i with
        | Some u => run_update u (set_userEvents (delete i (userEvents a)) a)
        | None => (a, Ok tt)
        end
  | PumpRead _ => ret tt
  end.

(** One turn of [g.MainLoop()]: the event is handled and the manager
    function redraws; the first error makes the loop return.  gocui then
    draws the views on the terminal, and the loop also returns an error of
    that drawing, which it has for a view that wraps and whose inner width
    is 0.  The drawing is not part of this model: a turn that returns here
    returns in the program, and a turn that goes on here goes on in the
    program unless the drawing fails. *)
Definition iteration (ev : event) (a : App) : outcome :=
  match (handle ev >> manager) a with
  | (a', Ok _) => Running a'
  | (a', Fail e) => Returned e a'
  end.

(** A goroutine's turn is no iteration of the loop; an update that is not
    there is never received. *)
Definition step (ev : event) (a : App) : outcome :=
  match ev with
  | PumpRead p => Running (pump p a)
  | UserEvent i =>
      match userEvents a !! i with
      | Some _ => iteration ev a
      | None => Running a
      end
  | _ => iteration ev a
  end.

Fixpoint run (evs : list event) (a : App) : outcome :=
  match evs with
  | [] => Running a
  | ev :: rest =>
      match step ev a with
      | Running a' => run rest a'
      | Returned e a' => Returned e a'
      end
  end.

(** [g.MainLoop()] draws once before it waits for the first event. *)
Definition boot (w h : Z) : App :=
  mkApp ∅ None w h [] false [] [].

Definition MainLoop (w h : Z) (evs : list event) : outcome :=
  match manager (boot w h) with
  | (a, Ok _) => run evs a
  | (a, Fail e) => Returned e a
  end.

(** The end of [main]: [ErrQuit] ends the program quietly, any other
    error goes to [log.Panicln]. *)
Inductive exit : Type := Exits | Panics (e : error).

Definition main_exit (e : error) : exit :=
  if error_eqb e ErrQuit then Exits else Panics e.

End Program.

(** The buffer of the view [name], empty when there is no such view. *)
Definition buffer (name : string) (a : App) : string :=
  match views a !! name with
  | Some v => buf v
  | None => EmptyString
  end.

(** Lines as [fmt.Fprintln] prints them one after the other. *)
Definition println_all (lines : list string) : string :=
  fold_right (fun l s => l +:+ String LF s) EmptyString lines.

(** *** The layout as a function on the registry *)

(** The error [SetView] finds in the rectangle or the name of a cell. *)
Definition cell_error (unitX unitY : float64) (section : Cell) : option error :=
  let '(a, b, c, d) := section_rect unitX unitY section in
  if (c <=? a) || (d <=? b) then Some (Err "invalid dimensions")
  else if String.eqb (Name section) EmptyString then Some (Err "invalid name")
  else None.

(** The registry after the loop body for one cell. *)
Definition place (unitX unitY : float64) (vs : gmap string View) (section : Cell)
  : gmap string View :=
  let '(a, b, c, d) := section_rect unitX unitY section in
  match vs !! Name section with
  | Some v => <[Name section := set_rect a b c d v]> vs
  | None => <[Name section := set_Title (Name section) (newView a b c d)]> vs
  end.

(** The rectangle of the last cell of the grid that is called [name]. *)
Fixpoint last_rect (unitX unitY : float64) (grid : list Cell) (name : string)
  : option (Z * Z * Z * Z) :=
  match grid with
  | [] => None
  | section :: rest =>
      match last_rect unitX unitY rest name with
      | Some r => Some r
      | None =>
          if String.eqb (Name section) name
          then Some (section_rect unitX unitY section) else None
      end
  end.

(** The view called [name] before its rectangle is set: the one of the
    registry, or a fresh view with its title. *)
Definition base_view (vs : gmap string View) (name : string) : View :=
  match vs !! name with
  | Some v => v
  | None => set_Title name (newView 0 0 0 0)
  end.

Definition with_rect (r : Z * Z * Z * Z) (v : View) : View :=
  let '(a, b, c, d) := r in set_rect a b c d v.

Definition rect (v : View) : Z * Z * Z * Z := (x0 v, y0 v, x1 v, y1 v).

Definition unit_of (size : Z) : float64 := div (of_int size) (of_int 12).

(** *** Vocabulary of the statements *)

Definition state_of (o : outcome) : App :=
  match o with
  | Running a => a
  | Returned _ a => a
  end.

(** The [Wrap] flag of the view [name]. *)
Definition wrap_of (name : string) (a : App) : bool :=
  match views a !! name with
  | Some v => Wrap v
  | None => false
  end.

(** The line under the cursor of the sidebar, as [updateViews] reads it. *)
Definition highlighted (a : App) : string :=
  match views a !! "Sidebar" with
  | Some v => fst (Line v (Cursor_y v))
  | None => EmptyString
  end.

(** A [range] over a map yields every key once, in an order of its own. *)
Definition range_order (targetsMap : gmap string string) (keys : list string) : Prop :=
  keys ≡ₚ (map_to_list targetsMap).*1.




(** Every view of [a] is still there in [a'], related by [P]. *)
Definition keeps (P : string -> View -> View -> Prop) (a a' : App) : Prop :=
  forall name w,
    views a !! name = Some w ->
    exists w', views a' !! name = Some w' /\ P name w w'.

Definition same_env (a a' : App) : Prop :=
  userEvents a' = userEvents a /\ procs a' = procs a /\ starts a' = starts a.

(** The buffer of the command view is the same and no [Wrap] flag went
    from true to false. *)
Definition untouched (name : string) (w w' : View) : Prop :=
  (name = "command" -> buf w' = buf w) /\ (Wrap w = true -> Wrap w' = true).

Definition calm (a a' : App) : Prop := same_env a a' /\ keeps untouched a a'.

(** A view function that leaves [buf] and [Wrap] as they are. *)
Definition quiet (f : View -> View) : Prop :=
  forall w, buf (f w) = buf w /\ Wrap (f w) = Wrap w.

(** No [Wrap] flag that is set in [a] is clear in [a']. *)
Definition wrap_mono (a a' : App) : Prop :=
  forall name, wrap_of name a = true -> wrap_of name a' = true.

Definition respects {A : Type} (R : App -> App -> Prop) (m : M A) : Prop :=
  forall a a' r, m a = (a', r) -> R a a'.

(** The current view and the variable [started] are the same. *)
Definition same_focus (a a' : App) : Prop :=
  currentView a' = currentView a /\ started a' = started a.

(** The first pass is over and the sidebar is the current view. *)
Definition focused (a : App) : Prop :=
  currentView a = Some "Sidebar" /\ started a = true.

(** The sidebar is there and its buffer is [s]. *)
Definition sidebar_is (s : string) (a : App) : Prop :=
  exists v, views a !! "Sidebar" = Some v /\ buf v = s.

(** If [m] returns without error from a state in [P], it ends in [Q]. *)
Definition hoare {A : Type} (P : App -> Prop) (m : M A) (Q : App -> Prop) : Prop :=
  forall a a' x, P a -> m a = (a', Ok x) -> Q a'.



End Main.

(** ** Concrete inputs *)

Module Scenario.
Import GoStrings Bufio Catalog Gocui Main.

Definition nl : string := String LF EmptyString.

(** The descriptor of the example in the specification. *)
Definition example_makefile : string :=
  "build: compile the project" +:+ nl +:+
  String TAB "@echo hi" +:+ nl +:+
  ".PHONY: build" +:+ nl.

(** A descriptor that names the target [test] twice. *)
Definition duplicate_makefile : string :=
  "test: run unit tests" +:+ nl +:+
  "build: compile" +:+ nl +:+
  "test: run all tests" +:+ nl.

(** A catalog of two targets, and the two orders a [range] over it can
    take. *)
Definition two_targets : gmap string string :=
  <["build" := "compile"]> (<["test" := "run unit tests"]> ∅).

Definition order_bt : list string := ["build"; "test"].
Definition order_tb : list string := ["test"; "build"].

(** An operating system on which the first process prints two lines and
    every later one prints one line. *)
Definition os_two_runs (n : nat) (args : list string) : start_result :=
  match n with
  | O => Started ("a1" +:+ nl +:+ "a2" +:+ nl) None
  | S _ => Started ("b1" +:+ nl) None
  end.

(** An operating system without [make]. *)
Definition os_no_make (n : nat) (args : list string) : start_result :=
  StartFailed "exec: make: executable file not found in $PATH".

(** Two overlapping executions: the first process is started and its
    first line printed; then the second is started. *)
Definition overlap_start : list event :=
  [KeyEnter; UserEvent 0; PumpRead 0; UserEvent 0; KeyEnter; UserEvent 0].

(** The goroutine of the first process reads its second line after that,
    and the loop receives the update. *)
Definition overlap_late : list event := [PumpRead 0; UserEvent 0].


(** The same execution with its two updates received in the other
    order. *)
Definition swapped_run : list event :=
  [UserEvent 0; PumpRead 0; PumpRead 0; UserEvent 1; UserEvent 0].

(** The program after its first render pass on a terminal of 80 by 24. *)
Definition ready (os : nat -> list string -> start_result) : App :=
  state_of (MainLoop two_targets order_bt os 80 24 []).

End Scenario.

(** ** Further vocabulary *)

Module Terms.
Import GoStrings Bufio Catalog Float64 Gocui Main.

(** [m] never returns the error of the quit key. *)
Definition never_quits {A : Type} (m : M A) : Prop :=
  forall a a' e, m a = (a', Fail e) -> e <> ErrQuit.

(** The string begins with a white space character. *)
Definition starts_with_space (s : string) : bool :=
  match s with
  | EmptyString => false
  | String c1 s1 =>
      space1 c1 ||
      match s1 with
      | EmptyString => false
      | String c2 s2 =>
          space2 c1 c2 ||
          match s2 with
          | EmptyString => false
          | String c3 _ => space3 c1 c2 c3
          end
      end
  end.

(** The same for a string that is read from its end. *)
Definition starts_with_space_rev (r : string) : bool :=
  match r with
  | EmptyString => false
  | String c1 r1 =>
      space1 c1 ||
      match r1 with
      | EmptyString => false
      | String c2 r2 =>
          space2 c2 c1 ||
          match r2 with
          | EmptyString => false
          | String c3 _ => space3 c3 c2 c1
          end
      end
  end.

Definition ends_with_space (s : string) : bool := starts_with_space_rev (rev s).

(** A string made of white space characters and nothing else. *)
Inductive white : string -> Prop :=
| white_nil : white EmptyString
| white_1 (c : ascii) (s : string) :
    space1 c = true -> white s -> white (String c s)
| white_2 (c1 c2 : ascii) (s : string) :
    space2 c1 c2 = true -> white s -> white (String c1 (String c2 s))
| white_3 (c1 c2 c3 : ascii) (s : string) :
    space3 c1 c2 c3 = true -> white s ->
    white (String c1 (String c2 (String c3 s))).

(** The same for a string that is read from its end. *)
Inductive white_rev : string -> Prop :=
| white_rev_nil : white_rev EmptyString
| white_rev_1 (c : ascii) (s : string) :
    space1 c = true -> white_rev s -> white_rev (String c s)
| white_rev_2 (c1 c2 : ascii) (s : string) :
    space2 c2 c1 = true -> white_rev s -> white_rev (String c1 (String c2 s))
| white_rev_3 (c1 c2 c3 : ascii) (s : string) :
    space3 c3 c2 c1 = true -> white_rev s ->
    white_rev (String c1 (String c2 (String c3 s))).

(** A raw line that fills the buffer of the scanner. *)
Definition too_long (r : string) : Prop :=
  MaxScanTokenSize <= Z.of_nat (String.length r).

(** The views [names] are all in the registry. *)
Definition has_views (names : list string) (a : App) : Prop :=
  Forall (fun n => is_Some (views a !! n)) names.

(** The views of the grid of [main]. *)
Definition three : list string := ["Sidebar"; "command"; "help"].

(** From a state in [P], [m] returns without error, in a state in [P]. *)
Definition sure {A : Type} (P : App -> Prop) (m : M A) : Prop :=
  forall a, P a -> exists a' x, m a = (a', Ok x) /\ P a'.

(** The view [name] is there and satisfies [Q]. *)
Definition view_has (name : string) (Q : View -> Prop) (a : App) : Prop :=
  exists v, views a !! name = Some v /\ Q v.

(** Title, highlight, selection colours and autoscroll of a view are the
    same, and so is the buffer of the sidebar. *)
Definition settled (name : string) (w w' : View) : Prop :=
  Title w' = Title w /\ Highlight w' = Highlight w /\
  SelBgColor w' = SelBgColor w /\ SelFgColor w' = SelFgColor w /\
  Autoscroll w' = Autoscroll w /\
  (name = "Sidebar" -> buf w' = buf w).

(** The cursor of a view is on a line of its buffer. *)
Definition on_line (v : View) : Prop :=
  0 <= oy v + cy v < Z.of_nat (length (buffer_lines (buf v))).

(** The sidebar has the same buffer, and its cursor is on a line if it
    was. *)
Definition anchored (name : string) (w w' : View) : Prop :=
  name = "Sidebar" -> buf w' = buf w /\ (on_line w -> on_line w').

(** A byte that a view stores as it is: a printable ASCII character,
    from the space to the tilde.  Line feed, carriage return, the escape
    character, the other control characters and the bytes of longer UTF-8
    sequences are not among them. *)
Definition plain_byte (c : ascii) : bool :=
  let n := N_of_ascii c in ((32 <=? n) && (n <=? 126))%N.

(** A line of such bytes. *)
Definition text_line (l : string) : bool :=
  forallb plain_byte (list_ascii_of_string l).

(** Lines of text that a view keeps when they are printed to it one after
    the other from its first line on: the first of them is not empty (a
    line feed written to a view without line opens no second line). *)
Definition text_lines (ls : list string) : Prop :=
  Forall (fun l => text_line l = true) ls /\
  (forall l rest, ls = l :: rest -> l <> EmptyString).

(** The lines of a view to which [ls] were printed: [ls] and the empty
    line that the last line feed opens. *)
Definition printed_lines (ls : list string) : list string :=
  match ls with
  | [] => []
  | _ => (ls ++ [EmptyString])%list
  end.




Fixpoint has_LF (s : string) : bool :=
  match s with
  | EmptyString => false
  | String c rest => Ascii.eqb c LF || has_LF rest
  end.

(** What [updateViews] does to the help view for the text [doc]. *)
Definition help_update (doc : string) (v : View) : View :=
  let v' := Write doc (Clear v) in
  if negb (String.eqb doc EmptyString) then set_Wrap true v' else v'.

(** The style [initViews] gives the sidebar, and the one it gives the
    command view. *)
Definition sidebar_style (ks : list string) (v : View) : View :=
  set_buf (buf v +:+ println_all ks)
    (set_Highlight true
       (set_SelFgColor ColorBlack
          (set_SelBgColor ColorBlue (set_Title "Makefile Targets" v)))).

Definition command_style (v : View) : View :=
  set_Autoscroll true (set_Title "Command Output" v).

(** The updates of the queue that start a command. *)
Definition is_exec (u : update) : bool :=
  match u with UExec _ => true | UPrint _ _ => false end.

Definition is_enter (ev : event) : bool :=
  match ev with KeyEnter => true | _ => false end.

(** The number of such updates that wait, and the calls of [cmd.Start]
    made or still to come. *)
Definition pending (a : App) : nat := length (List.filter is_exec (userEvents a)).

Definition committed (a : App) : nat := (length (starts a) + pending a)%nat.

Definition enters (evs : list event) : nat := length (List.filter is_enter evs).



(** A line that the scanner returns as it is and [fmt.Fprintln] writes
    back as it was: no line feed in it, no carriage return at its end,
    and shorter than the buffer of the scanner. *)
Definition plain_line (l : string) : Prop :=
  has_LF l = false /\ dropCR l = l /\
  Z.of_nat (String.length l) < MaxScanTokenSize.

(** Lines as a file with CR LF line ends has them. *)
Definition crlf_all (lines : list string) : string :=
  fold_right (fun l s => l +:+ String CR (String LF s)) EmptyString lines.

(** A plain line that is still short with a carriage return added. *)
Definition crlf_line (l : string) : Prop :=
  plain_line l /\ Z.of_nat (String.length l) + 1 < MaxScanTokenSize.




(** Every process of [a] is a process of [a'], with the same arguments
    and with a part of its output still to read. *)
Definition outlive (a a' : App) : Prop :=
  forall p pr,
    procs a !! p = Some pr ->
    exists pr' read,
      procs a' !! p = Some pr' /\ argv pr' = argv pr /\
      script pr = (read ++ script pr')%list.

(** The two edges of a cell along one axis: offset and length in grid
    units, [unit] the size of a grid unit. *)
Definition edges (unit : float64) (pos len : Z) : Z * Z :=
  let p := mul (of_int pos) unit in
  (to_int p, int_sub (to_int (add p (mul (of_int len) unit))) 1).

(** The rectangle made of the edges along the two axes. *)
Definition clamp (x y : Z * Z) : Z * Z * Z * Z :=
  if (snd x <=? 0) && (snd y <=? 0) then (fst x, fst y, 1, 1)
  else (fst x, fst y, snd x, snd y).

(** What the layout needs to know of a pair of edges: whether the far
    edge is at most 0, whether the near edge is before the far edge, and
    whether the near edge is before 1. *)
Definition summary (e : Z * Z) : bool * bool * bool :=
  (snd e <=? 0, fst e <? snd e, fst e <? 1).

Definition valid_summary (sx sy : bool * bool * bool) : bool :=
  let '(nx, vx, ox) := sx in
  let '(ny, vy, oy) := sy in
  if nx && ny then ox && oy else vx && vy.

Definition x_summary (w : Z) : list (bool * bool * bool) :=
  map (fun c => summary (edges (unit_of w) (XPos c) (Width c))) grid.

Definition y_summary (h : Z) : list (bool * bool * bool) :=
  map (fun c => summary (edges (unit_of h) (YPos c) (Height c))) grid.

(** No cell of the grid is refused on a terminal of [w] by [h]. *)
Definition accepted (u v : float64) (c : Cell) : bool :=
  match cell_error u v c with None => true | Some _ => false end.

Definition fits (w h : Z) : bool :=
  forallb (accepted (unit_of w) (unit_of h)) grid.

(** The sizes on which the program starts: eight columns or more and
    seven rows or nine rows or more; or at most one column and one row,
    where every rectangle is replaced. *)
Definition starts_up (w h : Z) : bool :=
  (8 <=? w) && ((h =? 7) || (9 <=? h)) || (w <=? 1) && (h <=? 1).

(** A size with the same summaries among the first ones. *)
Definition rep_x (w : Z) : Z := if w <? 8 then w else 8.
Definition rep_y (h : Z) : Z := if h <? 9 then h else 9.

(** The largest size the summaries are computed for. *)
Definition size_bound : Z := 1000.

(** The edges of the three views along one axis fit together. *)
Definition x_good (w : Z) : bool :=
  let s := edges (unit_of w) 0 3 in
  let c := edges (unit_of w) 3 9 in
  (fst s =? 0) && (0 <? snd s) &&
  (fst c =? snd s + 1) && (snd c =? w - 1) && (fst c <? snd c).

Definition y_good (h : Z) : bool :=
  let s := edges (unit_of h) 0 10 in
  let c := edges (unit_of h) 0 12 in
  let p := edges (unit_of h) 10 2 in
  (fst s =? 0) && (0 <? snd s) &&
  (fst c =? 0) && (snd c =? h - 1) && (0 <? snd c) &&
  (fst p =? snd s + 1) && (fst p <? snd p) &&
  (h - 2 <=? snd p) && (snd p <=? h - 1).

End Terms.

(** ** Further concrete inputs *)

Module Cases.
Import GoStrings Bufio Catalog Gocui Main Scenario Terms.

(** A descriptor whose catalog is [two_targets]. *)
Definition two_makefile : string :=
  "build:   compile " +:+ nl +:+
  String TAB "cc main.c" +:+ nl +:+
  "test: run unit tests" +:+ nl.


(** No pipe can be made. *)
Definition os_no_pipe (n : nat) (args : list string) : start_result :=
  PipeFailed "pipe: too many open files".





(** A session without target. *)
Definition no_targets : gmap string string := ∅.

End Cases.

(** * Properties *)

(** ** The catalog *)

Module CatalogFacts.
Import GoStrings Bufio Catalog.

Lemma Contains_Cut (s sep : string) :
  Contains s sep = true <-> is_Some (Cut s sep).
Proof.
  induction s as [|c s IH]; cbn [Contains Cut].
  - destruct (HasPrefix EmptyString sep); cbn [orb]; split; intros H.
    + eexists; reflexivity.
    + reflexivity.
    + discriminate.
    + destruct H as [x H]; discriminate.
  - destruct (HasPrefix (String c s) sep); cbn [orb].
    + split; intros _; [eexists|]; reflexivity.
    + rewrite IH. destruct (Cut s sep) as [[b a]|]; split; intros [x H];
        first [discriminate | eexists; reflexivity].
Qed.

Lemma HasPrefix_empty (s : string) : HasPrefix s EmptyString = true.
Proof. destruct s; reflexivity. Qed.

Lemma Cut_colon_cons (c : ascii) (s : string) :
  Cut (String c s) ":" =
  if Ascii.eqb c ":" then Some (EmptyString, s)
  else match Cut s ":" with
       | Some (before, after) => Some (String c before, after)
       | None => None
       end.
Proof.
  cbn [Cut HasPrefix]. rewrite HasPrefix_empty, andb_true_r.
  destruct (Ascii.eqb c ":"); reflexivity.
Qed.

Lemma target_char_colon (c : ascii) : Ascii.eqb c ":" = true -> target_char c = false.
Proof. intros H. apply Ascii.eqb_eq in H. subst c. reflexivity. Qed.

(** The regular expression looks at the text before the first colon. *)
Lemma skip_target_chars_Cut (s : string) :
  (exists rest, skip_target_chars s = String ":" rest) <->
  (exists before after,
      Cut s ":" = Some (before, after) /\
      forallb target_char (list_ascii_of_string before) = true).
Proof.
  induction s as [|c s IH].
  - simpl. split.
    + intros [? H]; discriminate.
    + intros (? & ? & H & _); discriminate.
  - rewrite Cut_colon_cons. cbn [skip_target_chars].
    destruct (Ascii.eqb c ":") eqn:Ec.
    + rewrite (target_char_colon c Ec). apply Ascii.eqb_eq in Ec. subst c.
      split; intros _; eauto.
    + destruct (target_char c) eqn:Et.
      * rewrite IH. split.
        -- intros (b & a & -> & Hb). exists (String c b), a. split; [reflexivity|].
           simpl. rewrite Et. exact Hb.
        -- intros (b & a & H & Hb). destruct (Cut s ":") as [[b' a']|]; [|discriminate].
           inversion H; subst. simpl in Hb. rewrite Et in Hb. eauto.
      * split.
        -- intros [rest H]. inversion H; subst. rewrite Ascii.eqb_refl in Ec. discriminate.
        -- intros (b & a & H & Hb). destruct (Cut s ":") as [[b' a']|]; [|discriminate].
           inversion H; subst. simpl in Hb. rewrite Et in Hb. discriminate.
Qed.

Lemma MatchString_identifier (line : string) :
  MatchString line = true <->
  (exists before after, Cut line ":" = Some (before, after) /\ identifier before = true).
Proof.
  destruct line as [|c rest].
  - simpl. split; [discriminate|]. intros (? & ? & H & _); discriminate.
  - unfold MatchString. rewrite Cut_colon_cons.
    destruct (Ascii.eqb c ":") eqn:Ec.
    + rewrite (target_char_colon c Ec). simpl. split; [discriminate|].
      intros (b & a & H & Hb). inversion H; subst. discriminate.
    + destruct (target_char c) eqn:Et; simpl.
      * split.
        -- intros H.
           assert (Hs : exists r, skip_target_chars rest = String ":" r).
           { destruct (skip_target_chars rest) as [|d r]; [discriminate|].
             apply Ascii.eqb_eq in H. subst d. eauto. }
           apply skip_target_chars_Cut in Hs. destruct Hs as (b & a & -> & Hb).
           exists (String c b), a. split; [reflexivity|]. simpl. rewrite Et. exact Hb.
        -- intros (b & a & H & Hb).
           destruct (Cut rest ":") as [[b' a']|] eqn:EC; [|discriminate].
           inversion H; subst. simpl in Hb. rewrite Et in Hb.
           assert (Hs : exists r, skip_target_chars rest = String ":" r).
           { apply skip_target_chars_Cut. eauto. }
           destruct Hs as [r ->]. reflexivity.
      * split; [discriminate|]. intros (b & a & H & Hb).
        destruct (Cut rest ":") as [[b' a']|]; [|discriminate].
        inversion H; subst. simpl in Hb. rewrite Et in Hb. discriminate.
Qed.

(** The condition tested by the code says what the grammar says. *)
Lemma is_target_line_admissible (line : string) :
  is_target_line line = true <-> admissible line.
Proof.
  unfold is_target_line, admissible, target_of.
  rewrite !andb_true_iff, !negb_true_iff, MatchString_identifier. split.
  - intros ((((Hc & Ht) & Hd) & Hp) & (b & a & HC & Hi)). rewrite HC. tauto.
  - intros (Hc & Ht & Hd & Hp & Hi). repeat split; try assumption.
    apply Contains_Cut in Hc. destruct Hc as [[b a] HC]. rewrite HC in Hi. eauto.
Qed.

(** The loop body never fails, and stores [doc_of] under [target_of]. *)
Lemma scan_line_store (m : gmap string string) (line : string) :
  scan_line m line = Some (store m line).
Proof.
  unfold scan_line, store, target_of, doc_of, SplitN2.
  destruct (is_target_line line) eqn:E; [|reflexivity].
  assert (Hc : Contains line ":" = true).
  { unfold is_target_line in E. rewrite !andb_true_iff in E. tauto. }
  apply Contains_Cut in Hc. destruct Hc as [[b a] ->]. reflexivity.
Qed.

Lemma scan_loop_foldl (lines : list string) (m : gmap string string) :
  scan_loop m lines = Some (foldl store m lines).
Proof.
  revert m. induction lines as [|l ls IH]; intros m; simpl; [reflexivity|].
  rewrite scan_line_store. apply IH.
Qed.

Lemma readMakefile_Some (data : string) (m : gmap string string) :
  readMakefile (Some data) = Some m <->
  snd (ScanLines data) = None /\ m = foldl store ∅ (fst (ScanLines data)).
Proof.
  unfold readMakefile. destruct (ScanLines data) as [lines err]. simpl.
  rewrite scan_loop_foldl. destruct err; split.
  - discriminate.
  - intros [? _]; discriminate.
  - intros H; inversion H; auto.
  - intros [_ ->]; reflexivity.
Qed.

Lemma foldl_store_origin (lines : list string) (m : gmap string string)
      (target doc : string) :
  foldl store m lines !! target = Some doc ->
  m !! target = Some doc \/
  exists line, line ∈ lines /\ admissible line /\
               target_of line = target /\ doc_of line = doc.
Proof.
  revert m. induction lines as [|l ls IH]; intros m; simpl; [auto|].
  intros H. apply IH in H. destruct H as [H | (line & Hin & Hrest)].
  - unfold store in H. destruct (is_target_line l) eqn:E; [|auto].
    destruct (decide (target_of l = target)) as [Heq|Hne].
    + subst target. rewrite lookup_insert_eq in H. inversion H; subst.
      right. exists l. split; [left|]. split; [|auto].
      apply is_target_line_admissible, E.
    + rewrite lookup_insert_ne in H by assumption. auto.
  - right. exists line. split; [right; assumption | assumption].
Qed.

Lemma foldl_store_keeps (lines : list string) (m : gmap string string)
      (target : string) :
  is_Some (m !! target) -> is_Some (foldl store m lines !! target).
Proof.
  revert m. induction lines as [|l ls IH]; intros m H; simpl; [assumption|].
  apply IH. unfold store. destruct (is_target_line l); [|assumption].
  destruct (decide (target_of l = target)) as [<-|Hne].
  - rewrite lookup_insert_eq. eauto.
  - rewrite lookup_insert_ne by assumption. assumption.
Qed.

Lemma foldl_store_unchanged (lines : list string) (m : gmap string string)
      (target : string) :
  (forall l, l ∈ lines -> admissible l -> target_of l <> target) ->
  foldl store m lines !! target = m !! target.
Proof.
  revert m. induction lines as [|l ls IH]; intros m H; simpl; [reflexivity|].
  rewrite IH.
  - unfold store. destruct (is_target_line l) eqn:E; [|reflexivity].
    apply lookup_insert_ne, H; [left|]. apply is_target_line_admissible, E.
  - intros l' Hin. apply H. right. assumption.
Qed.

Lemma foldl_store_last (pre post : list string) (line : string)
      (m : gmap string string) :
  admissible line ->
  (forall l, l ∈ post -> admissible l -> target_of l <> target_of line) ->
  foldl store m (pre ++ line :: post) !! target_of line = Some (doc_of line).
Proof.
  intros Ha Hpost. rewrite foldl_app. simpl.
  rewrite foldl_store_unchanged by assumption.
  unfold store. apply is_target_line_admissible in Ha. rewrite Ha.
  apply lookup_insert_eq.
Qed.

Lemma foldl_store_accepted (lines : list string) (m : gmap string string)
      (line : string) :
  line ∈ lines -> admissible line ->
  is_Some (foldl store m lines !! target_of line).
Proof.
  revert m. induction lines as [|l ls IH]; intros m Hin Ha.
  - inversion Hin.
  - simpl. apply elem_of_cons in Hin. destruct Hin as [->|Hin].
    + apply foldl_store_keeps. unfold store.
      apply is_target_line_admissible in Ha. rewrite Ha.
      rewrite lookup_insert_eq. eauto.
    + apply IH; assumption.
Qed.

(** The load succeeds on every descriptor whose lines fit the scanner. *)
Lemma readMakefile_total (data : string) :
  snd (ScanLines data) = None -> is_Some (readMakefile (Some data)).
Proof.
  intros H. exists (foldl store ∅ (fst (ScanLines data))).
  apply readMakefile_Some. auto.
Qed.

(** C9: when several target lines carry the same name, the catalog binds
    the name to the documentation of the last of them in file order, and
    no key occurs twice in the catalog. *)
Theorem readMakefile_last_binding_wins
        (data : string) (m : gmap string string)
        (pre post : list string) (line : string) :
  readMakefile (Some data) = Some m ->
  fst (ScanLines data) = (pre ++ line :: post)%list ->
  admissible line ->
  (forall l, l ∈ post -> admissible l -> target_of l <> target_of line) ->
  m !! target_of line = Some (doc_of line) /\
  NoDup (map_to_list m).*1.
Proof.
  intros H Hlines Ha Hpost. apply readMakefile_Some in H. destruct H as [_ ->].
  split.
  - rewrite Hlines. apply foldl_store_last; assumption.
  - apply NoDup_fst_map_to_list.
Qed.

Lemma readMakefile_last_binding_wins_witness :
  readMakefile (Some Scenario.duplicate_makefile)
  = Some (<["build" := "compile"]> {[ "test" := "run all tests" ]}) /\
  (<["build" := "compile"]> {[ "test" := "run all tests" ]} : gmap string string)
    !! "test" = Some "run all tests".
Proof.
  assert (H : readMakefile (Some Scenario.duplicate_makefile)
              = Some (<["build" := "compile"]> {[ "test" := "run all tests" ]}))
    by (vm_compute; reflexivity).
  split; [exact H|].
  refine (proj1 (readMakefile_last_binding_wins
                   Scenario.duplicate_makefile _
                   ["test: run unit tests"; "build: compile"] []
                   "test: run all tests" H _ _ _)).
  - vm_compute. reflexivity.
  - repeat split; vm_compute; reflexivity.
  - intros l Hl. inversion Hl.
Defined.

End CatalogFacts.

(** ** The grid layout *)

Module LayoutFacts.
Import GoStrings Float64 Gocui Main.

Lemma App_eta (a : App) : set_views (views a) a = a.
Proof. destruct a; reflexivity. Qed.

Lemma View_eta (v : View) : set_rect (x0 v) (y0 v) (x1 v) (y1 v) v = v.
Proof. destruct v; reflexivity. Qed.

(** One turn of the loop: the cell is refused, or its view is placed. *)
Lemma GridLayout_loop_cons (u v : float64) (c : Cell) (g : list Cell) (a : App) :
  GridLayout_loop u v (c :: g) a =
  match cell_error u v c with
  | Some e => (a, Fail e)
  | None => GridLayout_loop u v g (set_views (place u v (views a) c) a)
  end.
Proof.
  cbn [GridLayout_loop]. unfold cell_error, place.
  destruct (section_rect u v c) as [[[x y] z] w].
  unfold bind, SetView.
  destruct ((z <=? x) || (w <=? y)); [reflexivity|].
  destruct (String.eqb (Name c) EmptyString); [reflexivity|].
  destruct (views a !! Name c); simpl; [reflexivity|].
  unfold modView. simpl. rewrite alter_insert_eq. reflexivity.
Qed.

(** The loop places a prefix of the grid, all of it when it succeeds, and
    touches nothing but the registry. *)
Lemma GridLayout_loop_placed (u v : float64) (g : list Cell) (a a' : App)
      (r : res unit) :
  GridLayout_loop u v g a = (a', r) ->
  exists g1 g2 : list Cell,
    g = (g1 ++ g2)%list /\
    a' = set_views (foldl (place u v) (views a) g1) a /\
    (forall x, r = Ok x -> g2 = []).
Proof.
  revert a. induction g as [|c g IH]; intros a H.
  - inversion H; subst. exists [], []. cbn [foldl]. rewrite App_eta. auto.
  - rewrite GridLayout_loop_cons in H. destruct (cell_error u v c) as [e|].
    + inversion H; subst. exists [], (c :: g). cbn [foldl]. rewrite App_eta.
      repeat split. intros x Hx. discriminate.
    + apply IH in H. destruct H as (g1 & g2 & -> & -> & Hok).
      exists (c :: g1), g2. repeat split; assumption.
Qed.

Lemma GridLayout_loop_Ok (u v : float64) (g : list Cell) (a a' : App) (x : unit) :
  GridLayout_loop u v g a = (a', Ok x) ->
  a' = set_views (foldl (place u v) (views a) g) a.
Proof.
  intros H. apply GridLayout_loop_placed in H.
  destruct H as (g1 & g2 & -> & -> & Hok).
  rewrite (Hok x eq_refl), app_nil_r. reflexivity.
Qed.

(** The loop succeeds exactly when no cell is refused. *)
Lemma GridLayout_loop_succeeds (u v : float64) (g : list Cell) (a : App) :
  Forall (fun c => cell_error u v c = None) g ->
  GridLayout_loop u v g a = (set_views (foldl (place u v) (views a) g) a, Ok tt).
Proof.
  revert a. induction g as [|c g IH]; intros a H.
  - simpl. unfold ret. rewrite App_eta. reflexivity.
  - inversion H as [|? ? Hc Hg]; subst. rewrite GridLayout_loop_cons, Hc.
    rewrite IH by assumption. reflexivity.
Qed.

Lemma GridLayout_loop_checked (u v : float64) (g : list Cell) (a a' : App) (x : unit) :
  GridLayout_loop u v g a = (a', Ok x) ->
  Forall (fun c => cell_error u v c = None) g.
Proof.
  revert a. induction g as [|c g IH]; intros a H; [constructor|].
  rewrite GridLayout_loop_cons in H.
  destruct (cell_error u v c) as [e|] eqn:E; [discriminate|].
  constructor; [assumption | eapply IH; eassumption].
Qed.

(** What the registry holds under a name once a list of cells is placed. *)
Lemma foldl_place_lookup (u v : float64) (g : list Cell) (m : gmap string View)
      (name : string) :
  foldl (place u v) m g !! name =
  match last_rect u v g name with
  | Some r => Some (with_rect r (base_view m name))
  | None => m !! name
  end.
Proof.
  revert m. induction g as [|c g IH]; intros m; [reflexivity|].
  cbn [foldl last_rect]. rewrite IH.
  unfold base_view, place.
  destruct (section_rect u v c) as [[[x y] z] w].
  destruct (last_rect u v g name) as [[[[x' y'] z'] w']|].
  - f_equal. destruct (decide (Name c = name)) as [<-|Hne].
    + destruct (m !! Name c); rewrite lookup_insert_eq; reflexivity.
    + destruct (m !! Name c); rewrite lookup_insert_ne by assumption; reflexivity.
  - destruct (String.eqb_spec (Name c) name) as [<-|Hne].
    + destruct (m !! Name c); rewrite lookup_insert_eq; reflexivity.
    + destruct (m !! Name c); rewrite lookup_insert_ne by assumption; reflexivity.
Qed.

Lemma last_rect_None (u v : float64) (g : list Cell) (name : string) :
  name ∉ map Name g -> last_rect u v g name = None.
Proof.
  induction g as [|c g IH]; intros H; [reflexivity|].
  cbn [last_rect]. rewrite IH.
  - destruct (String.eqb_spec (Name c) name) as [E|E]; [|reflexivity].
    exfalso. apply H. rewrite <- E. left.
  - intros Hin. apply H. right. assumption.
Qed.

Lemma last_rect_NoDup (u v : float64) (g : list Cell) (c : Cell) :
  NoDup (map Name g) -> c ∈ g ->
  last_rect u v g (Name c) = Some (section_rect u v c).
Proof.
  induction g as [|c0 g IH]; intros Hnd Hin; [inversion Hin|].
  cbn [map] in Hnd. apply NoDup_cons in Hnd. destruct Hnd as [Hfresh Hnd].
  apply elem_of_cons in Hin. cbn [last_rect]. destruct Hin as [->|Hin].
  - rewrite last_rect_None by assumption. rewrite String.eqb_refl. reflexivity.
  - rewrite IH by assumption. reflexivity.
Qed.

(** A view that is in the registry keeps everything but its rectangle. *)
Lemma foldl_place_keeps (u v : float64) (g : list Cell) (m : gmap string View)
      (name : string) (w : View) :
  m !! name = Some w ->
  exists r, foldl (place u v) m g !! name = Some (with_rect r w).
Proof.
  intros H. rewrite foldl_place_lookup. unfold base_view. rewrite H.
  destruct (last_rect u v g name) as [r|].
  - exists r. reflexivity.
  - exists (rect w). unfold with_rect, rect. rewrite View_eta. reflexivity.
Qed.

Lemma foldl_place_twice (u v : float64) (g : list Cell) (m : gmap string View) :
  foldl (place u v) (foldl (place u v) m g) g = foldl (place u v) m g.
Proof.
  apply map_eq. intros name. rewrite (foldl_place_lookup u v g (foldl _ _ _)).
  unfold base_view. rewrite foldl_place_lookup.
  destruct (last_rect u v g name) as [[[[x y] z] w]|]; reflexivity.
Qed.

Lemma GridLayout_unfold (g : list Cell) (a : App) :
  GridLayout g a = GridLayout_loop (unit_of (maxX a)) (unit_of (maxY a)) g a.
Proof. reflexivity. Qed.

(** Whatever its result, the layout leaves everything outside the registry
    alone and changes at most the rectangle of a view that exists. *)
Lemma GridLayout_frame (g : list Cell) (a a' : App) (r : res unit) :
  GridLayout g a = (a', r) ->
  currentView a' = currentView a /\ maxX a' = maxX a /\ maxY a' = maxY a /\
  userEvents a' = userEvents a /\ started a' = started a /\
  procs a' = procs a /\ starts a' = starts a /\
  forall name w, views a !! name = Some w ->
                 exists q, views a' !! name = Some (with_rect q w).
Proof.
  rewrite GridLayout_unfold. intros H. apply GridLayout_loop_placed in H.
  destruct H as (g1 & g2 & _ & -> & _). repeat split.
  intros name w Hw. cbn [views set_views]. apply foldl_place_keeps. assumption.
Qed.

(** C4: after a layout that succeeds on a grid of distinct names, the view
    of every cell has its left and top edge at the truncated products of
    the offsets and the unit sizes (terminal size over 12, in float64), and
    its right and bottom edge at the truncated sums less one; both of these
    are replaced by 1 exactly when both are at most 0. *)
Theorem GridLayout_rectangles (g : list Cell) (a a' : App) (c : Cell) :
  GridLayout g a = (a', Ok tt) ->
  NoDup (map Name g) ->
  c ∈ g ->
  let unitX := div (of_int (maxX a)) (of_int 12) in
  let unitY := div (of_int (maxY a)) (of_int 12) in
  let xPos := mul (of_int (XPos c)) unitX in
  let yPos := mul (of_int (YPos c)) unitY in
  let width := mul (of_int (Width c)) unitX in
  let height := mul (of_int (Height c)) unitY in
  let right := int_sub (to_int (add xPos width)) 1 in
  let bottom := int_sub (to_int (add yPos height)) 1 in
  exists w : View,
    views a' !! Name c = Some w /\
    x0 w = to_int xPos /\ y0 w = to_int yPos /\
    (right <= 0 /\ bottom <= 0 -> x1 w = 1 /\ y1 w = 1) /\
    (~ (right <= 0 /\ bottom <= 0) -> x1 w = right /\ y1 w = bottom).
Proof.
  intros H Hnd Hin. rewrite GridLayout_unfold in H.
  apply GridLayout_loop_Ok in H. subst a'. cbn [views set_views].
  rewrite foldl_place_lookup, (last_rect_NoDup _ _ g c Hnd Hin).
  cbv zeta. unfold section_rect, unit_of.
  set (right := int_sub _ 1). set (bottom := int_sub (to_int (add (mul (of_int (YPos c)) _) _)) 1).
  assert (Hb : (right <=? 0) && (bottom <=? 0) = true <-> right <= 0 /\ bottom <= 0)
    by (rewrite andb_true_iff, !Z.leb_le; reflexivity).
  destruct ((right <=? 0) && (bottom <=? 0)) eqn:E;
    (eexists; split; [reflexivity|]); cbn [with_rect set_rect x0 y0 x1 y1].
  - assert (Hle : right <= 0 /\ bottom <= 0) by (apply Hb; reflexivity). tauto.
  - assert (Hle : ~ (right <= 0 /\ bottom <= 0))
      by (intros Hle; apply Hb in Hle; discriminate).
    tauto.
Qed.

Lemma GridLayout_rectangles_witness :
  exists w : View,
    views (fst (GridLayout grid (boot 80 24))) !! "help" = Some w /\
    rect w = (0, 20, 19, 23).
Proof.
  assert (H : GridLayout grid (boot 80 24)
              = (fst (GridLayout grid (boot 80 24)), Ok tt))
    by (vm_compute; reflexivity).
  assert (Hnd : NoDup (map Name grid)).
  { apply (bool_decide_unpack _). vm_compute. exact I. }
  assert (Hin : mkCell "help" 3 2 0 10 ∈ grid).
  { unfold grid. rewrite !elem_of_cons. auto. }
  destruct (GridLayout_rectangles grid (boot 80 24) _ (mkCell "help" 3 2 0 10)
              H Hnd Hin) as (w & Hw & Hx0 & Hy0 & _ & Hx1).
  exists w. split; [exact Hw|].
  destruct Hx1 as [Hx1 Hy1].
  - vm_compute. intros [? ?]. congruence.
  - unfold rect. rewrite Hx0, Hy0, Hx1, Hy1. vm_compute. reflexivity.
Defined.

(** C4, as stated, fails: on a terminal of 80 by 1 the bottom edge computed
    for the sidebar is -1, the rectangle is left as it is, and the layout
    ends with the error of [SetView]. *)
Lemma clamp_needs_both_edges :
  section_rect (unit_of 80) (unit_of 1) (mkCell "Sidebar" 3 10 0 0)
  = (0, 0, 19, -1) /\
  GridLayout grid (boot 80 1) = (boot 80 1, Fail (Err "invalid dimensions")).
Proof. split; vm_compute; reflexivity. Qed.

(** On a terminal of size 0 by 0 both edges of every cell are -1, and
    every view gets the rectangle from (0,0) to (1,1). *)
Example clamp_on_empty_terminal :
  snd (GridLayout grid (boot 0 0)) = Ok tt /\
  rect <$> (views (fst (GridLayout grid (boot 0 0))) !! "command")
  = Some (0, 0, 1, 1).
Proof. vm_compute. split; reflexivity. Qed.

(** In float64 the bottom edge can fall one short of the exact quotient:
    on 32 rows the help view ends in row 30, not 31. *)
Example help_bottom_on_32_rows :
  section_rect (unit_of 80) (unit_of 32) (mkCell "help" 3 2 0 10)
  = (0, 26, 19, 30).
Proof. vm_compute. reflexivity. Qed.

(** C8: a layout that has succeeded, computed again on the same terminal
    size and grid, succeeds and changes nothing, so every view has the
    same rectangle; and a view that existed before a layout differs after
    it in its rectangle only: it has the same buffer, cursor and origin. *)
Theorem GridLayout_idempotent (g : list Cell) (a a1 : App) :
  GridLayout g a = (a1, Ok tt) ->
  GridLayout g a1 = (a1, Ok tt) /\
  forall name w, views a !! name = Some w ->
    exists w', views a1 !! name = Some w' /\
               w' = with_rect (rect w') w /\
               buf w' = buf w /\ cx w' = cx w /\ cy w' = cy w /\
               ox w' = ox w /\ oy w' = oy w.
Proof.
  intros H. split.
  - pose proof H as H1. rewrite GridLayout_unfold in H1.
    pose proof (GridLayout_loop_checked _ _ _ _ _ _ H1) as Hok.
    apply GridLayout_loop_Ok in H1.
    rewrite GridLayout_unfold. subst a1. cbn [maxX maxY set_views].
    rewrite GridLayout_loop_succeeds by assumption.
    cbn [views set_views]. rewrite foldl_place_twice. reflexivity.
  - intros name w Hw. apply GridLayout_frame in H.
    destruct H as (_ & _ & _ & _ & _ & _ & _ & Hv).
    destruct (Hv name w Hw) as ([[[p q] r] s] & Hq).
    eexists. split; [exact Hq|]. repeat split.
Qed.

Lemma GridLayout_idempotent_witness :
  GridLayout grid (fst (GridLayout grid (boot 80 24)))
  = (fst (GridLayout grid (boot 80 24)), Ok tt).
Proof.
  apply (GridLayout_idempotent grid (boot 80 24)).
  vm_compute. reflexivity.
Defined.

End LayoutFacts.

(** ** The render loop: what a redraw leaves alone *)

Module FrameFacts.
Import GoStrings Bufio Float64 Gocui Main.

Lemma untouched_refl (name : string) (w : View) : untouched name w w.
Proof. split; auto. Qed.

Lemma untouched_trans (name : string) (w1 w2 w3 : View) :
  untouched name w1 w2 -> untouched name w2 w3 -> untouched name w1 w3.
Proof.
  intros [Hb1 Hw1] [Hb2 Hw2]. split.
  - intros Hn. rewrite (Hb2 Hn). auto.
  - auto.
Qed.

Lemma calm_refl (a : App) : calm a a.
Proof.
  split; [repeat split|]. intros name w Hw. exists w.
  split; [assumption | apply untouched_refl].
Qed.

Lemma calm_trans (a1 a2 a3 : App) : calm a1 a2 -> calm a2 a3 -> calm a1 a3.
Proof.
  intros [(Hu1 & Hp1 & Hs1) Hk1] [(Hu2 & Hp2 & Hs2) Hk2]. split.
  - repeat split; congruence.
  - intros name w Hw. destruct (Hk1 name w Hw) as (w2 & Hw2 & H12).
    destruct (Hk2 name w2 Hw2) as (w3 & Hw3 & H23).
    exists w3. split; [assumption|]. eapply untouched_trans; eassumption.
Qed.

Lemma respects_ret {A : Type} (x : A) : respects calm (ret x).
Proof. intros a a' r H. inversion H; subst. apply calm_refl. Qed.

Lemma respects_fail {A : Type} (e : error) : respects calm (@fail A e).
Proof. intros a a' r H. inversion H; subst. apply calm_refl. Qed.

Lemma respects_bind {A B : Type} (m : M A) (k : A -> M B) :
  respects calm m -> (forall x, respects calm (k x)) -> respects calm (bind m k).
Proof.
  intros Hm Hk a a' r H. unfold bind in H.
  destruct (m a) as [a1 [x|e]] eqn:E.
  - eapply calm_trans; [eapply Hm; eassumption | eapply Hk; eassumption].
  - inversion H; subst. eapply Hm; eassumption.
Qed.

Lemma respects_getView (name : string) : respects calm (getView name).
Proof.
  intros a a' r H. unfold getView in H.
  destruct (views a !! name); inversion H; subst; apply calm_refl.
Qed.

Lemma calm_alter (name : string) (f : View -> View) (a : App) :
  (forall w, untouched name w (f w)) ->
  calm a (set_views (alter f name (views a)) a).
Proof.
  intros Hf. split; [repeat split|]. intros n w Hw. cbn [views set_views].
  destruct (decide (name = n)) as [->|Hne].
  - rewrite lookup_alter_eq, Hw. exists (f w). split; [reflexivity | apply Hf].
  - rewrite lookup_alter_ne by assumption. exists w.
    split; [assumption | apply untouched_refl].
Qed.

Lemma respects_modView (name : string) (f : View -> View) :
  (forall w, untouched name w (f w)) -> respects calm (modView name f).
Proof.
  intros Hf a a' r H. inversion H; subst. apply calm_alter, Hf.
Qed.

Lemma respects_SetCurrentView (name : string) : respects calm (SetCurrentView name).
Proof.
  intros a a' r H. unfold SetCurrentView in H.
  destruct (views a !! name); inversion H; subst; [|apply calm_refl].
  split; [repeat split|]. intros n w Hw. exists w.
  split; [assumption | apply untouched_refl].
Qed.

Lemma respects_GridLayout (g : list Cell) : respects calm (GridLayout g).
Proof.
  intros a a' r H. apply LayoutFacts.GridLayout_frame in H.
  destruct H as (_ & _ & _ & Hu & _ & Hp & Hs & Hv).
  split; [repeat split; assumption|]. intros name w Hw.
  destruct (Hv name w Hw) as ([[[p q] s] t] & Hq).
  eexists. split; [exact Hq|]. split; auto.
Qed.

Lemma quiet_untouched (name : string) (f : View -> View) :
  quiet f -> forall w, untouched name w (f w).
Proof.
  intros Hf w. destruct (Hf w) as [Hb Hw]. split; [auto|]. rewrite Hw. auto.
Qed.

Lemma not_command_untouched (name : string) (f : View -> View) :
  name <> "command" -> (forall w, Wrap (f w) = Wrap w) ->
  forall w, untouched name w (f w).
Proof.
  intros Hn Hf w. split; [intros E; contradiction|]. rewrite Hf. auto.
Qed.

Lemma quiet_MoveCursor (d : Z) : quiet (MoveCursor d).
Proof.
  intros w. unfold MoveCursor.
  destruct (_ && _); split; reflexivity.
Qed.

Lemma respects_print_targets (keys : list string) :
  respects calm (print_targets keys).
Proof.
  induction keys as [|k keys IH]; cbn [print_targets].
  - apply respects_ret.
  - apply respects_bind; [|intros _; exact IH].
    apply respects_modView, not_command_untouched; [discriminate|reflexivity].
Qed.

Ltac calm_step :=
  first
    [ apply respects_ret
    | apply respects_fail
    | apply respects_getView
    | apply respects_SetCurrentView
    | apply respects_print_targets
    | apply respects_GridLayout
    | apply respects_modView;
      first [ apply quiet_untouched; intros ?; split; reflexivity
            | apply not_command_untouched; [discriminate | reflexivity] ]
    | apply respects_bind; [|intros ?] ].

Lemma respects_initViews (keys : list string) : respects calm (initViews keys).
Proof. unfold initViews. repeat calm_step. Qed.

Lemma respects_updateViews (targetsMap : gmap string string) :
  respects calm (updateViews targetsMap).
Proof.
  unfold updateViews. repeat calm_step.
  destruct (negb _); [|apply respects_ret].
  apply respects_modView. intros w. split; [discriminate | reflexivity].
Qed.

Lemma respects_manager (targetsMap : gmap string string) (keys : list string) :
  respects calm (manager targetsMap keys).
Proof.
  unfold manager. apply respects_bind; [apply respects_GridLayout|].
  intros _ a a' r H. destruct (negb (started a)).
  - apply respects_initViews in H. eapply calm_trans; [|exact H].
    split; [repeat split|]. intros n w Hw. exists w.
    split; [assumption | apply untouched_refl].
  - eapply respects_updateViews; eassumption.
Qed.

Lemma respects_on_current (d : Z) : respects calm (on_current (MoveCursor d)).
Proof.
  intros a a' r H. unfold on_current in H. destruct (currentView a).
  - revert H. apply respects_modView, quiet_untouched, quiet_MoveCursor.
  - inversion H; subst. apply calm_refl.
Qed.

(** The buffer of the command view and the [Wrap] flags across a relation. *)
Lemma calm_buffer (a a' : App) :
  calm a a' -> is_Some (views a !! "command") ->
  buffer "command" a' = buffer "command" a /\ is_Some (views a' !! "command").
Proof.
  intros [_ Hk] [w Hw]. destruct (Hk _ _ Hw) as (w' & Hw' & Hb & _).
  unfold buffer. rewrite Hw, Hw'. split; [auto | eauto].
Qed.

Lemma keeps_wrap (a a' : App) (name : string) :
  keeps untouched a a' -> wrap_of name a = true -> wrap_of name a' = true.
Proof.
  intros Hk. unfold wrap_of. destruct (views a !! name) as [w|] eqn:Hw; [|discriminate].
  destruct (Hk _ _ Hw) as (w' & -> & _ & Hwrap). exact Hwrap.
Qed.

(** The current view and [started] under the same functions. *)

Lemma same_focus_refl (a : App) : same_focus a a.
Proof. split; reflexivity. Qed.

Lemma same_focus_trans (a1 a2 a3 : App) :
  same_focus a1 a2 -> same_focus a2 a3 -> same_focus a1 a3.
Proof. intros [H1 H2] [H3 H4]. split; congruence. Qed.

Lemma focus_bind {A B : Type} (m : M A) (k : A -> M B) :
  respects same_focus m -> (forall x, respects same_focus (k x)) ->
  respects same_focus (bind m k).
Proof.
  intros Hm Hk a a' r H. unfold bind in H.
  destruct (m a) as [a1 [x|e]] eqn:E.
  - eapply same_focus_trans; [eapply Hm; eassumption | eapply Hk; eassumption].
  - inversion H; subst. eapply Hm; eassumption.
Qed.

Lemma focus_ret {A : Type} (x : A) : respects same_focus (ret x).
Proof. intros a a' r H. inversion H; subst. apply same_focus_refl. Qed.

Lemma focus_getView (name : string) : respects same_focus (getView name).
Proof.
  intros a a' r H. unfold getView in H.
  destruct (views a !! name); inversion H; subst; apply same_focus_refl.
Qed.

Lemma focus_modView (name : string) (f : View -> View) :
  respects same_focus (modView name f).
Proof. intros a a' r H. inversion H; subst. split; reflexivity. Qed.

Lemma focus_GridLayout (g : list Cell) : respects same_focus (GridLayout g).
Proof.
  intros a a' r H. apply LayoutFacts.GridLayout_frame in H.
  destruct H as (Hc & _ & _ & _ & Hs & _). split; assumption.
Qed.

Ltac focus_step :=
  first
    [ apply focus_ret
    | apply focus_getView
    | apply focus_modView
    | apply focus_GridLayout
    | apply focus_bind; [|intros ?] ].

Lemma focus_updateViews (targetsMap : gmap string string) :
  respects same_focus (updateViews targetsMap).
Proof.
  unfold updateViews. repeat focus_step. destruct (negb _); focus_step.
Qed.

(** Once the first pass is over, a redraw keeps the current view. *)
Lemma manager_focused (targetsMap : gmap string string) (keys : list string)
      (a a' : App) (r : res unit) :
  focused a -> manager targetsMap keys a = (a', r) -> focused a'.
Proof.
  intros [Hc Hs] H. unfold manager, bind in H.
  destruct (GridLayout grid a) as [a1 [[]|e]] eqn:E;
    apply focus_GridLayout in E; destruct E as [Hc1 Hs1].
  - rewrite Hs1, Hs in H. cbn [negb] in H.
    apply focus_updateViews in H. destruct H as [Hc2 Hs2].
    split; congruence.
  - inversion H; subst. split; congruence.
Qed.

End FrameFacts.

(** ** The render loop: events *)

Module LoopFacts.
Import GoStrings Bufio Float64 Gocui Main FrameFacts.

Section Loop.

Variable targetsMap : gmap string string.
Variable keys : list string.
Variable os : nat -> list string -> start_result.

Local Abbreviation manager := (Main.manager targetsMap keys).
Local Abbreviation handle := (Main.handle os).
Local Abbreviation iteration := (Main.iteration targetsMap keys os).
Local Abbreviation step := (Main.step targetsMap keys os).
Local Abbreviation run := (Main.run targetsMap keys os).

(** An iteration handles the event and, if that went well, redraws. *)
Lemma iteration_handle (ev : event) (a : App) :
  calm (fst (handle ev a)) (state_of (iteration ev a)) /\
  (forall a', iteration ev a = Running a' -> snd (handle ev a) = Ok tt).
Proof.
  unfold Main.iteration, bind. destruct (handle ev a) as [a1 [[]|e]]; cbn [fst snd].
  - destruct (manager a1) as [a2 [[]|e]] eqn:E; cbn [state_of];
      (split; [eapply respects_manager; eassumption|]); intros a' H;
      [reflexivity | discriminate].
  - cbn [state_of]. split; [apply calm_refl|]. intros a' H. discriminate.
Qed.

Lemma iteration_Running (ev : event) (a a' : App) :
  iteration ev a = Running a' ->
  handle ev a = (fst (handle ev a), Ok tt) /\ calm (fst (handle ev a)) a'.
Proof.
  intros H. destruct (iteration_handle ev a) as [Hc Hok].
  rewrite H in Hc. cbn [state_of] in Hc. split; [|exact Hc].
  rewrite <- (Hok a' H). destruct (handle ev a); reflexivity.
Qed.

Lemma handle_UserEvent (i : nat) (u : update) (a : App) :
  userEvents a !! i = Some u ->
  handle (UserEvent i) a
  = run_update os u (set_userEvents (delete i (userEvents a)) a).
Proof. intros H. cbn [Main.handle]. rewrite H. reflexivity. Qed.

Lemma step_UserEvent (i : nat) (u : update) (a : App) :
  userEvents a !! i = Some u -> step (UserEvent i) a = iteration (UserEvent i) a.
Proof. intros H. cbn [Main.step]. rewrite H. reflexivity. Qed.

Lemma run_update_UExec (line : string) (w : View) (b : App) :
  views b !! "command" = Some w ->
  run_update os (UExec line) b
  = Start os ["make"; line] (set_views (alter Clear "command" (views b)) b).
Proof.
  intros H. cbn [run_update]. unfold bind, getView. rewrite H. reflexivity.
Qed.

Lemma buffer_alter (f : View -> View) (w : View) (b c : App) :
  views b !! "command" = Some w ->
  views c = alter f "command" (views b) ->
  buffer "command" c = buf (f w) /\ is_Some (views c !! "command").
Proof.
  intros H Hc. unfold buffer. rewrite Hc, lookup_alter_eq, H. cbn. eauto.
Qed.

(** *** The wrap flag *)

Lemma wrap_mono_refl (a : App) : wrap_mono a a.
Proof. intros name H. exact H. Qed.

Lemma wrap_mono_trans (a1 a2 a3 : App) :
  wrap_mono a1 a2 -> wrap_mono a2 a3 -> wrap_mono a1 a3.
Proof. intros H1 H2 name H. apply H2, H1, H. Qed.

Lemma calm_wrap_mono (a a' : App) : calm a a' -> wrap_mono a a'.
Proof. intros [_ Hk] name. apply keeps_wrap, Hk. Qed.

Lemma wrap_mono_views (a a' : App) : views a' = views a -> wrap_mono a a'.
Proof. intros H name. unfold wrap_of. rewrite H. auto. Qed.

Lemma wrap_mono_alter (n : string) (f : View -> View) (a a' : App) :
  (forall w, Wrap (f w) = Wrap w) ->
  views a' = alter f n (views a) -> wrap_mono a a'.
Proof.
  intros Hf H name. unfold wrap_of. rewrite H.
  destruct (decide (n = name)) as [->|Hne].
  - rewrite lookup_alter_eq. destruct (views a !! name); cbn; [|auto].
    rewrite Hf. auto.
  - rewrite lookup_alter_ne by assumption. auto.
Qed.

Lemma Start_views (args : list string) (a : App) :
  views (fst (Start os args a)) = views a.
Proof. unfold Start. destruct (os _ _); reflexivity. Qed.

Lemma run_update_wrap (u : update) (a : App) :
  wrap_mono a (fst (run_update os u a)).
Proof.
  destruct u as [line|p text].
  - destruct (views a !! "command") as [w|] eqn:E.
    + rewrite (run_update_UExec line w a E).
      eapply wrap_mono_alter with (f := Clear) (n := "command"); [reflexivity|].
      rewrite Start_views. reflexivity.
    + cbn [run_update]. unfold bind, getView. rewrite E. apply wrap_mono_refl.
  - cbn [run_update]. unfold modView. cbn [fst].
    eapply wrap_mono_alter; [|reflexivity]. reflexivity.
Qed.

Lemma handle_wrap (ev : event) (a : App) : wrap_mono a (fst (handle ev a)).
Proof.
  destruct ev; cbn [Main.handle].
  - apply calm_wrap_mono.
    destruct (cursorDown a) as [a1 r] eqn:E. eapply respects_on_current, E.
  - apply calm_wrap_mono.
    destruct (cursorUp a) as [a1 r] eqn:E. eapply respects_on_current, E.
  - apply wrap_mono_views. unfold executeCommand.
    destruct (current a) as [v|]; [|reflexivity].
    destruct (Line v (Cursor_y v)) as [line [e|]]; reflexivity.
  - apply wrap_mono_refl.
  - apply wrap_mono_views. reflexivity.
  - destruct (userEvents a !! i) as [u|]; [|apply wrap_mono_refl].
    eapply wrap_mono_trans; [|apply run_update_wrap].
    apply wrap_mono_views. reflexivity.
  - apply wrap_mono_refl.
Qed.

Lemma iteration_wrap (ev : event) (a : App) :
  wrap_mono a (state_of (iteration ev a)).
Proof.
  eapply wrap_mono_trans; [apply handle_wrap|].
  apply calm_wrap_mono, iteration_handle.
Qed.

Lemma pump_views (p : nat) (a : App) : views (pump p a) = views a.
Proof.
  unfold pump. destruct (procs a !! p) as [pr|]; [|reflexivity].
  destruct (script pr); reflexivity.
Qed.

Lemma step_wrap (ev : event) (a : App) : wrap_mono a (state_of (step ev a)).
Proof.
  destruct ev; cbn [Main.step]; try apply iteration_wrap.
  - destruct (userEvents a !! i); [apply iteration_wrap | apply wrap_mono_refl].
  - cbn [state_of]. apply wrap_mono_views, pump_views.
Qed.

Lemma run_wrap (evs : list event) (a : App) : wrap_mono a (state_of (run evs a)).
Proof.
  revert a. induction evs as [|ev evs IH]; intros a; cbn [Main.run].
  - apply wrap_mono_refl.
  - pose proof (step_wrap ev a) as H. destruct (step ev a) as [a1|e a1].
    + eapply wrap_mono_trans; [exact H | apply IH].
    + exact H.
Qed.

Lemma updateViews_sets_wrap (a a' : App) :
  updateViews targetsMap a = (a', Ok tt) ->
  doc_for targetsMap (highlighted a) <> EmptyString ->
  wrap_of "help" a' = true.
Proof.
  unfold updateViews, highlighted, bind, getView.
  destruct (views a !! "Sidebar") as [v|]; [|discriminate].
  destruct (views a !! "help") as [h|] eqn:Eh; [|discriminate].
  unfold modView. cbn [views set_views].
  intros H Hdoc. apply String.eqb_neq in Hdoc. rewrite Hdoc in H. cbn [negb] in H.
  inversion H; subst. unfold wrap_of. cbn [views set_views].
  rewrite !lookup_alter_eq, Eh. reflexivity.
Qed.

(** C10: the update step sets the wrap flag of the documentation view when
    the documentation it found is not empty, and no event of the session
    clears the flag: once set, it is set in every later state, whatever is
    highlighted then. *)
Theorem wrap_flag_monotone (evs : list event) (a : App) :
  (forall a', updateViews targetsMap a = (a', Ok tt) ->
              doc_for targetsMap (highlighted a) <> EmptyString ->
              wrap_of "help" a' = true) /\
  (wrap_of "help" a = true -> wrap_of "help" (state_of (run evs a)) = true).
Proof.
  split.
  - apply updateViews_sets_wrap.
  - apply run_wrap.
Qed.

(** *** Updates *)

Lemma Start_result (args : list string) (b : App) :
  userEvents (fst (Start os args b)) = userEvents b /\
  views (fst (Start os args b)) = views b /\
  match os (length (starts b)) args with
  | PipeFailed msg =>
      snd (Start os args b) = Fail (Err msg) /\
      procs (fst (Start os args b)) = procs b /\
      starts (fst (Start os args b)) = starts b
  | StartFailed msg =>
      snd (Start os args b) = Fail (Err msg) /\
      procs (fst (Start os args b)) = procs b /\
      starts (fst (Start os args b)) = (starts b ++ [args])%list
  | Started stdout read_err =>
      snd (Start os args b) = Ok tt /\
      procs (fst (Start os args b))
      = (procs b ++ [mkProc args (pump_script stdout read_err)])%list /\
      starts (fst (Start os args b)) = (starts b ++ [args])%list
  end.
Proof. unfold Start. destruct (os _ _); repeat split. Qed.

(** What delivering [UExec line] does, up to the redraw. *)
Lemma deliver_UExec (i : nat) (line : string) (w : View) (a : App) :
  userEvents a !! i = Some (UExec line) ->
  views a !! "command" = Some w ->
  let h := handle (UserEvent i) a in
  userEvents (fst h) = delete i (userEvents a) /\
  buffer "command" (fst h) = EmptyString /\
  is_Some (views (fst h) !! "command") /\
  match os (length (starts a)) ["make"; line] with
  | PipeFailed msg =>
      snd h = Fail (Err msg) /\ procs (fst h) = procs a /\
      starts (fst h) = starts a
  | StartFailed msg =>
      snd h = Fail (Err msg) /\ procs (fst h) = procs a /\
      starts (fst h) = (starts a ++ [["make"; line]])%list
  | Started stdout read_err =>
      snd h = Ok tt /\
      procs (fst h)
      = (procs a ++ [mkProc ["make"; line] (pump_script stdout read_err)])%list /\
      starts (fst h) = (starts a ++ [["make"; line]])%list
  end.
Proof.
  intros Hi Hw h. subst h. rewrite (handle_UserEvent i _ a Hi).
  rewrite (run_update_UExec line w) by exact Hw.
  set (b := set_views _ _).
  destruct (Start_result ["make"; line] b) as (Hu & Hv & Hr).
  assert (Hb : buffer "command" (fst (Start os ["make"; line] b)) = buf (Clear w)
               /\ is_Some (views (fst (Start os ["make"; line] b)) !! "command")).
  { apply (buffer_alter Clear w (set_userEvents (delete i (userEvents a)) a)).
    - exact Hw.
    - rewrite Hv. reflexivity. }
  destruct Hb as [Hb1 Hb2].
  repeat split; try assumption.
Qed.

(** What delivering [UPrint p text] does, up to the redraw. *)
Lemma deliver_UPrint (i p : nat) (text : string) (w : View) (a : App) :
  userEvents a !! i = Some (UPrint p text) ->
  views a !! "command" = Some w ->
  let h := handle (UserEvent i) a in
  snd h = Ok tt /\
  starts (fst h) = starts a /\ procs (fst h) = procs a /\
  userEvents (fst h) = delete i (userEvents a) /\
  buffer "command" (fst h) = buf w +:+ text +:+ String LF EmptyString /\
  is_Some (views (fst h) !! "command").
Proof.
  intros Hi Hw h. subst h. rewrite (handle_UserEvent i _ a Hi).
  cbn [run_update]. unfold modView. cbn [fst snd].
  destruct (buffer_alter (Write (text +:+ String LF EmptyString)) w
              (set_userEvents (delete i (userEvents a)) a)
              (set_views
                 (alter (Write (text +:+ String LF EmptyString)) "command"
                    (views a))
                 (set_userEvents (delete i (userEvents a)) a)) Hw eq_refl)
    as [Hb Hc].
  repeat split; assumption.
Qed.

(** C1, as the code has it: starting an execution empties the buffer of
    the command view, and every update that carries a line appends it to
    that buffer, whichever process the line came from; the updates carry
    no generation and none is dropped. *)
Theorem updates_carry_no_generation (a a' : App) (i : nat) :
  is_Some (views a !! "command") ->
  step (UserEvent i) a = Running a' ->
  (forall line,
      userEvents a !! i = Some (UExec line) ->
      buffer "command" a' = EmptyString /\
      length (procs a') = S (length (procs a))) /\
  (forall p text,
      userEvents a !! i = Some (UPrint p text) ->
      buffer "command" a'
      = buffer "command" a +:+ text +:+ String LF EmptyString /\
      procs a' = procs a).
Proof.
  intros [w Hw] Hstep. split.
  - intros line Hi. rewrite (step_UserEvent i _ a Hi) in Hstep.
    apply iteration_Running in Hstep. destruct Hstep as [Hh Hcalm].
    destruct (deliver_UExec i line w a Hi Hw) as (_ & Hb & Hc & Hr).
    destruct (calm_buffer _ _ Hcalm Hc) as [Hbuf _].
    destruct Hcalm as [(_ & Hp & _) _].
    rewrite Hbuf, Hb, Hp. split; [reflexivity|].
    destruct (os _ _).
    + destruct Hr as [Hr _]. rewrite Hh in Hr. discriminate.
    + destruct Hr as [Hr _]. rewrite Hh in Hr. discriminate.
    + destruct Hr as (_ & -> & _). rewrite length_app. cbn. lia.
  - intros p text Hi. rewrite (step_UserEvent i _ a Hi) in Hstep.
    apply iteration_Running in Hstep. destruct Hstep as [_ Hcalm].
    destruct (deliver_UPrint i p text w a Hi Hw) as (_ & _ & Hp & _ & Hb & Hc).
    destruct (calm_buffer _ _ Hcalm Hc) as [Hbuf _].
    destruct Hcalm as [(_ & Hp' & _) _].
    rewrite Hbuf, Hb, Hp', Hp. unfold buffer at 1. rewrite Hw. auto.
Qed.

(** C2, as the code has it: when [cmd.Start] fails, the update returns the
    error; nothing is written to the command view, which was just cleared;
    the main loop returns that error and [main] panics with it. *)
Theorem Start_failure_ends_program (a : App) (i : nat) (line msg : string) :
  userEvents a !! i = Some (UExec line) ->
  is_Some (views a !! "command") ->
  os (length (starts a)) ["make"; line] = StartFailed msg ->
  exists a',
    step (UserEvent i) a = Returned (Err msg) a' /\
    buffer "command" a' = EmptyString /\
    main_exit (Err msg) = Panics (Err msg).
Proof.
  intros Hi [w Hw] Hos. rewrite (step_UserEvent i _ a Hi).
  destruct (deliver_UExec i line w a Hi Hw) as (_ & Hb & _ & Hr).
  rewrite Hos in Hr. destruct Hr as [Hr _].
  unfold Main.iteration, bind.
  destruct (handle (UserEvent i) a) as [a1 r]. cbn [fst snd] in *. subst r.
  exists a1. repeat split. exact Hb.
Qed.

(** *** Calls of [cmd.Start] *)

Lemma run_update_starts (u : update) (b : App) :
  (forall l, u <> UExec l) -> starts (fst (run_update os u b)) = starts b.
Proof.
  intros Hu. destruct u as [l|p text]; [destruct (Hu l); reflexivity|].
  reflexivity.
Qed.

Lemma handle_starts (ev : event) (b : App) :
  (forall i l, ev = UserEvent i -> userEvents b !! i <> Some (UExec l)) ->
  starts (fst (handle ev b)) = starts b.
Proof.
  intros Hev. destruct ev; cbn [Main.handle]; try reflexivity.
  - unfold cursorDown, on_current. destruct (currentView b); reflexivity.
  - unfold cursorUp, on_current. destruct (currentView b); reflexivity.
  - unfold executeCommand. destruct (current b) as [v|]; [|reflexivity].
    destruct (Line v (Cursor_y v)) as [l [e|]]; reflexivity.
  - destruct (userEvents b !! i) as [u|] eqn:E; [|reflexivity].
    rewrite run_update_starts; [reflexivity|].
    intros l ->. exact (Hev i l eq_refl E).
Qed.

Lemma iteration_starts (ev : event) (b : App) :
  starts (state_of (iteration ev b)) = starts (fst (handle ev b)).
Proof.
  destruct (iteration_handle ev b) as [[(_ & _ & Hs) _] _]. exact Hs.
Qed.

Lemma pump_starts (p : nat) (b : App) : starts (pump p b) = starts b.
Proof.
  unfold pump. destruct (procs b !! p) as [pr|]; [|reflexivity].
  destruct (script pr); reflexivity.
Qed.

Lemma step_starts (ev : event) (b : App) :
  (forall i l, ev = UserEvent i -> userEvents b !! i <> Some (UExec l)) ->
  starts (state_of (step ev b)) = starts b.
Proof.
  intros Hev. destruct ev; cbn [Main.step];
    try (rewrite iteration_starts; apply handle_starts; assumption).
  - destruct (userEvents b !! i); [|reflexivity].
    rewrite iteration_starts. apply handle_starts. assumption.
  - apply pump_starts.
Qed.

(** *** The first render pass *)

Lemma hoare_bind {A B : Type} (P Q R : App -> Prop) (m : M A) (k : A -> M B) :
  hoare P m Q -> (forall x, hoare Q (k x) R) -> hoare P (bind m k) R.
Proof.
  intros Hm Hk a a' y HP H. unfold bind in H.
  destruct (m a) as [a1 [x|e]] eqn:E; [|discriminate].
  eapply Hk; [|exact H]. eapply Hm; eassumption.
Qed.

Lemma hoare_ret {A : Type} (P : App -> Prop) (x : A) : hoare P (ret x) P.
Proof. intros a a' y HP H. inversion H; subst. exact HP. Qed.

Lemma hoare_getView (P : App -> Prop) (name : string) : hoare P (getView name) P.
Proof.
  intros a a' y HP H. unfold getView in H.
  destruct (views a !! name); inversion H; subst. exact HP.
Qed.

Lemma hoare_sidebar_here (s : string) (f : View -> View) :
  hoare (sidebar_is s) (modView "Sidebar" f)
        (fun a => exists v, sidebar_is (buf (f v)) a /\ buf v = s).
Proof.
  intros a a' y (v & Hv & Hs) H. inversion H; subst.
  exists v. split; [|reflexivity]. exists (f v). split; [|reflexivity].
  cbn [views set_views]. rewrite lookup_alter_eq, Hv. reflexivity.
Qed.

Lemma hoare_sidebar_same (s : string) (f : View -> View) :
  (forall v, buf (f v) = buf v) ->
  hoare (sidebar_is s) (modView "Sidebar" f) (sidebar_is s).
Proof.
  intros Hf a a' y HP H. destruct (hoare_sidebar_here s f a a' y HP H)
    as (v & (v' & Hv' & Hb) & Hs).
  exists v'. split; [assumption|]. rewrite Hb, Hf. exact Hs.
Qed.

Lemma hoare_sidebar_other (s name : string) (f : View -> View) :
  name <> "Sidebar" -> hoare (sidebar_is s) (modView name f) (sidebar_is s).
Proof.
  intros Hn a a' y (v & Hv & Hs) H. inversion H; subst.
  exists v. split; [|reflexivity]. cbn [views set_views].
  rewrite lookup_alter_ne by assumption. exact Hv.
Qed.

Lemma hoare_SetCurrentView (s name : string) :
  hoare (sidebar_is s) (SetCurrentView name) (sidebar_is s).
Proof.
  intros a a' y HP H. unfold SetCurrentView in H.
  destruct (views a !! name); inversion H; subst. exact HP.
Qed.

Lemma append_cons (c : ascii) (s1 s2 : string) :
  String c s1 +:+ s2 = String c (s1 +:+ s2).
Proof. reflexivity. Qed.

Lemma append_assoc (s1 s2 s3 : string) : (s1 +:+ s2) +:+ s3 = s1 +:+ (s2 +:+ s3).
Proof.
  induction s1 as [|c s1 IH]; [reflexivity|].
  rewrite !append_cons, IH. reflexivity.
Qed.

Lemma append_empty (s : string) : s +:+ EmptyString = s.
Proof.
  induction s as [|c s IH]; [reflexivity|].
  rewrite append_cons, IH. reflexivity.
Qed.

Lemma println_all_cons (l : string) (ls : list string) :
  println_all (l :: ls) = l +:+ String LF (println_all ls).
Proof. reflexivity. Qed.



Lemma hoare_print_targets (ks : list string) (s : string) :
  hoare (sidebar_is s) (print_targets ks) (sidebar_is (s +:+ println_all ks)).
Proof.
  revert s. induction ks as [|k ks IH]; intros s; cbn [print_targets].
  - cbn. rewrite append_empty. apply hoare_ret.
  - eapply hoare_bind; [apply hoare_sidebar_here|].
    intros _ a a' y (v & Hv & <-) H.
    rewrite println_all_cons.
    replace (buf v +:+ k +:+ String LF (println_all ks))
      with ((buf v +:+ k +:+ String LF EmptyString) +:+ println_all ks).
    + eapply IH; [|exact H]. exact Hv.
    + rewrite !append_assoc. reflexivity.
Qed.

Lemma hoare_initViews (ks : list string) (s : string) :
  hoare (sidebar_is s) (initViews ks) (sidebar_is (s +:+ println_all ks)).
Proof.
  unfold initViews.
  eapply hoare_bind; [apply hoare_getView|]. intros _.
  do 4 (eapply hoare_bind; [apply hoare_sidebar_same; reflexivity|]; intros _).
  eapply hoare_bind; [apply hoare_print_targets|]. intros _.
  eapply hoare_bind; [apply hoare_SetCurrentView|]. intros _.
  eapply hoare_bind; [apply hoare_getView|]. intros _.
  eapply hoare_bind; [apply hoare_sidebar_other; discriminate|]. intros _.
  apply hoare_sidebar_other; discriminate.
Qed.

(** After the layout of the first pass the sidebar is new and empty. *)
Lemma first_layout_sidebar (w h : Z) (a : App) :
  GridLayout grid (boot w h) = (a, Ok tt) ->
  sidebar_is EmptyString a /\ started a = false.
Proof.
  intros H. rewrite LayoutFacts.GridLayout_unfold in H.
  apply LayoutFacts.GridLayout_loop_Ok in H. subst a. split; [|reflexivity].
  unfold sidebar_is. cbn [views set_views boot maxX maxY].
  set (u := unit_of w). set (v := unit_of h).
  pose proof (LayoutFacts.foldl_place_lookup u v grid ∅ "Sidebar") as Hl.
  cbn [last_rect grid Name] in Hl.
  change (String.eqb "help" "Sidebar") with false in Hl.
  change (String.eqb "command" "Sidebar") with false in Hl.
  change (String.eqb "Sidebar" "Sidebar") with true in Hl.
  cbv iota in Hl.
  destruct (section_rect u v (mkCell "Sidebar" 3 10 0 0)) as [[[p q] r] s].
  eexists. split; [exact Hl | reflexivity].
Qed.

(** C3, as the code has it: the first render pass prints every key of the
    catalog once into the sidebar, one per line, in the order in which the
    range over the map yields them in this run; the catalog does not fix
    that order. *)
Theorem sidebar_lists_keys_in_range_order (w h : Z) (a : App) :
  range_order targetsMap keys ->
  MainLoop targetsMap keys os w h [] = Running a ->
  buffer "Sidebar" a = println_all keys /\
  NoDup keys /\
  (forall k, k ∈ keys <-> is_Some (targetsMap !! k)).
Proof.
  intros Hperm H. split; [|split].
  - unfold MainLoop, Main.manager, bind in H.
    destruct (GridLayout grid (boot w h)) as [a1 [[]|e]] eqn:E.
    + apply first_layout_sidebar in E. destruct E as [Hs Hst].
      rewrite Hst in H. cbn [negb] in H.
      destruct (initViews keys (set_started true a1)) as [a2 [[]|e]] eqn:E2;
        [|discriminate].
      cbn [Main.run] in H. inversion H; subst a2.
      destruct (hoare_initViews keys EmptyString (set_started true a1) _ _ Hs E2)
        as (v & Hv & Hb).
      unfold buffer. rewrite Hv. exact Hb.
    + discriminate.
  - unfold range_order in Hperm. rewrite Hperm. apply NoDup_fst_map_to_list.
  - intros k. unfold range_order in Hperm. rewrite Hperm.
    rewrite list_elem_of_fmap. split.
    + intros ([k' d] & -> & Hin). apply elem_of_map_to_list in Hin. cbn. eauto.
    + intros [d Hd]. exists (k, d). split; [reflexivity|].
      apply elem_of_map_to_list. exact Hd.
Qed.

(** *** A single execution *)











(** *** The current view *)

Lemma handle_focus (ev : event) (a : App) : same_focus a (fst (handle ev a)).
Proof.
  destruct ev as [| | | |w h|i|p]; cbn [Main.handle].
  - unfold cursorDown, on_current. destruct (currentView a); split; reflexivity.
  - unfold cursorUp, on_current. destruct (currentView a); split; reflexivity.
  - unfold executeCommand. destruct (current a) as [v|]; [|split; reflexivity].
    destruct (Line v (Cursor_y v)) as [l [e|]]; split; reflexivity.
  - split; reflexivity.
  - split; reflexivity.
  - destruct (userEvents a !! i) as [[l|q text]|]; [| |split; reflexivity].
    + cbn [run_update]. unfold bind, getView. cbn [views set_userEvents].
      destruct (views a !! "command"); [|split; reflexivity].
      unfold modView, Start. destruct (os _ _); split; reflexivity.
    + split; reflexivity.
  - split; reflexivity.
Qed.

Lemma iteration_focused (ev : event) (a : App) :
  focused a -> focused (state_of (iteration ev a)).
Proof.
  intros Hf. pose proof (handle_focus ev a) as [Hc Hs].
  assert (Hf1 : focused (fst (handle ev a)))
    by (destruct Hf; split; congruence).
  unfold Main.iteration, bind. destruct (handle ev a) as [a1 [[]|e]]; cbn [fst] in Hf1.
  - destruct (manager a1) as [a2 r] eqn:E.
    pose proof (manager_focused _ _ _ _ _ Hf1 E) as Hf2.
    destruct r; exact Hf2.
  - exact Hf1.
Qed.

Lemma step_focused (ev : event) (a : App) :
  focused a -> focused (state_of (step ev a)).
Proof.
  intros Hf. destruct ev; cbn [Main.step]; try (apply iteration_focused; exact Hf).
  - destruct (userEvents a !! i); [apply iteration_focused|]; exact Hf.
  - cbn [state_of]. unfold pump. destruct (procs a !! p) as [pr|]; [|exact Hf].
    destruct (script pr); exact Hf.
Qed.

Lemma run_focused (evs : list event) (a : App) :
  focused a -> focused (state_of (run evs a)).
Proof.
  revert a. induction evs as [|ev evs IH]; intros a Hf; cbn [Main.run]; [exact Hf|].
  pose proof (step_focused ev a Hf) as H. destruct (step ev a) as [a1|e a1].
  - apply IH. exact H.
  - exact H.
Qed.

Lemma hoare_modView_views (P : App -> Prop) (name : string) (f : View -> View) :
  (forall a vs, P a -> P (set_views vs a)) -> hoare P (modView name f) P.
Proof. intros HP a a' y Ha H. inversion H; subst. apply HP, Ha. Qed.

Lemma hoare_print_targets_views (P : App -> Prop) (ks : list string) :
  (forall a vs, P a -> P (set_views vs a)) -> hoare P (print_targets ks) P.
Proof.
  intros HP. induction ks as [|k ks IH]; cbn [print_targets].
  - apply hoare_ret.
  - eapply hoare_bind; [apply hoare_modView_views, HP | intros _; exact IH].
Qed.

Lemma initViews_focused (ks : list string) :
  hoare (fun a => started a = true) (initViews ks) focused.
Proof.
  unfold initViews.
  eapply hoare_bind; [apply hoare_getView|]. intros _.
  do 4 (eapply hoare_bind; [apply hoare_modView_views; auto|]; intros _).
  eapply hoare_bind; [apply hoare_print_targets_views; auto|]. intros _.
  eapply hoare_bind with (Q := focused).
  - intros a a' y Ha H. unfold SetCurrentView in H.
    destruct (views a !! "Sidebar"); inversion H; subst. split; [reflexivity|exact Ha].
  - intros _. eapply hoare_bind; [apply hoare_getView|]. intros _.
    eapply hoare_bind; [apply hoare_modView_views; auto|]. intros _.
    apply hoare_modView_views; auto.
Qed.

(** From the first render pass on, the sidebar is the current view, so the
    view a key handler gets is the selection view. *)
Lemma sidebar_stays_current (w h : Z) (evs : list event) (a : App) :
  MainLoop targetsMap keys os w h evs = Running a ->
  currentView a = Some "Sidebar".
Proof.
  unfold MainLoop. destruct (Main.manager targetsMap keys (boot w h)) as [a1 [[]|e]] eqn:E;
    [|discriminate].
  intros H. assert (Hf : focused a1).
  { unfold Main.manager, bind in E.
    destruct (GridLayout grid (boot w h)) as [a0 [[]|e]] eqn:E0; [|discriminate].
    apply focus_GridLayout in E0. destruct E0 as [_ Hs0]. cbn [started boot] in Hs0.
    rewrite Hs0 in E. cbn [negb] in E.
    eapply initViews_focused; [|exact E]. reflexivity. }
  pose proof (run_focused evs a1 Hf) as Hr. rewrite H in Hr. apply Hr.
Qed.

End Loop.

Import Scenario.

Lemma wrap_flag_monotone_witness :
  wrap_of "help"
    (state_of (run two_targets order_bt os_two_runs [KeyArrowDown; KeyArrowDown]
                 (state_of (run two_targets order_bt os_two_runs [KeyArrowUp]
                              (ready os_two_runs)))))
  = true.
Proof.
  apply (proj2 (wrap_flag_monotone two_targets order_bt os_two_runs
                  [KeyArrowDown; KeyArrowDown] _)).
  vm_compute. reflexivity.
Defined.

(** C1, as stated, fails: the second execution has emptied the command
    view while the first process had one more line to write; its
    goroutine reads that line afterwards, the loop receives the update,
    and the line stands in the buffer. *)
Lemma stale_line_reaches_buffer :
  let a1 := state_of (run two_targets order_bt os_two_runs overlap_start
                        (ready os_two_runs)) in
  let a2 := state_of (run two_targets order_bt os_two_runs overlap_late a1) in
  run two_targets order_bt os_two_runs overlap_start (ready os_two_runs)
  = Running a1 /\
  procs a1 = [mkProc ["make"; "build"] ["a2"];
              mkProc ["make"; "build"] ["b1"]] /\
  buffer "command" a1 = EmptyString /\
  run two_targets order_bt os_two_runs overlap_late a1 = Running a2 /\
  buffer "command" a2 = println_all ["a2"].
Proof. vm_compute. repeat split. Qed.

Lemma updates_carry_no_generation_witness :
  let a1 := state_of (run two_targets order_bt os_two_runs
                        (overlap_start ++ [PumpRead 0]) (ready os_two_runs)) in
  let a2 := state_of (step two_targets order_bt os_two_runs (UserEvent 0) a1) in
  buffer "command" a2
  = buffer "command" a1 +:+ "a2" +:+ String LF EmptyString /\
  procs a2 = procs a1.
Proof.
  intros a1 a2.
  apply (proj2 (updates_carry_no_generation two_targets order_bt os_two_runs
                  a1 a2 0
                  ltac:(vm_compute; eexists; reflexivity)
                  ltac:(vm_compute; reflexivity)) 0%nat "a2").
  vm_compute. reflexivity.
Defined.

(** C2, as stated, fails: without [make] the update returns the error of
    [cmd.Start], the loop returns it, [main] panics, and the command view
    holds no line. *)
Lemma spawn_failure_stops_loop :
  exists a,
    run two_targets order_bt os_no_make [KeyEnter; UserEvent 0] (ready os_no_make)
    = Returned (Err "exec: make: executable file not found in $PATH") a /\
    buffer "command" a = EmptyString /\
    main_exit (Err "exec: make: executable file not found in $PATH")
    = Panics (Err "exec: make: executable file not found in $PATH").
Proof. eexists. vm_compute. repeat split. Qed.

Lemma Start_failure_ends_program_witness :
  exists a',
    step two_targets order_bt os_no_make (UserEvent 0)
      (state_of (step two_targets order_bt os_no_make KeyEnter (ready os_no_make)))
    = Returned (Err "exec: make: executable file not found in $PATH") a' /\
    buffer "command" a' = EmptyString /\
    main_exit (Err "exec: make: executable file not found in $PATH")
    = Panics (Err "exec: make: executable file not found in $PATH").
Proof.
  apply (Start_failure_ends_program two_targets order_bt os_no_make _ 0 "build").
  - vm_compute. reflexivity.
  - vm_compute. eexists. reflexivity.
  - vm_compute. reflexivity.
Defined.

(** The order of reception matters: the same execution with its two
    updates received the other way round prints the lines the other way
    round. *)
Example reception_order_is_print_order :
  buffer "command"
    (state_of (run two_targets order_bt os_two_runs (KeyEnter :: swapped_run)
                 (ready os_two_runs)))
  = println_all ["a2"; "a1"].
Proof. vm_compute. reflexivity. Qed.

(** C3, as stated, fails: the same catalog, ranged over in its two possible
    orders, gives two different sidebars, and one of them is not sorted. *)
Lemma range_order_decides_sidebar :
  range_order two_targets order_bt /\
  range_order two_targets order_tb /\
  buffer "Sidebar"
    (state_of (MainLoop two_targets order_bt os_two_runs 80 24 []))
  = println_all ["build"; "test"] /\
  buffer "Sidebar"
    (state_of (MainLoop two_targets order_tb os_two_runs 80 24 []))
  = println_all ["test"; "build"] /\
  println_all ["build"; "test"] <> println_all ["test"; "build"] /\
  String.leb "test" "build" = false.
Proof.
  split; [|split; [|split; [|split; [|split]]]].
  - unfold range_order. vm_compute. first [reflexivity | apply perm_swap].
  - unfold range_order. vm_compute. first [reflexivity | apply perm_swap].
  - vm_compute. reflexivity.
  - vm_compute. reflexivity.
  - vm_compute. discriminate.
  - vm_compute. reflexivity.
Qed.

Lemma sidebar_lists_keys_in_range_order_witness :
  buffer "Sidebar"
    (state_of (MainLoop two_targets order_tb os_two_runs 80 24 []))
  = println_all order_tb /\
  NoDup order_tb /\
  (forall k, k ∈ order_tb <-> is_Some (two_targets !! k)).
Proof.
  apply (sidebar_lists_keys_in_range_order two_targets order_tb os_two_runs 80 24).
  - unfold range_order. vm_compute. first [reflexivity | apply perm_swap].
  - vm_compute. reflexivity.
Defined.

End LoopFacts.

(** ** Errors of the loop *)

Module ErrorFacts.
Import GoStrings Bufio Float64 Gocui Main Terms.

Lemma cell_error_cases (u v : float64) (c : Cell) (e : error) :
  cell_error u v c = Some e ->
  e = Err "invalid dimensions" \/
  (e = Err "invalid name" /\ Name c = EmptyString).
Proof.
  unfold cell_error. destruct (section_rect u v c) as [[[p q] r] s].
  destruct (_ || _).
  - intros H. inversion H. auto.
  - destruct (String.eqb_spec (Name c) EmptyString) as [E|E]; [|discriminate].
    intros H. inversion H. auto.
Qed.

(** A layout that fails was refused one of its cells. *)
Lemma GridLayout_loop_refused (u v : float64) (g : list Cell) (a a' : App)
      (e : error) :
  GridLayout_loop u v g a = (a', Fail e) ->
  exists c, c ∈ g /\ cell_error u v c = Some e.
Proof.
  revert a. induction g as [|c g IH]; intros a H; [discriminate|].
  rewrite LayoutFacts.GridLayout_loop_cons in H.
  destruct (cell_error u v c) as [e'|] eqn:E.
  - inversion H; subst. exists c. split; [left | assumption].
  - apply IH in H. destruct H as (c' & Hin & Hc). exists c'.
    split; [right; assumption | assumption].
Qed.

Lemma grid_refused (u v : float64) (c : Cell) (e : error) :
  c ∈ grid -> cell_error u v c = Some e -> e = Err "invalid dimensions".
Proof.
  intros Hin H. apply cell_error_cases in H. destruct H as [H|[_ Hn]]; [exact H|].
  unfold grid in Hin. rewrite !elem_of_cons, elem_of_nil in Hin.
  destruct Hin as [->|[->|[->|[]]]]; discriminate.
Qed.

(** Views are never removed by a change of one of them. *)
Lemma has_views_alter (names : list string) (n : string) (f : View -> View)
      (a a' : App) :
  views a' = alter f n (views a) -> has_views names a -> has_views names a'.
Proof.
  intros Hv H. unfold has_views in *. eapply Forall_impl; [exact H|].
  intros k [w Hw]. rewrite Hv. destruct (decide (n = k)) as [->|Hne].
  - rewrite lookup_alter_eq, Hw. eexists; reflexivity.
  - rewrite lookup_alter_ne by assumption. eexists; eassumption.
Qed.

Lemma has_views_same (names : list string) (a a' : App) :
  views a' = views a -> has_views names a -> has_views names a'.
Proof. intros Hv H. unfold has_views in *. rewrite Hv. exact H. Qed.

Lemma sure_bind {A B : Type} (P : App -> Prop) (m : M A) (k : A -> M B) :
  sure P m -> (forall x, sure P (k x)) -> sure P (bind m k).
Proof.
  intros Hm Hk a Ha. destruct (Hm a Ha) as (a1 & x & E & Ha1).
  destruct (Hk x a1 Ha1) as (a2 & y & E2 & Ha2).
  exists a2, y. unfold bind. rewrite E. auto.
Qed.

Lemma sure_ret {A : Type} (P : App -> Prop) (x : A) : sure P (ret x).
Proof. intros a Ha. exists a, x. auto. Qed.

Lemma sure_modView (names : list string) (n : string) (f : View -> View) :
  sure (has_views names) (modView n f).
Proof.
  intros a Ha. eexists _, tt. split; [reflexivity|].
  eapply has_views_alter; [|exact Ha]. reflexivity.
Qed.

Lemma sure_getView (names : list string) (n : string) :
  n ∈ names -> sure (has_views names) (getView n).
Proof.
  intros Hin a Ha. unfold has_views in Ha. rewrite Forall_forall in Ha.
  destruct (Ha n Hin) as [w Hw]. exists a, w. unfold getView. rewrite Hw.
  split; [reflexivity|]. apply Forall_forall. exact Ha.
Qed.

Lemma sure_SetCurrentView (names : list string) (n : string) :
  n ∈ names -> sure (has_views names) (SetCurrentView n).
Proof.
  intros Hin a Ha. pose proof Ha as Ha'. unfold has_views in Ha.
  rewrite Forall_forall in Ha.
  destruct (Ha n Hin) as [w Hw]. eexists _, tt. unfold SetCurrentView. rewrite Hw.
  split; [reflexivity|]. eapply has_views_same; [|exact Ha']. reflexivity.
Qed.

Lemma sure_print_targets (names ks : list string) :
  sure (has_views names) (print_targets ks).
Proof.
  induction ks as [|k ks IH]; cbn [print_targets].
  - apply sure_ret.
  - apply sure_bind; [apply sure_modView | intros _; exact IH].
Qed.

Lemma in_three (n : string) :
  n = "Sidebar" \/ n = "command" \/ n = "help" -> n ∈ three.
Proof. unfold three. rewrite !elem_of_cons. tauto. Qed.

Ltac sure_step :=
  first
    [ apply sure_ret
    | apply sure_modView
    | apply sure_print_targets
    | apply sure_getView; apply in_three; tauto
    | apply sure_SetCurrentView; apply in_three; tauto
    | apply sure_bind; [|intros ?] ].

Lemma sure_initViews (ks : list string) : sure (has_views three) (initViews ks).
Proof. unfold initViews. repeat sure_step. Qed.

Lemma sure_updateViews (tm : gmap string string) :
  sure (has_views three) (updateViews tm).
Proof.
  unfold updateViews. repeat sure_step. destruct (negb _); sure_step.
Qed.

(** After a layout that succeeds every cell of the grid has its view. *)
Lemma last_rect_member (u v : float64) (g : list Cell) (c : Cell) :
  c ∈ g -> is_Some (last_rect u v g (Name c)).
Proof.
  induction g as [|c0 g IH]; intros Hin; [inversion Hin|].
  cbn [last_rect]. apply elem_of_cons in Hin.
  destruct (last_rect u v g (Name c)) as [r|] eqn:E; [eexists; reflexivity|].
  destruct Hin as [->|Hin].
  - rewrite String.eqb_refl. eexists; reflexivity.
  - destruct (IH Hin) as [r Hr]. discriminate.
Qed.

Lemma GridLayout_Ok_has_views (g : list Cell) (a a' : App) (x : unit) :
  GridLayout g a = (a', Ok x) -> has_views (map Name g) a'.
Proof.
  rewrite LayoutFacts.GridLayout_unfold. intros H.
  apply LayoutFacts.GridLayout_loop_Ok in H. subst a'.
  unfold has_views. apply Forall_forall. intros n Hn.
  apply list_elem_of_fmap in Hn. destruct Hn as (c & -> & Hc).
  cbn [views set_views]. rewrite LayoutFacts.foldl_place_lookup.
  destruct (last_rect_member (unit_of (maxX a)) (unit_of (maxY a)) g c Hc) as [r ->].
  eexists; reflexivity.
Qed.

Section Errors.

Variable targetsMap : gmap string string.
Variable keys : list string.
Variable os : nat -> list string -> start_result.


Lemma Line_error (v : View) (y : Z) (e : error) :
  snd (Line v y) = Some e -> e = Err "invalid point".
Proof.
  unfold Line. destruct (_ <? 0); [intros H; inversion H; reflexivity|].
  destruct (_ !! _); intros H; inversion H. reflexivity.
Qed.

(** After a layout that succeeded the rest of a redraw succeeds. *)
Lemma manager_fails_in_layout (a a' : App) (e : error) :
  manager targetsMap keys a = (a', Fail e) ->
  GridLayout grid a = (a', Fail e).
Proof.
  unfold manager, bind. destruct (GridLayout grid a) as [a1 [[]|e1]] eqn:E.
  - pose proof (GridLayout_Ok_has_views _ _ _ _ E) as Hv.
    change (map Name grid) with three in Hv.
    destruct (negb (started a1)).
    + assert (Hv' : has_views three (set_started true a1))
        by (eapply has_views_same; [|exact Hv]; reflexivity).
      destruct (sure_initViews keys _ Hv') as (a2 & x & -> & _). discriminate.
    + destruct (sure_updateViews targetsMap _ Hv) as (a2 & x & -> & _). discriminate.
  - intros H. exact H.
Qed.

Lemma handle_error (ev : event) (a a' : App) (e : error) :
  handle os ev a = (a', Fail e) -> ev = KeyCtrlC \/ e <> ErrQuit.
Proof.
  destruct ev as [| | | |w h|i|p]; cbn [handle]; intros H;
    [right|right|right|left; reflexivity|right|right|right].
  - unfold cursorDown, on_current in H. destruct (currentView a); inversion H.
    discriminate.
  - unfold cursorUp, on_current in H. destruct (currentView a); inversion H.
    discriminate.
  - unfold executeCommand in H. destruct (current a) as [v|].
    + destruct (Line v (Cursor_y v)) as [l [e'|]] eqn:E; inversion H; subst.
      rewrite (Line_error v (Cursor_y v) e); [discriminate|].
      rewrite E. reflexivity.
    + inversion H. discriminate.
  - inversion H.
  - destruct (userEvents a !! i) as [[line|q text]|]; [| |inversion H].
    + unfold run_update, bind, getView in H. cbn [views set_userEvents] in H.
      destruct (views a !! "command"); [|inversion H; discriminate].
      unfold modView, Start in H.
      destruct (os _ _); inversion H; discriminate.
    + inversion H.
  - inversion H.
Qed.

Lemma iteration_error (ev : event) (a a' : App) (e : error) :
  iteration targetsMap keys os ev a = Returned e a' ->
  ev = KeyCtrlC \/ e <> ErrQuit.
Proof.
  unfold iteration, bind.
  destruct (handle os ev a) as [a1 [[]|e1]] eqn:E.
  - destruct (manager targetsMap keys a1) as [a2 [[]|e2]] eqn:E2; [discriminate|].
    intros H. inversion H; subst. apply manager_fails_in_layout in E2.
    rewrite LayoutFacts.GridLayout_unfold in E2.
    apply GridLayout_loop_refused in E2. destruct E2 as (c & Hin & Hc).
    rewrite (grid_refused _ _ c e Hin Hc). right. discriminate.
  - intros H. inversion H; subst. eapply handle_error. exact E.
Qed.

(** X1: Ctrl-C is the one way to leave the program quietly: it makes the loop
    return [ErrQuit] at once, with nothing changed, and [main] returns;
    every other event that makes the loop return does so with an error
    that [main] hands to [log.Panicln]. *)
Theorem only_ctrl_c_exits_quietly (a : App) :
  step targetsMap keys os KeyCtrlC a = Returned ErrQuit a /\
  main_exit ErrQuit = Exits /\
  forall ev e a',
    ev <> KeyCtrlC ->
    step targetsMap keys os ev a = Returned e a' ->
    main_exit e = Panics e.
Proof.
  split; [reflexivity|]. split; [reflexivity|].
  intros ev e a' Hne H.
  assert (He : e <> ErrQuit).
  { destruct ev as [| | | |w h|i|p]; cbn [step] in H;
      try (apply iteration_error in H; destruct H as [H|H]; [congruence|exact H]).
    - destruct (userEvents a !! i); [|discriminate].
      apply iteration_error in H. destruct H as [H|H]; [congruence|exact H].
    - discriminate. }
  unfold main_exit. destruct e; try reflexivity. congruence.
Qed.

(** X2: the only error of a redraw is the refusal of a rectangle: on a
    terminal too small for one of the three views the manager function
    returns "invalid dimensions", and it returns no other error, in the
    first pass or later. *)
Theorem redraw_fails_on_size_only (a a' : App) (e : error) :
  manager targetsMap keys a = (a', Fail e) ->
  e = Err "invalid dimensions" /\
  exists c, c ∈ grid /\
            cell_error (unit_of (maxX a)) (unit_of (maxY a)) c = Some e.
Proof.
  intros H. apply manager_fails_in_layout in H.
  rewrite LayoutFacts.GridLayout_unfold in H.
  apply GridLayout_loop_refused in H. destruct H as (c & Hin & Hc).
  split; [eapply grid_refused; eassumption|]. exists c. auto.
Qed.

End Errors.

End ErrorFacts.

(** ** What a session keeps *)

Module SessionFacts.
Import GoStrings Bufio Float64 Gocui Main Terms FrameFacts.

Section Keeping.

(** A relation between the views of two states that every function of
    the loop but [initViews] respects. *)
Variable P : string -> View -> View -> Prop.
Hypothesis P_refl : forall n w, P n w w.
Hypothesis P_trans : forall n w1 w2 w3, P n w1 w2 -> P n w2 w3 -> P n w1 w3.
Hypothesis P_rect : forall n q w, P n w (with_rect q w).
Hypothesis P_move : forall n d w, P n w (MoveCursor d w).
Hypothesis P_wrap : forall n b w, P n w (set_Wrap b w).
Hypothesis P_clear : forall n w, n <> "Sidebar" -> P n w (Clear w).
Hypothesis P_write : forall n s w, n <> "Sidebar" -> P n w (Write s w).

Lemma keeps_refl (a : App) : keeps P a a.
Proof. intros n w Hw. exists w. auto. Qed.

Lemma keeps_trans (a1 a2 a3 : App) : keeps P a1 a2 -> keeps P a2 a3 -> keeps P a1 a3.
Proof.
  intros H1 H2 n w Hw. destruct (H1 n w Hw) as (w2 & Hw2 & H12).
  destruct (H2 n w2 Hw2) as (w3 & Hw3 & H23). exists w3. eauto.
Qed.

Lemma keeps_views (a a' : App) : views a' = views a -> keeps P a a'.
Proof. intros E n w Hw. exists w. rewrite E. auto. Qed.

Lemma keeps_alter (n : string) (f : View -> View) (a a' : App) :
  (forall w, P n w (f w)) -> views a' = alter f n (views a) -> keeps P a a'.
Proof.
  intros Hf E k w Hw. rewrite E. destruct (decide (n = k)) as [->|Hne].
  - rewrite lookup_alter_eq, Hw. exists (f w). auto.
  - rewrite lookup_alter_ne by assumption. exists w. auto.
Qed.

Lemma kept_ret {A : Type} (x : A) : respects (keeps P) (ret x).
Proof. intros a a' r H. inversion H; subst. apply keeps_refl. Qed.

Lemma kept_bind {A B : Type} (m : M A) (k : A -> M B) :
  respects (keeps P) m -> (forall x, respects (keeps P) (k x)) ->
  respects (keeps P) (bind m k).
Proof.
  intros Hm Hk a a' r H. unfold bind in H.
  destruct (m a) as [a1 [x|e]] eqn:E.
  - eapply keeps_trans; [eapply Hm; eassumption | eapply Hk; eassumption].
  - inversion H; subst. eapply Hm; eassumption.
Qed.

Lemma kept_getView (name : string) : respects (keeps P) (getView name).
Proof.
  intros a a' r H. unfold getView in H.
  destruct (views a !! name); inversion H; subst; apply keeps_refl.
Qed.

Lemma kept_modView (name : string) (f : View -> View) :
  (forall w, P name w (f w)) -> respects (keeps P) (modView name f).
Proof.
  intros Hf a a' r H. inversion H; subst.
  eapply keeps_alter; [exact Hf | reflexivity].
Qed.

Lemma kept_GridLayout (g : list Cell) : respects (keeps P) (GridLayout g).
Proof.
  intros a a' r H. apply LayoutFacts.GridLayout_frame in H.
  destruct H as (_ & _ & _ & _ & _ & _ & _ & Hv).
  intros name w Hw. destruct (Hv name w Hw) as (q & Hq).
  eexists. split; [exact Hq | apply P_rect].
Qed.

Lemma kept_updateViews (tm : gmap string string) :
  respects (keeps P) (updateViews tm).
Proof.
  unfold updateViews.
  apply kept_bind; [apply kept_getView | intros v].
  apply kept_bind; [apply kept_getView | intros _].
  apply kept_bind; [apply kept_modView; intros w; apply P_clear; discriminate | intros _].
  apply kept_bind; [apply kept_modView; intros w; apply P_write; discriminate | intros _].
  destruct (negb _); [apply kept_modView; intros w; apply P_wrap | apply kept_ret].
Qed.

Lemma kept_manager (tm : gmap string string) (ks : list string)
      (a a' : App) (r : res unit) :
  started a = true -> manager tm ks a = (a', r) -> keeps P a a'.
Proof.
  intros Hs H. unfold manager, bind in H.
  destruct (GridLayout grid a) as [a1 [[]|e]] eqn:E.
  - pose proof (focus_GridLayout _ _ _ _ E) as [_ Hs1].
    rewrite Hs1, Hs in H. cbn [negb] in H.
    eapply keeps_trans; [eapply kept_GridLayout; exact E|].
    eapply kept_updateViews; exact H.
  - inversion H; subst. eapply kept_GridLayout; exact E.
Qed.

Section Events.

Variable targetsMap : gmap string string.
Variable keys : list string.
Variable os : nat -> list string -> start_result.

Lemma kept_handle (ev : event) (a : App) : keeps P a (fst (handle os ev a)).
Proof.
  destruct ev as [| | | |w h|i|p]; cbn [handle].
  - unfold cursorDown, on_current. destruct (currentView a); [|apply keeps_refl].
    eapply keeps_alter; [intros w; apply P_move | reflexivity].
  - unfold cursorUp, on_current. destruct (currentView a); [|apply keeps_refl].
    eapply keeps_alter; [intros w; apply P_move | reflexivity].
  - unfold executeCommand. destruct (current a) as [v|]; [|apply keeps_refl].
    destruct (Line v (Cursor_y v)) as [l [e|]]; apply keeps_views; reflexivity.
  - apply keeps_refl.
  - apply keeps_views. reflexivity.
  - destruct (userEvents a !! i) as [[line|q text]|]; [| |apply keeps_refl].
    + unfold run_update, bind, getView. cbn [views set_userEvents].
      destruct (views a !! "command"); [|apply keeps_views; reflexivity].
      unfold modView.
      eapply keeps_alter; [intros w; apply (P_clear "command"); discriminate|].
      rewrite LoopFacts.Start_views. reflexivity.
    + eapply keeps_alter; [intros w; apply (P_write "command"); discriminate|].
      reflexivity.
  - apply keeps_refl.
Qed.

Lemma kept_iteration (ev : event) (a : App) :
  focused a -> keeps P a (state_of (iteration targetsMap keys os ev a)).
Proof.
  intros Hf. pose proof (kept_handle ev a) as Hh.
  pose proof (LoopFacts.handle_focus os ev a) as Hsf.
  unfold iteration, bind.
  destruct (handle os ev a) as [a1 [[]|e]] eqn:E; cbn [fst] in *.
  - destruct (manager targetsMap keys a1) as [a2 r] eqn:E2.
    assert (Hs1 : started a1 = true)
      by (destruct Hsf as [_ Hs]; destruct Hf as [_ Hs0]; congruence).
    pose proof (kept_manager _ _ _ _ _ Hs1 E2) as Hm.
    destruct r as [[]|e]; cbn [state_of]; eapply keeps_trans; eassumption.
  - exact Hh.
Qed.

Lemma kept_step (ev : event) (a : App) :
  focused a -> keeps P a (state_of (step targetsMap keys os ev a)).
Proof.
  intros Hf. destruct ev as [| | | |w h|i|p]; cbn [step];
    try (apply kept_iteration; exact Hf).
  - destruct (userEvents a !! i); [apply kept_iteration; exact Hf | apply keeps_refl].
  - cbn [state_of]. apply keeps_views. apply LoopFacts.pump_views.
Qed.

Lemma kept_run (evs : list event) (a : App) :
  focused a -> keeps P a (state_of (run targetsMap keys os evs a)).
Proof.
  revert a. induction evs as [|ev evs IH]; intros a Hf; cbn [run].
  - apply keeps_refl.
  - pose proof (kept_step ev a Hf) as Hk.
    pose proof (LoopFacts.step_focused targetsMap keys os ev a Hf) as Hf1.
    destruct (step targetsMap keys os ev a) as [a1|e a1]; cbn [state_of] in *.
    + eapply keeps_trans; [exact Hk | apply IH; exact Hf1].
    + exact Hk.
Qed.

End Events.

End Keeping.

(** *** The first pass *)

Lemma set_buf_same (v : View) : set_buf (buf v +:+ EmptyString) v = v.
Proof. rewrite LoopFacts.append_empty. destruct v; reflexivity. Qed.

(** The loop over the keys is one write of all the lines. *)
Lemma print_targets_eq (ks : list string) (a : App) :
  print_targets ks a
  = (set_views
       (alter (fun v => set_buf (buf v +:+ println_all ks) v) "Sidebar" (views a)) a,
     Ok tt).
Proof.
  revert a. induction ks as [|k ks IH]; intros a; cbn [print_targets].
  - unfold ret. f_equal. rewrite alter_id; [symmetry; apply LayoutFacts.App_eta|].
    intros v _. apply set_buf_same.
  - unfold bind, modView. rewrite IH. f_equal. cbn [views set_views].
    rewrite alter_alter_eq.
    replace (alter _ "Sidebar" (views a))
      with (alter (fun v => set_buf (buf v +:+ println_all (k :: ks)) v)
                  "Sidebar" (views a)); [destruct a; reflexivity|].
    apply alter_ext. intros v _. unfold compose, Write.
    rewrite LoopFacts.println_all_cons. destruct v; cbn.
    rewrite !LoopFacts.append_assoc, LoopFacts.append_cons. reflexivity.
Qed.

Lemma bind_getView {B : Type} (n : string) (k : View -> M B) (a : App) (v : View) :
  views a !! n = Some v -> bind (getView n) k a = k v a.
Proof. intros H. unfold bind, getView. rewrite H. reflexivity. Qed.

Lemma bind_modView {B : Type} (n : string) (f : View -> View) (k : unit -> M B)
      (a : App) :
  bind (modView n f) k a = k tt (set_views (alter f n (views a)) a).
Proof. reflexivity. Qed.

Lemma bind_print_targets {B : Type} (ks : list string) (k : unit -> M B) (a : App) :
  bind (print_targets ks) k a
  = k tt (set_views
            (alter (fun v => set_buf (buf v +:+ println_all ks) v) "Sidebar"
                   (views a)) a).
Proof. unfold bind. rewrite print_targets_eq. reflexivity. Qed.

Lemma bind_SetCurrentView {B : Type} (n : string) (k : unit -> M B) (a : App)
      (v : View) :
  views a !! n = Some v ->
  bind (SetCurrentView n) k a = k tt (set_currentView (Some n) a).
Proof. intros H. unfold bind, SetCurrentView. rewrite H. reflexivity. Qed.

Lemma initViews_views (ks : list string) (a : App) (s c : View) :
  views a !! "Sidebar" = Some s ->
  views a !! "command" = Some c ->
  exists a',
    initViews ks a = (a', Ok tt) /\
    views a' !! "Sidebar" = Some (sidebar_style ks s) /\
    views a' !! "command" = Some (command_style c) /\
    currentView a' = Some "Sidebar" /\
    started a' = started a.
Proof.
  intros Hs Hc. unfold initViews.
  rewrite (bind_getView _ _ _ _ Hs).
  rewrite !bind_modView, bind_print_targets. cbn [views set_views].
  erewrite bind_SetCurrentView;
    [|cbn [views set_views]; rewrite !lookup_alter_eq, Hs; reflexivity].
  erewrite bind_getView;
    [|cbn [views set_views set_currentView];
      rewrite !lookup_alter_ne by discriminate; exact Hc].
  rewrite bind_modView. unfold modView.
  eexists. split; [reflexivity|].
  cbn [views set_views set_currentView currentView started].
  split; [|split; [|split; reflexivity]].
  - rewrite !lookup_alter_ne by discriminate.
    rewrite !lookup_alter_eq, Hs. reflexivity.
  - rewrite !lookup_alter_eq. rewrite !lookup_alter_ne by discriminate.
    rewrite Hc. reflexivity.
Qed.

(** The state when the first render pass has succeeded. *)
Lemma first_pass (tm : gmap string string) (ks : list string) (w h : Z) (a : App) :
  manager tm ks (boot w h) = (a, Ok tt) ->
  focused a /\
  exists r r',
    views a !! "Sidebar"
    = Some (sidebar_style ks (with_rect r (set_Title "Sidebar" (newView 0 0 0 0)))) /\
    views a !! "command"
    = Some (command_style (with_rect r' (set_Title "command" (newView 0 0 0 0)))).
Proof.
  unfold manager, bind.
  destruct (GridLayout grid (boot w h)) as [a1 [[]|e]] eqn:E; [|discriminate].
  pose proof (focus_GridLayout _ _ _ _ E) as [_ Hst]. rewrite Hst. cbn [negb boot started].
  rewrite LayoutFacts.GridLayout_unfold in E.
  apply LayoutFacts.GridLayout_loop_Ok in E.
  assert (Hs : exists r, views a1 !! "Sidebar"
                = Some (with_rect r (set_Title "Sidebar" (newView 0 0 0 0)))).
  { subst a1. cbn [views set_views]. rewrite LayoutFacts.foldl_place_lookup.
    destruct (ErrorFacts.last_rect_member (unit_of (maxX (boot w h)))
                (unit_of (maxY (boot w h))) grid (mkCell "Sidebar" 3 10 0 0))
      as [r Hr]; [unfold grid; rewrite !elem_of_cons; auto|].
    cbn [Name] in Hr. rewrite Hr. exists r. reflexivity. }
  assert (Hc : exists r, views a1 !! "command"
                = Some (with_rect r (set_Title "command" (newView 0 0 0 0)))).
  { subst a1. cbn [views set_views]. rewrite LayoutFacts.foldl_place_lookup.
    destruct (ErrorFacts.last_rect_member (unit_of (maxX (boot w h)))
                (unit_of (maxY (boot w h))) grid (mkCell "command" 9 12 3 0))
      as [r Hr]; [unfold grid; rewrite !elem_of_cons; auto|].
    cbn [Name] in Hr. rewrite Hr. exists r. reflexivity. }
  destruct Hs as [r Hs], Hc as [r' Hc].
  destruct (initViews_views ks (set_started true a1) _ _ Hs Hc)
    as (a2 & E2 & Hs2 & Hc2 & Hcur & Hst2).
  rewrite E2. intros H. inversion H; subst a2.
  split; [split; [exact Hcur | rewrite Hst2; reflexivity]|].
  exists r, r'. auto.
Qed.

Lemma settled_refl (n : string) (w : View) : settled n w w.
Proof. repeat split; reflexivity. Qed.

Lemma settled_trans (n : string) (w1 w2 w3 : View) :
  settled n w1 w2 -> settled n w2 w3 -> settled n w1 w3.
Proof.
  intros (A1 & A2 & A3 & A4 & A5 & A6) (B1 & B2 & B3 & B4 & B5 & B6).
  repeat split; try congruence. intros Hn. rewrite (B6 Hn). auto.
Qed.

Lemma settled_rect (n : string) (q : Z * Z * Z * Z) (w : View) :
  settled n w (with_rect q w).
Proof. destruct q as [[[a b] c] d]. repeat split; reflexivity. Qed.

Lemma settled_move (n : string) (d : Z) (w : View) : settled n w (MoveCursor d w).
Proof. unfold MoveCursor. destruct (_ && _); repeat split; reflexivity. Qed.

Lemma settled_wrap (n : string) (b : bool) (w : View) : settled n w (set_Wrap b w).
Proof. repeat split; reflexivity. Qed.

Lemma settled_clear (n : string) (w : View) : n <> "Sidebar" -> settled n w (Clear w).
Proof. intros Hn. repeat split; try reflexivity. intros E. contradiction. Qed.

Lemma settled_write (n s : string) (w : View) :
  n <> "Sidebar" -> settled n w (Write s w).
Proof. intros Hn. repeat split; try reflexivity. intros E. contradiction. Qed.

Section Session.

Variable targetsMap : gmap string string.
Variable keys : list string.
Variable os : nat -> list string -> start_result.

(** X6: what the first pass sets up stays for the whole session.  Whatever
    happens afterwards, as long as the loop runs the sidebar holds the
    targets as they were printed once, one per line, under the title
    "Makefile Targets" with the highlight and its two colours, and the
    command view keeps its title "Command Output" and its autoscroll. *)
Theorem first_pass_setup_is_kept (w h : Z) (evs : list event) (a : App) :
  MainLoop targetsMap keys os w h evs = Running a ->
  view_has "Sidebar"
    (fun v => buf v = println_all keys /\ Title v = "Makefile Targets" /\
              Highlight v = true /\ SelBgColor v = ColorBlue /\
              SelFgColor v = ColorBlack) a /\
  view_has "command"
    (fun v => Title v = "Command Output" /\ Autoscroll v = true) a.
Proof.
  unfold MainLoop.
  destruct (manager targetsMap keys (boot w h)) as [a1 [[]|e]] eqn:E; [|discriminate].
  apply first_pass in E. destruct E as (Hf & r & r' & Hs & Hc).
  intros H.
  pose proof (kept_run settled settled_refl settled_trans settled_rect settled_move
                settled_wrap settled_clear settled_write targetsMap keys os evs a1 Hf)
    as Hk.
  rewrite H in Hk. cbn [state_of] in Hk.
  destruct (Hk _ _ Hs) as (s' & Hs' & S1 & S2 & S3 & S4 & _ & S6).
  destruct (Hk _ _ Hc) as (c' & Hc' & C1 & _ & _ & _ & C5 & _).
  split.
  - exists s'. split; [exact Hs'|]. rewrite S1, S2, S3, S4, (S6 eq_refl).
    destruct r as [[[p q] x] y]. repeat split; reflexivity.
  - exists c'. split; [exact Hc'|]. rewrite C1, C5.
    destruct r' as [[[p q] x] y]. split; reflexivity.
Qed.

End Session.

End SessionFacts.

(** ** The lines of a view *)

Module ViewFacts.
Import GoStrings Bufio Catalog Gocui Main Terms.

Lemma plain_byte_not_LF (c : ascii) : plain_byte c = true -> Ascii.eqb c LF = false.
Proof.
  intros H. destruct (Ascii.eqb_spec c LF) as [->|]; [discriminate | reflexivity].
Qed.

Lemma plain_byte_not_CR (c : ascii) : plain_byte c = true -> Ascii.eqb c CR = false.
Proof.
  intros H. destruct (Ascii.eqb_spec c CR) as [->|]; [discriminate | reflexivity].
Qed.

Lemma text_line_cons (c : ascii) (l : string) :
  text_line (String c l) = true <-> plain_byte c = true /\ text_line l = true.
Proof. unfold text_line. cbn [list_ascii_of_string forallb]. apply andb_true_iff. Qed.

Lemma default_Some (x : string) : default EmptyString (Some x) = x.
Proof. reflexivity. Qed.

(** A line feed written to a view without line opens one line, not two:
    the view then holds the text and the empty line after it. *)
Example line_feed_on_empty_view :
  buffer_lines (String LF ("x" +:+ Scenario.nl)) = ["x"; EmptyString].
Proof. reflexivity. Qed.

(** A carriage return empties the line it is written to: of a line sent
    with text before a carriage return the view keeps what follows it. *)
Example carriage_return_empties_line :
  buffer_lines ("ab" +:+ String CR ("cd" +:+ Scenario.nl)) = ["cd"; EmptyString].
Proof. reflexivity. Qed.

(** A view that was cleared has no line; a line of text and its line
    feed leave the line and an empty one. *)
Example lines_of_one_println :
  buffer_lines EmptyString = [] /\
  buffer_lines ("make" +:+ Scenario.nl) = ["make"; EmptyString].
Proof. split; reflexivity. Qed.

(** Text is added to the last line, which it makes if there is none. *)
Lemma write_text (c : ascii) (k s : string) (done : list string) (cur : option string) :
  text_line (String c k) = true ->
  write_bytes done cur (String c k +:+ s)
  = write_bytes done (Some (default EmptyString cur +:+ String c k)) s.
Proof.
  revert c cur. induction k as [|d k IH]; intros c cur H.
  - apply text_line_cons in H. destruct H as [Hc _].
    rewrite LoopFacts.append_cons. cbn [write_bytes].
    rewrite (plain_byte_not_LF c Hc), (plain_byte_not_CR c Hc). reflexivity.
  - apply text_line_cons in H. destruct H as [Hc Hk].
    rewrite LoopFacts.append_cons. cbn [write_bytes].
    rewrite (plain_byte_not_LF c Hc), (plain_byte_not_CR c Hc).
    rewrite (IH d _ Hk), default_Some.
    rewrite LoopFacts.append_assoc, LoopFacts.append_cons. reflexivity.
Qed.

(** A line of text and its line feed, after a line feed: the line is
    kept, and a new line is open. *)
Lemma write_line (l s : string) (done : list string) :
  text_line l = true ->
  write_bytes done (Some EmptyString) (l +:+ String LF s)
  = write_bytes (done ++ [l])%list (Some EmptyString) s.
Proof.
  intros H. destruct l as [|c l].
  - change (EmptyString +:+ String LF s) with (String LF s).
    cbn [write_bytes]. rewrite Ascii.eqb_refl. reflexivity.
  - rewrite (write_text c l _ done _ H), default_Some.
    change (EmptyString +:+ String c l) with (String c l).
    cbn [write_bytes]. rewrite Ascii.eqb_refl. reflexivity.
Qed.

Lemma write_println_all (ls : list string) (done : list string) :
  Forall (fun l => text_line l = true) ls ->
  write_bytes done (Some EmptyString) (println_all ls)
  = (done ++ ls ++ [EmptyString])%list.
Proof.
  intros H. revert done. induction H as [|l ls Hl _ IH]; intros done.
  - reflexivity.
  - rewrite LoopFacts.println_all_cons, (write_line l _ done Hl), IH.
    rewrite <- app_assoc. reflexivity.
Qed.

(** The lines of a view to which lines of text were printed. *)
Lemma buffer_lines_println_all (ls : list string) :
  text_lines ls -> buffer_lines (println_all ls) = printed_lines ls.
Proof.
  intros [Hall Hfirst]. destruct ls as [|l ls]; [reflexivity|].
  inversion Hall as [|? ? Hl Hls]; subst.
  destruct l as [|c l]; [destruct (Hfirst _ _ eq_refl eq_refl)|].
  unfold buffer_lines. rewrite LoopFacts.println_all_cons.
  rewrite (write_text c l _ [] None Hl).
  change (default EmptyString None +:+ String c l) with (String c l).
  cbn [write_bytes]. rewrite Ascii.eqb_refl.
  rewrite (write_println_all ls _ Hls). reflexivity.
Qed.

Lemma printed_lines_app (ls : list string) :
  ls <> [] -> printed_lines ls = (ls ++ [EmptyString])%list.
Proof. destruct ls; [contradiction | reflexivity]. Qed.


Lemma println_all_written (ls : list string) :
  ls <> [] -> println_all ls <> EmptyString.
Proof.
  destruct ls as [|l ls]; [contradiction|]. intros _.
  rewrite LoopFacts.println_all_cons. destruct l; discriminate.
Qed.

(** A view to which a byte was written has a line. *)
Lemma write_bytes_line (s : string) (done : list string) (cur : option string) :
  is_Some cur \/ s <> EmptyString -> write_bytes done cur s <> [].
Proof.
  revert done cur. induction s as [|c s IH]; intros done cur H; cbn [write_bytes].
  - destruct H as [[l ->]|H]; [|contradiction].
    intros E. apply app_eq_nil in E. destruct E as [_ E]. discriminate.
  - destruct (Ascii.eqb c LF); [destruct cur|destruct (Ascii.eqb c CR)];
      apply IH; left; eexists; reflexivity.
Qed.

Lemma buffer_lines_line (s : string) : s <> EmptyString -> buffer_lines s <> [].
Proof. intros H. apply write_bytes_line. right. exact H. Qed.









Lemma target_char_plain (c : ascii) : target_char c = true -> plain_byte c = true.
Proof.
  destruct c as [[] [] [] [] [] [] [] []]; vm_compute; intros H;
    first [reflexivity | discriminate].
Qed.

(** A target of the catalog is a line of text and is not empty. *)
Lemma identifier_text (k : string) :
  identifier k = true -> text_line k = true /\ k <> EmptyString.
Proof.
  intros H. split; [|intros ->; discriminate].
  assert (Hall : forallb target_char (list_ascii_of_string k) = true)
    by (destruct k; [discriminate | exact H]).
  clear H. unfold text_line. induction k as [|c k IH]; [reflexivity|].
  cbn [list_ascii_of_string forallb] in *. apply andb_true_iff in Hall.
  destruct Hall as [Hc Hk]. rewrite (target_char_plain c Hc), (IH Hk). reflexivity.
Qed.

End ViewFacts.

(** ** The cursor of the sidebar and the help view *)

Module CursorFacts.
Import GoStrings Bufio Catalog Float64 Gocui Main Terms FrameFacts SessionFacts.
Import ViewFacts.

Lemma anchored_refl (n : string) (w : View) : anchored n w w.
Proof. intros _. auto. Qed.

Lemma anchored_trans (n : string) (w1 w2 w3 : View) :
  anchored n w1 w2 -> anchored n w2 w3 -> anchored n w1 w3.
Proof.
  intros H1 H2 Hn. destruct (H1 Hn) as [A1 A2], (H2 Hn) as [B1 B2].
  split; [congruence | auto].
Qed.

Lemma anchored_rect (n : string) (q : Z * Z * Z * Z) (w : View) :
  anchored n w (with_rect q w).
Proof. destruct q as [[[a b] c] d]. intros _. split; [reflexivity | auto]. Qed.

Lemma anchored_move (n : string) (d : Z) (w : View) : anchored n w (MoveCursor d w).
Proof.
  intros _. unfold MoveCursor.
  destruct (_ && _) eqn:E; [|auto]. split; [reflexivity|]. intros _.
  apply andb_true_iff in E. destruct E as [E E3].
  apply andb_true_iff in E. destruct E as [E1 E2].
  unfold on_line. cbn [oy cy buf set_cy]. lia.
Qed.

Lemma anchored_wrap (n : string) (b : bool) (w : View) : anchored n w (set_Wrap b w).
Proof. intros _. split; [reflexivity | auto]. Qed.

Lemma anchored_clear (n : string) (w : View) : n <> "Sidebar" -> anchored n w (Clear w).
Proof. intros Hn E. contradiction. Qed.

Lemma anchored_write (n s : string) (w : View) :
  n <> "Sidebar" -> anchored n w (Write s w).
Proof. intros Hn E. contradiction. Qed.

(** Every key of a catalog that was read is an identifier. *)
Lemma catalog_keys (file : option string) (tm : gmap string string) (k : string) :
  readMakefile file = Some tm -> is_Some (tm !! k) -> identifier k = true.
Proof.
  destruct file as [data|]; [|discriminate]. intros H [d Hd].
  apply CatalogFacts.readMakefile_Some in H. destruct H as [_ ->].
  apply CatalogFacts.foldl_store_origin in Hd.
  destruct Hd as [Hd | (line & _ & Ha & <- & _)].
  - rewrite lookup_empty in Hd. discriminate.
  - destruct Ha as (_ & _ & _ & _ & Hi). exact Hi.
Qed.

Lemma range_order_keys (tm : gmap string string) (ks : list string) (k : string) :
  range_order tm ks -> k ∈ ks -> is_Some (tm !! k).
Proof.
  unfold range_order. intros Hp Hin. rewrite Hp in Hin.
  apply list_elem_of_fmap in Hin. destruct Hin as ([k' d] & -> & Hin).
  apply elem_of_map_to_list in Hin. exists d. exact Hin.
Qed.

Section Cursor.

Variable targetsMap : gmap string string.
Variable keys : list string.
Variable os : nat -> list string -> start_result.

(** The sidebar of a running session: the current view, with the text of
    the first pass, and its cursor on a line when there is a target. *)
Lemma session_sidebar (w h : Z) (evs : list event) (a : App) :
  MainLoop targetsMap keys os w h evs = Running a ->
  exists v,
    current a = Some v /\ views a !! "Sidebar" = Some v /\
    buf v = println_all keys /\ (keys <> [] -> on_line v).
Proof.
  unfold MainLoop.
  destruct (manager targetsMap keys (boot w h)) as [a1 [[]|e]] eqn:E; [|discriminate].
  apply first_pass in E. destruct E as (Hf & r & r' & Hs & _).
  intros H.
  pose proof (kept_run anchored anchored_refl anchored_trans anchored_rect
                anchored_move anchored_wrap anchored_clear anchored_write
                targetsMap keys os evs a1 Hf) as Hk.
  pose proof (LoopFacts.run_focused targetsMap keys os evs a1 Hf) as [Hc _].
  rewrite H in Hk, Hc. cbn [state_of] in Hk, Hc.
  destruct (Hk _ _ Hs) as (v & Hv & Ha). destruct (Ha eq_refl) as [Hb Hl].
  exists v. unfold current. rewrite Hc. split; [exact Hv|]. split; [exact Hv|].
  destruct r as [[[p q] x] y]. split; [rewrite Hb; reflexivity|].
  intros Hne. apply Hl.
  unfold on_line. cbn [oy cy buf sidebar_style with_rect set_rect set_buf set_Highlight
    set_SelFgColor set_SelBgColor set_Title newView].
  change (EmptyString +:+ println_all keys) with (println_all keys).
  assert (Hline : buffer_lines (println_all keys) <> []).
  { apply buffer_lines_line, println_all_written, Hne. }
  destruct (buffer_lines (println_all keys)); [contradiction|].
  cbn [length]. lia.
Qed.

(** X10: with a target in the catalog Enter never fails by itself.  At any
    time of the session the cursor of the sidebar is on a line, which is
    a key of the catalog or the empty line that follows the last key, and
    the handler hands one update to [g.Update], the one that runs make
    with that line. *)
Theorem enter_confirms_a_listed_line
        (file : option string) (w h : Z) (evs : list event) (a : App) :
  readMakefile file = Some targetsMap ->
  range_order targetsMap keys ->
  keys <> [] ->
  MainLoop targetsMap keys os w h evs = Running a ->
  (highlighted a ∈ keys \/ highlighted a = EmptyString) /\
  handle os KeyEnter a
  = (set_userEvents (userEvents a ++ [UExec (highlighted a)]) a, Ok tt).
Proof.
  intros Hread Hord Hne H.
  apply session_sidebar in H. destruct H as (v & Hc & Hv & Hb & Hl).
  specialize (Hl Hne). unfold on_line in Hl.
  assert (Hlines : buffer_lines (buf v) = (keys ++ [EmptyString])%list).
  { assert (Hid : forall k', k' ∈ keys -> identifier k' = true).
    { intros k' Hin. eapply catalog_keys; [exact Hread|].
      eapply range_order_keys; [exact Hord | exact Hin]. }
    rewrite Hb, buffer_lines_println_all; [apply printed_lines_app; exact Hne|].
    split.
    - apply Forall_forall. intros k' Hin. apply identifier_text, Hid, Hin.
    - intros l rest E. apply identifier_text, Hid. rewrite E. left. }
  destruct (lookup_lt_is_Some_2 (buffer_lines (buf v)) (Z.to_nat (oy v + cy v)))
    as [l Hlk]; [lia|].
  assert (HL : Line v (Cursor_y v) = (l, None)).
  { unfold Line, Cursor_y. destruct (Z.ltb_spec (oy v + cy v) 0) as [Hneg|_]; [lia|].
    rewrite Hlk. reflexivity. }
  split.
  - unfold highlighted. rewrite Hv, HL. cbn [fst].
    rewrite Hlines in Hlk. apply list_elem_of_lookup_2 in Hlk.
    apply elem_of_app in Hlk. destruct Hlk as [Hin|Hin]; [left; exact Hin|].
    right. apply list_elem_of_singleton in Hin. exact Hin.
  - cbn [handle]. unfold executeCommand, highlighted. rewrite Hc, Hv, HL.
    reflexivity.
Qed.

End Cursor.

(** X9: with no target in the catalog the sidebar has no line, and Enter
    ends the program.  At any time of the session [v.Line] fails with
    "invalid point", the handler returns that error, nothing is handed to
    [g.Update], the loop returns and [main] panics. *)
Theorem enter_without_targets
        (targetsMap : gmap string string)
        (os : nat -> list string -> start_result)
        (w h : Z) (evs : list event) (a : App) :
  MainLoop targetsMap [] os w h evs = Running a ->
  step targetsMap [] os KeyEnter a = Returned (Err "invalid point") a /\
  main_exit (Err "invalid point") = Panics (Err "invalid point").
Proof.
  intros H. split; [|reflexivity].
  apply session_sidebar in H. destruct H as (v & Hc & _ & Hb & _).
  cbn [step]. unfold iteration, bind. cbn [handle].
  unfold executeCommand. rewrite Hc. unfold Line. rewrite Hb.
  cbn [println_all fold_right]. unfold buffer_lines. cbn [write_bytes app].
  destruct (_ <? 0); reflexivity.
Qed.

(** *** The help view *)

Lemma updateViews_eq (tm : gmap string string) (a : App) :
  is_Some (views a !! "Sidebar") -> is_Some (views a !! "help") ->
  updateViews tm a
  = (set_views (alter (help_update (doc_for tm (highlighted a))) "help" (views a)) a,
     Ok tt).
Proof.
  intros [v Hv] [h Hh]. unfold updateViews, highlighted. rewrite Hv.
  rewrite (bind_getView _ _ _ _ Hv). cbv zeta.
  rewrite (bind_getView _ _ _ _ Hh). rewrite !bind_modView.
  set (doc := doc_for tm (fst (Line v (Cursor_y v)))).
  unfold help_update. destruct (negb (String.eqb doc EmptyString)).
  - unfold modView. cbn [views set_views]. rewrite !alter_alter_eq.
    destruct a; reflexivity.
  - unfold ret. cbn [views set_views]. rewrite !alter_alter_eq.
    destruct a; reflexivity.
Qed.



Lemma help_update_twice (doc : string) (h : View) :
  help_update doc (help_update doc h) = help_update doc h.
Proof. unfold help_update. destruct (negb _); reflexivity. Qed.

Lemma help_update_rect (doc : string) (r : Z * Z * Z * Z) (h : View) :
  with_rect r (help_update doc (with_rect r h)) = help_update doc (with_rect r h).
Proof.
  destruct r as [[[p q] x] y]. unfold help_update. destruct (negb _); reflexivity.
Qed.

Lemma with_rect_twice (r : Z * Z * Z * Z) (w : View) :
  with_rect r (with_rect r w) = with_rect r w.
Proof. destruct r as [[[p q] x] y]. reflexivity. Qed.

(** A layout that is computed again leaves the help view as
    [updateViews] made it. *)
Lemma foldl_place_help (u v : float64) (g : list Cell) (m : gmap string View)
      (doc : string) :
  foldl (place u v) (alter (help_update doc) "help" (foldl (place u v) m g)) g
  = alter (help_update doc) "help" (foldl (place u v) m g).
Proof.
  apply map_eq. intros name.
  rewrite (LayoutFacts.foldl_place_lookup u v g (alter _ _ _)).
  unfold base_view.
  destruct (decide ("help" = name)) as [<-|Hne].
  - rewrite lookup_alter_eq, LayoutFacts.foldl_place_lookup.
    destruct (last_rect u v g "help") as [r|]; [|reflexivity].
    cbn [fmap option_fmap option_map]. rewrite help_update_rect. reflexivity.
  - rewrite lookup_alter_ne by assumption. rewrite LayoutFacts.foldl_place_lookup.
    destruct (last_rect u v g name) as [r|]; [|reflexivity].
    rewrite with_rect_twice. reflexivity.
Qed.

Lemma has_views_three (a : App) :
  has_views three a ->
  is_Some (views a !! "Sidebar") /\ is_Some (views a !! "command") /\
  is_Some (views a !! "help").
Proof.
  unfold has_views, three. rewrite !Forall_cons. tauto.
Qed.

(** A redraw after the first pass, as a function of the state. *)
Lemma manager_started (tm : gmap string string) (ks : list string) (a a2 : App) :
  started a = true ->
  manager tm ks a = (a2, Ok tt) ->
  exists a0,
    GridLayout grid a = (a0, Ok tt) /\ has_views three a0 /\
    a2 = set_views
           (alter (help_update (doc_for tm (highlighted a0))) "help" (views a0)) a0.
Proof.
  intros Hs H. unfold manager, bind in H.
  destruct (GridLayout grid a) as [a0 [[]|e]] eqn:E; [|discriminate].
  pose proof (focus_GridLayout _ _ _ _ E) as [_ Hs0].
  rewrite Hs0, Hs in H. cbn [negb] in H.
  pose proof (ErrorFacts.GridLayout_Ok_has_views _ _ _ _ E) as Hv.
  change (map Name grid) with three in Hv.
  destruct (has_views_three _ Hv) as (Hsb & _ & Hh).
  rewrite (updateViews_eq tm a0 Hsb Hh) in H. inversion H; subst a2.
  exists a0. auto.
Qed.

Lemma highlighted_alter (f : View -> View) (n : string) (a a' : App) :
  n <> "Sidebar" -> views a' = alter f n (views a) -> highlighted a' = highlighted a.
Proof.
  intros Hn E. unfold highlighted. rewrite E, lookup_alter_ne by assumption.
  reflexivity.
Qed.

Section Help.

Variable targetsMap : gmap string string.
Variable keys : list string.
Variable os : nat -> list string -> start_result.


(** X8: a redraw is idempotent.  Once the first pass is over, a redraw that
    succeeds and is followed by another one, with no event in between,
    gives the same state again: no view is moved, and the help view is
    cleared and filled with the same text. *)
Theorem redraw_is_idempotent (a a1 : App) :
  started a = true ->
  manager targetsMap keys a = (a1, Ok tt) ->
  manager targetsMap keys a1 = (a1, Ok tt).
Proof.
  intros Hs H. apply manager_started in H; [|exact Hs].
  destruct H as (a0 & E & Hv & ->).
  destruct (has_views_three _ Hv) as ([sv Hsv] & _ & [hv Hh]).
  pose proof (focus_GridLayout _ _ _ _ E) as [_ Hs0].
  rewrite LayoutFacts.GridLayout_unfold in E.
  pose proof (LayoutFacts.GridLayout_loop_checked _ _ _ _ _ _ E) as Hok.
  apply LayoutFacts.GridLayout_loop_Ok in E.
  set (doc := doc_for targetsMap (highlighted a0)).
  unfold manager, bind. rewrite LayoutFacts.GridLayout_unfold.
  assert (Hx : maxX (set_views (alter (help_update doc) "help" (views a0)) a0) = maxX a)
    by (subst a0; reflexivity).
  assert (Hy : maxY (set_views (alter (help_update doc) "help" (views a0)) a0) = maxY a)
    by (subst a0; reflexivity).
  rewrite Hx, Hy.
  rewrite LayoutFacts.GridLayout_loop_succeeds by exact Hok.
  cbn [views set_views started set_started].
  assert (Hfix : foldl (place (unit_of (maxX a)) (unit_of (maxY a)))
                   (alter (help_update doc) "help" (views a0)) grid
                 = alter (help_update doc) "help" (views a0)).
  { rewrite E. cbn [views set_views]. apply foldl_place_help. }
  rewrite Hfix.
  assert (Hst : started a0 = true) by congruence.
  rewrite Hst. cbn [negb].
  rewrite updateViews_eq.
  - cbn [views set_views].
    rewrite (highlighted_alter (help_update doc) "help" a0
               (set_views (alter (help_update doc) "help" (views a0))
                  (set_views (alter (help_update doc) "help" (views a0)) a0)));
      [|discriminate|reflexivity].
    fold doc. rewrite alter_alter_eq.
    rewrite (alter_ext (help_update doc ∘ help_update doc) (help_update doc))
      by (intros x _; apply help_update_twice).
    destruct a0; reflexivity.
  - cbn [views set_views]. rewrite lookup_alter_ne by discriminate. eauto.
  - cbn [views set_views]. rewrite lookup_alter_eq. cbn [views] in Hh.
    rewrite Hh. eauto.
Qed.

End Help.

End CursorFacts.

(** ** Executions *)

Module StreamFacts.
Import GoStrings Bufio Catalog Float64 Gocui Main Terms FrameFacts ViewFacts.

(** *** The scanner on what [fmt.Fprintln] writes *)

Lemma raw_lines_line (k rest : string) :
  has_LF k = false ->
  raw_lines (k +:+ String LF rest) = k :: raw_lines rest.
Proof.
  induction k as [|c k IH]; cbn [has_LF]; intros H.
  - change (EmptyString +:+ String LF rest) with (String LF rest).
    cbn [raw_lines]. rewrite Ascii.eqb_refl. reflexivity.
  - apply orb_false_iff in H. destruct H as [Hc Hk].
    rewrite LoopFacts.append_cons. cbn [raw_lines]. rewrite Hc, (IH Hk).
    reflexivity.
Qed.

Lemma raw_lines_println_all (ls : list string) (rest : string) :
  Forall (fun l => has_LF l = false) ls ->
  raw_lines (println_all ls +:+ rest) = (ls ++ raw_lines rest)%list.
Proof.
  induction 1 as [|l ls Hl _ IH]; [reflexivity|].
  rewrite LoopFacts.println_all_cons, LoopFacts.append_assoc, LoopFacts.append_cons.
  rewrite raw_lines_line by assumption. rewrite IH. reflexivity.
Qed.

Lemma scan_app (pre rs : list string) :
  Forall plain_line pre ->
  scan (pre ++ rs) = (pre ++ fst (scan rs), snd (scan rs))%list.
Proof.
  induction 1 as [|l ls (_ & Hcr & Hlen) _ IH]; cbn [app scan].
  - destruct (scan rs); reflexivity.
  - destruct (Z.leb_spec MaxScanTokenSize (Z.of_nat (String.length l))); [lia|].
    rewrite IH, Hcr. reflexivity.
Qed.

Lemma plain_no_LF (ls : list string) :
  Forall plain_line ls -> Forall (fun l => has_LF l = false) ls.
Proof. intros H. eapply Forall_impl; [exact H|]. intros l [Hl _]. exact Hl. Qed.

(** The scanner reads back the lines that [fmt.Fprintln] wrote. *)
Lemma ScanLines_println_all (ls : list string) :
  Forall plain_line ls -> ScanLines (println_all ls) = (ls, None).
Proof.
  intros H. unfold ScanLines.
  rewrite <- (LoopFacts.append_empty (println_all ls)).
  rewrite raw_lines_println_all by (apply plain_no_LF; exact H).
  rewrite scan_app by exact H. cbn [raw_lines scan fst snd].
  rewrite app_nil_r. reflexivity.
Qed.



(** *** Updates received in any order *)






Section Stream.

Variable targetsMap : gmap string string.
Variable keys : list string.
Variable os : nat -> list string -> start_result.

Local Abbreviation step := (Main.step targetsMap keys os).
Local Abbreviation run := (Main.run targetsMap keys os).
Local Abbreviation iteration := (Main.iteration targetsMap keys os).












End Stream.

End StreamFacts.

(** ** Processes *)

Module ProcessFacts.
Import GoStrings Bufio Float64 Gocui Main Terms FrameFacts.

Lemma outlive_refl (a : App) : outlive a a.
Proof. intros p pr H. exists pr, []. auto. Qed.

Lemma outlive_trans (a1 a2 a3 : App) : outlive a1 a2 -> outlive a2 a3 -> outlive a1 a3.
Proof.
  intros H1 H2 p pr H. destruct (H1 p pr H) as (pr2 & r1 & Hp2 & Ha2 & Hs2).
  destruct (H2 p pr2 Hp2) as (pr3 & r2 & Hp3 & Ha3 & Hs3).
  exists pr3, (r1 ++ r2)%list. split; [exact Hp3|]. split; [congruence|].
  rewrite Hs2, Hs3, app_assoc. reflexivity.
Qed.

Lemma outlive_app (a a' : App) (extra : list proc) :
  procs a' = (procs a ++ extra)%list -> outlive a a'.
Proof.
  intros E p pr H. exists pr, []. rewrite E.
  split; [apply lookup_app_l_Some; exact H | auto].
Qed.

Lemma outlive_pump (p : nat) (a : App) : outlive a (pump p a).
Proof.
  unfold pump. destruct (procs a !! p) as [pr|] eqn:E; [|apply outlive_refl].
  destruct (script pr) as [|t rest] eqn:Es; [apply outlive_refl|].
  intros q pq Hq. cbn [procs set_userEvents set_procs].
  destruct (decide (p = q)) as [->|Hne].
  - rewrite E in Hq. inversion Hq; subst pq.
    exists (mkProc (argv pr) rest), [t].
    rewrite list_lookup_insert_eq by (eapply lookup_lt_Some; exact E).
    rewrite Es. auto.
  - exists pq, []. rewrite list_lookup_insert_ne by assumption. auto.
Qed.

(** An event handler adds a process or leaves the processes alone. *)
Lemma handle_procs (os : nat -> list string -> start_result) (ev : event) (a : App) :
  exists extra, procs (fst (handle os ev a)) = (procs a ++ extra)%list.
Proof.
  destruct ev as [| | | |w h|i|p]; cbn [handle].
  - exists []. rewrite app_nil_r. unfold cursorDown, on_current.
    destruct (currentView a); reflexivity.
  - exists []. rewrite app_nil_r. unfold cursorUp, on_current.
    destruct (currentView a); reflexivity.
  - exists []. rewrite app_nil_r. unfold executeCommand.
    destruct (current a) as [v|]; [|reflexivity].
    destruct (Line v (Cursor_y v)) as [l [e|]]; reflexivity.
  - exists []. rewrite app_nil_r. reflexivity.
  - exists []. rewrite app_nil_r. reflexivity.
  - destruct (userEvents a !! i) as [[line|q text]|];
      [|exists []; rewrite app_nil_r; reflexivity
       |exists []; rewrite app_nil_r; reflexivity].
    unfold run_update, bind, getView. cbn [views set_userEvents].
    destruct (views a !! "command");
      [|exists []; rewrite app_nil_r; reflexivity].
    unfold modView, Start. cbn [starts set_views set_userEvents].
    destruct (os _ _); cbn [fst procs set_procs set_starts set_views set_userEvents].
    + exists []. rewrite app_nil_r. reflexivity.
    + exists []. rewrite app_nil_r. reflexivity.
    + eexists. reflexivity.
  - exists []. rewrite app_nil_r. reflexivity.
Qed.

Lemma filter_delete (l : list update) (i : nat) (u : update) :
  l !! i = Some u ->
  (length (List.filter is_exec (delete i l)) + (if is_exec u then 1 else 0)
   = length (List.filter is_exec l))%nat.
Proof.
  revert i. induction l as [|x l IH]; intros i H; [discriminate|].
  destruct i as [|i]; [change (delete 0%nat (x :: l)) with l
                      |change (delete (S i) (x :: l)) with (x :: delete i l)];
    cbn [List.filter].
  - inversion H; subst x. destruct (is_exec u); cbn [length]; lia.
  - change ((x :: l) !! S i) with (l !! i) in H. specialize (IH i H).
    destruct (is_exec x); cbn [length]; lia.
Qed.

Lemma pending_app (a : App) (l : list update) :
  length (List.filter is_exec (userEvents a ++ l))
  = (pending a + length (List.filter is_exec l))%nat.
Proof. unfold pending. rewrite List.filter_app, length_app. reflexivity. Qed.

Section Processes.

Variable targetsMap : gmap string string.
Variable keys : list string.
Variable os : nat -> list string -> start_result.

Local Abbreviation step := (Main.step targetsMap keys os).
Local Abbreviation run := (Main.run targetsMap keys os).
Local Abbreviation iteration := (Main.iteration targetsMap keys os).

Lemma step_outlive (ev : event) (a : App) : outlive a (state_of (step ev a)).
Proof.
  assert (Hit : outlive a (state_of (iteration ev a))).
  { destruct (LoopFacts.iteration_handle targetsMap keys os ev a) as [Hc _].
    destruct (handle_procs os ev a) as [extra He].
    eapply outlive_trans; [eapply outlive_app; exact He|].
    destruct Hc as [(_ & Hp & _) _]. apply (outlive_app _ _ []).
    rewrite app_nil_r. exact Hp. }
  destruct ev as [| | | |w h|i|p]; cbn [Main.step]; try exact Hit.
  - destruct (userEvents a !! i); [exact Hit | apply outlive_refl].
  - apply outlive_pump.
Qed.

(** X12: no process is ever stopped or replaced.  Whatever happens in the
    loop, a new execution included, a process that was started is still
    there with the same arguments, and what its goroutine has still to
    forward is the end of what it had to forward before: only its own
    reads consume its output. *)
Theorem processes_are_never_stopped (evs : list event) (a : App) (p : nat) (pr : proc) :
  procs a !! p = Some pr ->
  exists pr' read,
    procs (state_of (run evs a)) !! p = Some pr' /\
    argv pr' = argv pr /\
    script pr = (read ++ script pr')%list.
Proof.
  assert (H : outlive a (state_of (run evs a))).
  { revert a. induction evs as [|ev evs IH]; intros a; cbn [Main.run].
    - apply outlive_refl.
    - pose proof (step_outlive ev a) as Hs.
      destruct (step ev a) as [a1|e a1]; cbn [state_of] in *; [|exact Hs].
      eapply outlive_trans; [exact Hs | apply IH]. }
  apply H.
Qed.

(** What a handler does to the calls of [cmd.Start] made and to those
    that wait. *)
Lemma handle_committed (ev : event) (a : App) :
  (committed (fst (handle os ev a)) <= committed a + (if is_enter ev then 1 else 0))%nat.
Proof.
  unfold committed.
  destruct ev as [| | | |w h|i|p]; cbn [handle is_enter].
  - unfold cursorDown, on_current. destruct (currentView a); cbn; unfold pending; cbn; lia.
  - unfold cursorUp, on_current. destruct (currentView a); cbn; unfold pending; cbn; lia.
  - unfold executeCommand. destruct (current a) as [v|]; [|cbn; lia].
    destruct (Line v (Cursor_y v)) as [l [e|]]; [cbn; lia|].
    unfold Update. cbn [fst starts set_userEvents]. unfold pending at 1.
    cbn [userEvents set_userEvents]. rewrite pending_app. cbn. lia.
  - cbn. lia.
  - cbn. unfold pending. cbn. lia.
  - destruct (userEvents a !! i) as [u|] eqn:Ei; [|cbn; lia].
    pose proof (filter_delete _ _ _ Ei) as Hd. fold (pending a) in Hd.
    destruct u as [line|q text]; cbn [is_exec] in Hd.
    + unfold run_update, bind, getView. cbn [views set_userEvents].
      destruct (views a !! "command");
        [|cbn [fst starts set_userEvents]; unfold pending at 1;
          cbn [userEvents set_userEvents]; lia].
      unfold modView, Start. cbn [starts set_views set_userEvents].
      destruct (os _ _);
        cbn [fst starts set_procs set_starts set_views set_userEvents];
        unfold pending at 1;
        cbn [userEvents set_procs set_starts set_views set_userEvents];
        rewrite ?length_app; cbn [length]; lia.
    + cbn [run_update modView fst starts set_views set_userEvents].
      unfold pending at 1. cbn [userEvents set_views set_userEvents]. lia.
  - cbn. lia.
Qed.

Lemma calm_committed (a a' : App) : calm a a' -> committed a' = committed a.
Proof.
  intros [(Hu & _ & Hs) _]. unfold committed, pending. rewrite Hu, Hs. reflexivity.
Qed.

Lemma pump_committed (p : nat) (a : App) : committed (pump p a) = committed a.
Proof.
  unfold pump. destruct (procs a !! p) as [pr|]; [|reflexivity].
  destruct (script pr) as [|t rest]; [reflexivity|].
  unfold committed. cbn [starts set_userEvents set_procs]. unfold pending at 1.
  cbn [userEvents set_userEvents set_procs]. rewrite pending_app. cbn. lia.
Qed.

Lemma step_committed (ev : event) (a : App) :
  (committed (state_of (step ev a)) <= committed a + (if is_enter ev then 1 else 0))%nat.
Proof.
  assert (Hit : (committed (state_of (iteration ev a))
                 <= committed a + (if is_enter ev then 1 else 0))%nat).
  { destruct (LoopFacts.iteration_handle targetsMap keys os ev a) as [Hc _].
    rewrite (calm_committed _ _ Hc). apply handle_committed. }
  destruct ev as [| | | |w h|i|p]; cbn [Main.step]; try exact Hit.
  - destruct (userEvents a !! i); [exact Hit | cbn; lia].
  - cbn [state_of is_enter]. rewrite pump_committed. lia.
Qed.

Lemma run_committed (evs : list event) (a : App) :
  (committed (state_of (run evs a)) <= committed a + enters evs)%nat.
Proof.
  revert a. induction evs as [|ev evs IH]; intros a; cbn [Main.run].
  - unfold enters. cbn. lia.
  - pose proof (step_committed ev a) as Hs.
    assert (He : enters (ev :: evs) = ((if is_enter ev then 1 else 0) + enters evs)%nat)
      by (unfold enters; cbn [List.filter]; destruct (is_enter ev); reflexivity).
    destruct (step ev a) as [a1|e a1]; cbn [state_of] in *.
    + specialize (IH a1). lia.
    + lia.
Qed.

(** X11: make is started at most once for each Enter.  At every moment of a
    session, also when the loop has returned, the number of calls of
    [cmd.Start] made so far, together with the confirmations that still
    wait in updates, is at most the number of times Enter was pressed. *)
Theorem starts_bounded_by_confirmations (w h : Z) (evs : list event) :
  let a := state_of (MainLoop targetsMap keys os w h evs) in
  (length (starts a) + pending a <= enters evs)%nat.
Proof.
  cbv zeta. unfold MainLoop.
  destruct (manager targetsMap keys (boot w h)) as [a1 r] eqn:E.
  apply respects_manager in E. apply calm_committed in E.
  destruct r as [[]|e].
  - pose proof (run_committed evs a1) as Hr. rewrite E in Hr.
    unfold committed in Hr at 1. exact Hr.
  - cbn [state_of]. unfold committed in E at 1. rewrite E. cbn. lia.
Qed.

(** A handler that does not receive a confirmation leaves the processes
    alone. *)
Lemma handle_procs_same (ev : event) (b : App) :
  (forall i l, ev = UserEvent i -> userEvents b !! i <> Some (UExec l)) ->
  procs (fst (handle os ev b)) = procs b.
Proof.
  intros Hno. destruct ev as [| | | |w h|i|p]; cbn [handle].
  - unfold cursorDown, on_current. destruct (currentView b); reflexivity.
  - unfold cursorUp, on_current. destruct (currentView b); reflexivity.
  - unfold executeCommand. destruct (current b) as [v|]; [|reflexivity].
    destruct (Line v (Cursor_y v)) as [l [e|]]; reflexivity.
  - reflexivity.
  - reflexivity.
  - destruct (userEvents b !! i) as [[line|q text]|] eqn:E; [| |reflexivity].
    + destruct (Hno i line eq_refl E).
    + reflexivity.
  - reflexivity.
Qed.

Lemma pump_argv (p : nat) (b : App) : map argv (procs (pump p b)) = map argv (procs b).
Proof.
  unfold pump. destruct (procs b !! p) as [pr|] eqn:E; [|reflexivity].
  destruct (script pr) as [|t rest]; [reflexivity|].
  cbn [procs set_userEvents set_procs].
  change (argv <$> <[p:=mkProc (argv pr) rest]> (procs b) = argv <$> procs b).
  rewrite list_fmap_insert. cbn [argv]. apply list_insert_id.
  rewrite list_lookup_fmap, E. reflexivity.
Qed.

(** C6, as the code has it: a confirmation spawns make at most once.  The
    handler reads the line under the cursor of the sidebar; when the line
    cannot be read it returns the error and hands nothing to the loop;
    otherwise it hands the loop one update and spawns nothing itself.
    When the loop receives that update, there is one more process, make
    with that line as its only argument, exactly when the pipe is made
    and [cmd.Start] succeeds; when either fails, or the command view is
    not there, there is no new process and the loop returns the error.
    No other event makes a process. *)
Theorem confirmation_spawns_at_most_once (a : App) (v : View) :
  currentView a = Some "Sidebar" ->
  views a !! "Sidebar" = Some v ->
  (forall e, snd (Line v (Cursor_y v)) = Some e ->
             step KeyEnter a = Returned e a) /\
  (forall line,
      Line v (Cursor_y v) = (line, None) ->
      let a1 := state_of (step KeyEnter a) in
      userEvents a1 = (userEvents a ++ [UExec line])%list /\
      procs a1 = procs a /\ starts a1 = starts a) /\
  (forall b i line,
      userEvents b !! i = Some (UExec line) ->
      is_Some (views b !! "command") ->
      let b' := state_of (step (UserEvent i) b) in
      userEvents b' = delete i (userEvents b) /\
      match os (length (starts b)) ["make"; line] with
      | Started stdout read_err =>
          procs b'
          = (procs b ++ [mkProc ["make"; line] (pump_script stdout read_err)])%list
      | StartFailed msg | PipeFailed msg =>
          procs b' = procs b /\ step (UserEvent i) b = Returned (Err msg) b'
      end) /\
  (forall b i line,
      userEvents b !! i = Some (UExec line) ->
      views b !! "command" = None ->
      let b' := set_userEvents (delete i (userEvents b)) b in
      step (UserEvent i) b = Returned ErrUnknownView b' /\ procs b' = procs b) /\
  (forall b ev,
      (forall i l, ev = UserEvent i -> userEvents b !! i <> Some (UExec l)) ->
      map argv (procs (state_of (step ev b))) = map argv (procs b)).
Proof.
  intros Hcur Hside.
  assert (Hv : current a = Some v) by (unfold current; rewrite Hcur; exact Hside).
  split; [|split; [|split; [|split]]].
  - intros e He. cbn [Main.step]. unfold Main.iteration, bind. cbn [handle].
    unfold executeCommand. rewrite Hv.
    destruct (Line v (Cursor_y v)) as [l [e'|]]; cbn [snd] in He; [|discriminate].
    inversion He; subst e'. reflexivity.
  - intros line Hline. cbv zeta. cbn [Main.step].
    destruct (LoopFacts.iteration_handle targetsMap keys os KeyEnter a)
      as [[(Hu & Hp & Hs) _] _].
    cbn [handle] in Hu, Hp, Hs. unfold executeCommand in Hu, Hp, Hs.
    rewrite Hv, Hline in Hu, Hp, Hs. auto.
  - intros b i line Hi [w Hw]. cbv zeta.
    pose proof (LoopFacts.step_UserEvent targetsMap keys os i _ b Hi) as Hstep.
    destruct (LoopFacts.deliver_UExec os i line w b Hi Hw) as (Hq & _ & _ & Hr).
    destruct (LoopFacts.iteration_handle targetsMap keys os (UserEvent i) b)
      as [[(Hu & Hp & _) _] _].
    rewrite Hstep. fold (iteration (UserEvent i) b) in Hu, Hp |- *.
    split; [rewrite Hu; exact Hq|].
    assert (Hfail : forall msg,
               snd (handle os (UserEvent i) b) = Fail (Err msg) ->
               iteration (UserEvent i) b
               = Returned (Err msg) (state_of (iteration (UserEvent i) b))).
    { intros msg Hf. unfold Main.iteration, bind.
      destruct (handle os (UserEvent i) b) as [b1 r]. cbn [snd] in Hf. subst r.
      reflexivity. }
    destruct (os (length (starts b)) ["make"; line]) as [msg|msg|stdout read_err].
    + destruct Hr as (Hf & Hpr & _). split; [rewrite Hp; exact Hpr | apply Hfail, Hf].
    + destruct Hr as (Hf & Hpr & _). split; [rewrite Hp; exact Hpr | apply Hfail, Hf].
    + destruct Hr as (_ & Hpr & _). rewrite Hp. exact Hpr.
  - intros b i line Hi Hnone. cbv zeta.
    rewrite (LoopFacts.step_UserEvent targetsMap keys os i _ b Hi).
    unfold Main.iteration, bind.
    rewrite (LoopFacts.handle_UserEvent os i _ b Hi).
    cbn [run_update]. unfold bind, getView.
    cbn [views set_userEvents]. rewrite Hnone. split; reflexivity.
  - intros b ev Hno.
    assert (Hit : map argv (procs (state_of (iteration ev b))) = map argv (procs b)).
    { destruct (LoopFacts.iteration_handle targetsMap keys os ev b)
        as [[(_ & Hp & _) _] _].
      fold (iteration ev b) in Hp. rewrite Hp, (handle_procs_same ev b Hno).
      reflexivity. }
    destruct ev as [| | | |w h|i|p]; cbn [Main.step]; try exact Hit.
    + destruct (userEvents b !! i); [exact Hit | reflexivity].
    + cbn [state_of]. apply pump_argv.
Qed.

(** X13: without a pipe no process is started.  When [cmd.StdoutPipe] fails,
    the update that was to run make returns its error before
    [cmd.Start] is called: the command view is left empty, the loop
    returns the error and [main] panics. *)
Theorem pipe_failure_ends_program (a : App) (i : nat) (line msg : string) :
  userEvents a !! i = Some (UExec line) ->
  is_Some (views a !! "command") ->
  os (length (starts a)) ["make"; line] = PipeFailed msg ->
  exists a',
    step (UserEvent i) a = Returned (Err msg) a' /\
    starts a' = starts a /\ procs a' = procs a /\
    buffer "command" a' = EmptyString /\
    main_exit (Err msg) = Panics (Err msg).
Proof.
  intros Hu [w Hw] Hos.
  destruct (LoopFacts.deliver_UExec os i line w a Hu Hw) as (_ & Hb & _ & Hr).
  rewrite Hos in Hr. destruct Hr as (Hf & Hp & Hs).
  cbn [Main.step]. rewrite Hu. unfold Main.iteration, bind.
  destruct (handle os (UserEvent i) a) as [a1 r]. cbn [fst snd] in *. subst r.
  exists a1. auto.
Qed.

End Processes.

End ProcessFacts.

(** ** The catalog: what is stored and when the load aborts *)

Module CatalogMore.
Import GoStrings Bufio Catalog Terms.

Lemma TrimLeft_id (s : string) : starts_with_space s = false -> TrimLeft s = s.
Proof.
  destruct s as [|c1 [|c2 [|c3 s3]]]; cbn [starts_with_space TrimLeft];
    try reflexivity; intros H.
  - rewrite orb_false_r in H. rewrite H. reflexivity.
  - apply orb_false_iff in H. destruct H as [H1 H2].
    rewrite orb_false_r in H2. rewrite H1, H2. reflexivity.
  - apply orb_false_iff in H. destruct H as [H1 H2].
    apply orb_false_iff in H2. destruct H2 as [H2 H3].
    rewrite H1, H2, H3. reflexivity.
Qed.

Lemma TrimLeft_rev_id (r : string) :
  starts_with_space_rev r = false -> TrimLeft_rev r = r.
Proof.
  destruct r as [|c1 [|c2 [|c3 r3]]]; cbn [starts_with_space_rev TrimLeft_rev];
    try reflexivity; intros H.
  - rewrite orb_false_r in H. rewrite H. reflexivity.
  - apply orb_false_iff in H. destruct H as [H1 H2].
    rewrite orb_false_r in H2. rewrite H1, H2. reflexivity.
  - apply orb_false_iff in H. destruct H as [H1 H2].
    apply orb_false_iff in H2. destruct H2 as [H2 H3].
    rewrite H1, H2, H3. reflexivity.
Qed.

Lemma TrimLeft_bounded (n : nat) (s : string) :
  (String.length s <= n)%nat -> starts_with_space (TrimLeft s) = false.
Proof.
  revert s. induction n as [|n IH]; intros s Hn.
  - destruct s; [reflexivity | cbn in Hn; lia].
  - destruct s as [|c1 s1]; [reflexivity|]. cbn [String.length] in Hn.
    cbn [TrimLeft]. destruct (space1 c1) eqn:E1; [apply IH; lia|].
    destruct s1 as [|c2 s2]; [cbn; rewrite E1; reflexivity|].
    cbn [String.length] in Hn.
    destruct (space2 c1 c2) eqn:E2; [apply IH; lia|].
    destruct s2 as [|c3 s3]; [cbn; rewrite E1, E2; reflexivity|].
    cbn [String.length] in Hn.
    destruct (space3 c1 c2 c3) eqn:E3; [apply IH; lia|].
    cbn. rewrite E1, E2, E3. reflexivity.
Qed.

Lemma TrimLeft_clean (s : string) : starts_with_space (TrimLeft s) = false.
Proof. apply (TrimLeft_bounded (String.length s)). lia. Qed.

Lemma TrimLeft_rev_bounded (n : nat) (r : string) :
  (String.length r <= n)%nat ->
  starts_with_space_rev (TrimLeft_rev r) = false /\
  exists p, r = p +:+ TrimLeft_rev r.
Proof.
  revert r. induction n as [|n IH]; intros r Hn.
  - destruct r; [split; [reflexivity | exists EmptyString; reflexivity]
                | cbn in Hn; lia].
  - destruct r as [|c1 r1];
      [split; [reflexivity | exists EmptyString; reflexivity]|].
    cbn [String.length] in Hn. cbn [TrimLeft_rev].
    destruct (space1 c1) eqn:E1.
    { destruct (IH r1) as [Hc [p Hp]]; [lia|]. split; [exact Hc|].
      exists (String c1 p). rewrite LoopFacts.append_cons, <- Hp. reflexivity. }
    destruct r1 as [|c2 r2].
    { split; [cbn; rewrite E1; reflexivity | exists EmptyString; reflexivity]. }
    cbn [String.length] in Hn.
    destruct (space2 c2 c1) eqn:E2.
    { destruct (IH r2) as [Hc [p Hp]]; [lia|]. split; [exact Hc|].
      exists (String c1 (String c2 p)).
      rewrite !LoopFacts.append_cons, <- Hp. reflexivity. }
    destruct r2 as [|c3 r3].
    { split; [cbn; rewrite E1, E2; reflexivity | exists EmptyString; reflexivity]. }
    cbn [String.length] in Hn.
    destruct (space3 c3 c2 c1) eqn:E3.
    { destruct (IH r3) as [Hc [p Hp]]; [lia|]. split; [exact Hc|].
      exists (String c1 (String c2 (String c3 p))).
      rewrite !LoopFacts.append_cons, <- Hp. reflexivity. }
    split; [cbn; rewrite E1, E2, E3; reflexivity | exists EmptyString; reflexivity].
Qed.

Lemma rev_onto_app (s acc : string) : rev_onto s acc = rev s +:+ acc.
Proof.
  unfold rev. revert acc. induction s as [|c s IH]; intros acc; cbn [rev_onto].
  - reflexivity.
  - rewrite (IH (String c acc)), (IH (String c EmptyString)).
    rewrite LoopFacts.append_assoc. reflexivity.
Qed.

Lemma rev_cons (c : ascii) (s : string) : rev (String c s) = rev s +:+ String c EmptyString.
Proof. unfold rev at 1. cbn [rev_onto]. apply rev_onto_app. Qed.

Lemma rev_app (s t : string) : rev (s +:+ t) = rev t +:+ rev s.
Proof.
  induction s as [|c s IH].
  - change (EmptyString +:+ t) with t. change (rev EmptyString) with EmptyString.
    rewrite LoopFacts.append_empty. reflexivity.
  - rewrite LoopFacts.append_cons, !rev_cons, IH, LoopFacts.append_assoc.
    reflexivity.
Qed.

Lemma rev_rev (s : string) : rev (rev s) = s.
Proof.
  induction s as [|c s IH]; [reflexivity|].
  rewrite rev_cons, rev_app, IH. reflexivity.
Qed.

Lemma starts_with_space_prefix (d x : string) :
  starts_with_space (d +:+ x) = false -> starts_with_space d = false.
Proof.
  destruct d as [|c1 [|c2 [|c3 d3]]]; [reflexivity | | |];
    rewrite ?LoopFacts.append_cons; cbn [starts_with_space]; intros H.
  - apply orb_false_iff in H. destruct H as [H1 _]. rewrite H1. reflexivity.
  - apply orb_false_iff in H. destruct H as [H1 H2].
    apply orb_false_iff in H2. destruct H2 as [H2 _]. rewrite H1, H2. reflexivity.
  - exact H.
Qed.

(** What [strings.TrimSpace] returns has no white space at either end,
    and trimming it again changes nothing. *)
Lemma TrimSpace_clean (s : string) :
  starts_with_space (TrimSpace s) = false /\
  ends_with_space (TrimSpace s) = false /\
  TrimSpace (TrimSpace s) = TrimSpace s.
Proof.
  unfold TrimSpace at 1 2 4. unfold TrimRight, ends_with_space.
  set (t := TrimLeft s).
  destruct (TrimLeft_rev_bounded (String.length (rev t)) (rev t)) as [Hc [p Hp]]; [lia|].
  set (q := TrimLeft_rev (rev t)) in *.
  assert (Ht : t = rev q +:+ rev p).
  { rewrite <- (rev_rev t), Hp, rev_app. reflexivity. }
  assert (Hs : starts_with_space (rev q) = false).
  { apply (starts_with_space_prefix _ (rev p)). rewrite <- Ht. apply TrimLeft_clean. }
  rewrite rev_rev. split; [exact Hs|]. split; [exact Hc|].
  unfold TrimSpace, TrimRight. rewrite (TrimLeft_id _ Hs), rev_rev.
  rewrite (TrimLeft_rev_id _ Hc). reflexivity.
Qed.

Lemma white_app (s t : string) : white s -> white t -> white (s +:+ t).
Proof.
  intros Hs Ht. induction Hs; rewrite ?LoopFacts.append_cons.
  - exact Ht.
  - apply white_1; assumption.
  - apply white_2; assumption.
  - apply white_3; assumption.
Qed.

Lemma white_rev_rev (p : string) : white_rev p -> white (rev p).
Proof.
  intros H. induction H.
  - constructor.
  - rewrite rev_cons. apply white_app; [assumption|].
    apply white_1; [assumption | constructor].
  - rewrite !rev_cons, LoopFacts.append_assoc. apply white_app; [assumption|].
    apply (white_2 c2 c1); [assumption | constructor].
  - rewrite !rev_cons, !LoopFacts.append_assoc. apply white_app; [assumption|].
    apply (white_3 c3 c2 c1); [assumption | constructor].
Qed.

(** What the trimming takes from the start of a string is white space. *)
Lemma TrimLeft_white (n : nat) (s : string) :
  (String.length s <= n)%nat ->
  exists pre, s = pre +:+ TrimLeft s /\ white pre.
Proof.
  revert s. induction n as [|n IH]; intros s Hn.
  - destruct s; [exists EmptyString; split; [reflexivity | constructor]
                | cbn in Hn; lia].
  - destruct s as [|c1 s1];
      [exists EmptyString; split; [reflexivity | constructor]|].
    cbn [String.length] in Hn. cbn [TrimLeft].
    destruct (space1 c1) eqn:E1.
    { destruct (IH s1) as (p & Hp & Hw); [lia|].
      exists (String c1 p). rewrite LoopFacts.append_cons, <- Hp.
      split; [reflexivity | apply white_1; assumption]. }
    destruct s1 as [|c2 s2];
      [exists EmptyString; split; [reflexivity | constructor]|].
    cbn [String.length] in Hn.
    destruct (space2 c1 c2) eqn:E2.
    { destruct (IH s2) as (p & Hp & Hw); [lia|].
      exists (String c1 (String c2 p)). rewrite !LoopFacts.append_cons, <- Hp.
      split; [reflexivity | apply white_2; assumption]. }
    destruct s2 as [|c3 s3];
      [exists EmptyString; split; [reflexivity | constructor]|].
    cbn [String.length] in Hn.
    destruct (space3 c1 c2 c3) eqn:E3.
    { destruct (IH s3) as (p & Hp & Hw); [lia|].
      exists (String c1 (String c2 (String c3 p))).
      rewrite !LoopFacts.append_cons, <- Hp.
      split; [reflexivity | apply white_3; assumption]. }
    exists EmptyString. split; [reflexivity | constructor].
Qed.

Lemma TrimLeft_rev_white (n : nat) (r : string) :
  (String.length r <= n)%nat ->
  exists p, r = p +:+ TrimLeft_rev r /\ white_rev p.
Proof.
  revert r. induction n as [|n IH]; intros r Hn.
  - destruct r; [exists EmptyString; split; [reflexivity | constructor]
                | cbn in Hn; lia].
  - destruct r as [|c1 r1];
      [exists EmptyString; split; [reflexivity | constructor]|].
    cbn [String.length] in Hn. cbn [TrimLeft_rev].
    destruct (space1 c1) eqn:E1.
    { destruct (IH r1) as (p & Hp & Hw); [lia|].
      exists (String c1 p). rewrite LoopFacts.append_cons, <- Hp.
      split; [reflexivity | apply white_rev_1; assumption]. }
    destruct r1 as [|c2 r2];
      [exists EmptyString; split; [reflexivity | constructor]|].
    cbn [String.length] in Hn.
    destruct (space2 c2 c1) eqn:E2.
    { destruct (IH r2) as (p & Hp & Hw); [lia|].
      exists (String c1 (String c2 p)). rewrite !LoopFacts.append_cons, <- Hp.
      split; [reflexivity | apply white_rev_2; assumption]. }
    destruct r2 as [|c3 r3];
      [exists EmptyString; split; [reflexivity | constructor]|].
    cbn [String.length] in Hn.
    destruct (space3 c3 c2 c1) eqn:E3.
    { destruct (IH r3) as (p & Hp & Hw); [lia|].
      exists (String c1 (String c2 (String c3 p))).
      rewrite !LoopFacts.append_cons, <- Hp.
      split; [reflexivity | apply white_rev_3; assumption]. }
    exists EmptyString. split; [reflexivity | constructor].
Qed.

(** [strings.TrimSpace] takes white space from the two ends of a string
    and nothing else. *)
Lemma TrimSpace_parts (s : string) :
  exists pre post,
    s = pre +:+ TrimSpace s +:+ post /\ white pre /\ white post.
Proof.
  destruct (TrimLeft_white (String.length s) s) as (pre & Hpre & Hw); [lia|].
  unfold TrimSpace, TrimRight. set (t := TrimLeft s) in *.
  destruct (TrimLeft_rev_white (String.length (rev t)) (rev t)) as (p & Hp & Hwp); [lia|].
  exists pre, (rev p). split; [|split; [exact Hw | apply white_rev_rev, Hwp]].
  rewrite <- rev_app, <- Hp, rev_rev. exact Hpre.
Qed.

(** C5: the catalog holds exactly the targets of the lines that contain a
    colon, begin neither with a tab nor with a dot, do not contain PHONY,
    and have an identifier before their first colon.  What is stored for
    a target is the text after the first colon of such a line without the
    white space at its two ends: white space and nothing else is taken
    from either end, and what is stored neither begins nor ends with a
    white space character.  The descriptor of the example gives the
    catalog with the one entry build. *)
Theorem readMakefile_accepts_grammar (data : string) (m : gmap string string) :
  readMakefile (Some data) = Some m ->
  (forall target : string,
      is_Some (m !! target) <->
      exists line, line ∈ fst (ScanLines data) /\ admissible line /\
                   target_of line = target) /\
  (forall target doc : string,
      m !! target = Some doc ->
      exists line after pre post,
        line ∈ fst (ScanLines data) /\ admissible line /\
        Cut line ":" = Some (target, after) /\ doc = doc_of line /\
        after = pre +:+ doc +:+ post /\ white pre /\ white post /\
        starts_with_space doc = false /\ ends_with_space doc = false) /\
  (data = Scenario.example_makefile ->
   m = {[ "build" := "compile the project" ]}).
Proof.
  intros H. apply CatalogFacts.readMakefile_Some in H. destruct H as [_ ->].
  split; [|split].
  - intros target. split.
    + intros [doc Hd]. apply CatalogFacts.foldl_store_origin in Hd.
      destruct Hd as [Hd | (line & Hin & Ha & Ht & _)].
      * rewrite lookup_empty in Hd. discriminate.
      * exists line. auto.
    + intros (line & Hin & Ha & <-).
      apply CatalogFacts.foldl_store_accepted; assumption.
  - intros target doc Hd. apply CatalogFacts.foldl_store_origin in Hd.
    destruct Hd as [Hd | (line & Hin & Ha & Ht & Hdoc)].
    + rewrite lookup_empty in Hd. discriminate.
    + pose proof Ha as (Hc & _).
      apply CatalogFacts.Contains_Cut in Hc. destruct Hc as [[b after] HC].
      pose proof Hdoc as Hdl.
      unfold target_of in Ht. unfold doc_of in Hdoc. rewrite HC in Ht, Hdoc.
      subst b.
      destruct (TrimSpace_parts after) as (pre & post & Hparts & Hwpre & Hwpost).
      destruct (TrimSpace_clean after) as (Hs & He & _).
      rewrite Hdoc in Hparts, Hs, He.
      exists line, after, pre, post. auto 10.
  - intros ->. vm_compute. reflexivity.
Qed.

(** The regular expression alone decides, but for the word PHONY. *)
Lemma MatchString_Contains (line : string) :
  MatchString line = true -> Contains line ":" = true.
Proof.
  intros H. apply CatalogFacts.MatchString_identifier in H.
  destruct H as (b & a & HC & _). apply CatalogFacts.Contains_Cut. eauto.
Qed.

Lemma MatchString_first (line : string) :
  MatchString line = true ->
  HasPrefix line (String TAB EmptyString) = false /\ HasPrefix line "." = false.
Proof.
  destruct line as [|c rest]; [discriminate|]. unfold MatchString.
  intros H. apply andb_true_iff in H. destruct H as [Hc _].
  cbn [HasPrefix]. rewrite !CatalogFacts.HasPrefix_empty, !andb_true_r.
  split.
  - destruct (Ascii.eqb_spec c TAB) as [->|]; [discriminate | reflexivity].
  - destruct (Ascii.eqb_spec c ".") as [->|]; [discriminate | reflexivity].
Qed.

(** X18: of the five tests of the scanning loop three are implied by the
    regular expression: a line is taken as a target line exactly when it
    matches the expression and does not contain the word PHONY. *)
Theorem regexp_and_PHONY_decide (line : string) :
  is_target_line line = MatchString line && negb (Contains line "PHONY").
Proof.
  unfold is_target_line. destruct (MatchString line) eqn:E.
  - rewrite (MatchString_Contains line E).
    destruct (MatchString_first line E) as [-> ->].
    cbn [negb andb]. rewrite andb_true_r. reflexivity.
  - rewrite andb_false_r. reflexivity.
Qed.

Lemma scan_None (raws : list string) :
  snd (scan raws) = None <-> Forall (fun r => ~ too_long r) raws.
Proof.
  unfold too_long. induction raws as [|r rs IH]; cbn [scan].
  - split; [constructor | reflexivity].
  - destruct (Z.leb_spec MaxScanTokenSize (Z.of_nat (String.length r))) as [Hl|Hs].
    + cbn [snd]. split; [discriminate|]. intros H. inversion H; subst. lia.
    + destruct (scan rs) as [toks err]. cbn [snd] in *. rewrite IH. split.
      * intros H. constructor; [lia | exact H].
      * intros H. inversion H; assumption.
Qed.

Lemma scan_Some (raws : list string) :
  snd (scan raws) <> None <-> Exists too_long raws.
Proof.
  unfold too_long. induction raws as [|r rs IH]; cbn [scan].
  - split; [intros H; contradiction | intros H; inversion H].
  - destruct (Z.leb_spec MaxScanTokenSize (Z.of_nat (String.length r))) as [Hl|Hs].
    + cbn [snd]. split; [intros _; left; exact Hl | discriminate].
    + destruct (scan rs) as [toks err]. cbn [snd] in *. rewrite IH. split.
      * intros H. right. exact H.
      * intros H. inversion H; subst; [lia | assumption].
Qed.

(** X19: the load aborts in two cases and no other: the descriptor cannot be
    opened, or one of its lines, up to its line feed, has 64 KiB or more.
    No content of shorter lines makes it abort. *)
Theorem readMakefile_aborts_iff (file : option string) :
  readMakefile file = None <->
  file = None \/
  exists data, file = Some data /\ Exists too_long (raw_lines data).
Proof.
  destruct file as [data|]; [|split; auto].
  split.
  - intros H. right. exists data. split; [reflexivity|].
    apply scan_Some. intros Hall.
    destruct (CatalogFacts.readMakefile_total data Hall) as [m Hm]. congruence.
  - intros [H|(d & Hd & Hex)]; [discriminate|]. inversion Hd; subst d.
    destruct (readMakefile (Some data)) as [m|] eqn:E; [|reflexivity].
    apply CatalogFacts.readMakefile_Some in E. destruct E as [E _].
    apply scan_None in E. apply Exists_exists in Hex.
    destruct Hex as (r & Hin & Hr). rewrite Forall_forall in E.
    destruct (E r Hin Hr).
Qed.

(** X20: the documentation stored for a target has no white space at either
    end, in ASCII or in Unicode, and trimming it again changes
    nothing. *)
Theorem catalog_docs_are_trimmed
        (file : option string) (m : gmap string string) (target doc : string) :
  readMakefile file = Some m ->
  m !! target = Some doc ->
  starts_with_space doc = false /\
  ends_with_space doc = false /\
  TrimSpace doc = doc.
Proof.
  destruct file as [data|]; [|discriminate]. intros H Hd.
  apply CatalogFacts.readMakefile_Some in H. destruct H as [_ ->].
  apply CatalogFacts.foldl_store_origin in Hd.
  destruct Hd as [Hd | (line & _ & _ & _ & <-)].
  - rewrite lookup_empty in Hd. discriminate.
  - unfold doc_of. destruct (Cut line ":") as [[b a]|].
    + apply TrimSpace_clean.
    + repeat split; reflexivity.
Qed.

End CatalogMore.

(** ** The layout on terminals of every size up to a bound *)

Module SizeFacts.
Import GoStrings Bufio Float64 Gocui Main Terms FrameFacts.

Lemma section_rect_clamp (u v : float64) (c : Cell) :
  section_rect u v c
  = clamp (edges u (XPos c) (Width c)) (edges v (YPos c) (Height c)).
Proof. reflexivity. Qed.

Lemma accepted_summary (u v : float64) (c : Cell) :
  Name c <> EmptyString ->
  accepted u v c
  = valid_summary (summary (edges u (XPos c) (Width c)))
                  (summary (edges v (YPos c) (Height c))).
Proof.
  intros Hn. unfold accepted, cell_error. rewrite section_rect_clamp.
  destruct (edges u (XPos c) (Width c)) as [p q].
  destruct (edges v (YPos c) (Height c)) as [r s].
  unfold clamp, summary, valid_summary. cbn [fst snd].
  destruct (String.eqb_spec (Name c) EmptyString) as [E|_]; [contradiction|].
  destruct ((q <=? 0) && (s <=? 0)).
  - rewrite (Z.leb_antisym p 1), (Z.leb_antisym r 1).
    destruct (p <? 1), (r <? 1); reflexivity.
  - rewrite (Z.leb_antisym p q), (Z.leb_antisym r s).
    destruct (p <? q), (r <? s); reflexivity.
Qed.

Lemma grid_named (c : Cell) : In c grid -> Name c <> EmptyString.
Proof.
  unfold grid. cbn [In]. intros [<-|[<-|[<-|[]]]]; discriminate.
Qed.

Lemma forallb_agree {A : Type} (f g : A -> bool) (l : list A) :
  (forall x, In x l -> f x = g x) -> forallb f l = forallb g l.
Proof.
  induction l as [|x l IH]; intros H; [reflexivity|]. cbn [forallb].
  rewrite (H x (or_introl eq_refl)), IH; [reflexivity|].
  intros y Hy. apply H. right. exact Hy.
Qed.

(** Whether the grid fits is decided by the summaries of its edges. *)
Lemma fits_summaries (w h w' h' : Z) :
  x_summary w = x_summary w' -> y_summary h = y_summary h' ->
  fits w h = fits w' h'.
Proof.
  unfold x_summary, y_summary, fits. intros Hx Hy.
  apply forallb_agree. intros c Hc.
  rewrite !accepted_summary by (apply grid_named; exact Hc).
  rewrite (proj1 List.map_ext_in_iff Hx c Hc).
  rewrite (proj1 List.map_ext_in_iff Hy c Hc).
  reflexivity.
Qed.

Lemma x_summary_table :
  forallb (fun w => bool_decide (x_summary w = x_summary (rep_x w)))
          (seqZ 0 (size_bound + 1)) = true.
Proof. vm_compute. reflexivity. Qed.

Lemma y_summary_table :
  forallb (fun h => bool_decide (y_summary h = y_summary (rep_y h)))
          (seqZ 0 (size_bound + 1)) = true.
Proof. vm_compute. reflexivity. Qed.

Lemma fits_table :
  forallb (fun w => forallb (fun h => Bool.eqb (fits w h) (starts_up w h)) (seqZ 0 10))
          (seqZ 0 9) = true.
Proof. vm_compute. reflexivity. Qed.

Lemma x_good_table : forallb x_good (seqZ 8 (size_bound - 7)) = true.
Proof. vm_compute. reflexivity. Qed.

Lemma y_good_table : forallb y_good (7 :: seqZ 9 (size_bound - 8)) = true.
Proof. vm_compute. reflexivity. Qed.

Lemma in_table (f : Z -> bool) (m n x : Z) :
  forallb f (seqZ m n) = true -> m <= x < m + n -> f x = true.
Proof.
  intros H Hx. rewrite forallb_forall in H. apply H.
  apply list_elem_of_In, elem_of_seqZ. exact Hx.
Qed.

(** Up to the bound, the grid fits exactly on the sizes of [starts_up]. *)
Lemma fits_starts_up (w h : Z) :
  0 <= w <= size_bound -> 0 <= h <= size_bound -> fits w h = starts_up w h.
Proof.
  intros Hw Hh.
  assert (Hx : x_summary w = x_summary (rep_x w)).
  { apply (bool_decide_eq_true_1 (x_summary w = x_summary (rep_x w))).
    apply (in_table (fun w => bool_decide (x_summary w = x_summary (rep_x w)))
             0 (size_bound + 1) w x_summary_table). lia. }
  assert (Hy : y_summary h = y_summary (rep_y h)).
  { apply (bool_decide_eq_true_1 (y_summary h = y_summary (rep_y h))).
    apply (in_table (fun h => bool_decide (y_summary h = y_summary (rep_y h)))
             0 (size_bound + 1) h y_summary_table). lia. }
  rewrite (fits_summaries w h _ _ Hx Hy).
  assert (Hrx : 0 <= rep_x w < 0 + 9)
    by (unfold rep_x; destruct (Z.ltb_spec w 8); lia).
  assert (Hry : 0 <= rep_y h < 0 + 10)
    by (unfold rep_y; destruct (Z.ltb_spec h 9); lia).
  pose proof (in_table _ 0 9 (rep_x w) fits_table Hrx) as Ht. cbv beta in Ht.
  pose proof (in_table _ 0 10 (rep_y h) Ht Hry) as Ht'. cbv beta in Ht'.
  apply Bool.eqb_prop in Ht'. rewrite Ht'.
  unfold starts_up, rep_x, rep_y.
  destruct (Z.ltb_spec w 8), (Z.ltb_spec h 9); try reflexivity;
    repeat match goal with
           | |- context [?a <=? ?b] => destruct (Z.leb_spec a b); try lia
           | |- context [?a =? ?b] => destruct (Z.eqb_spec a b); try lia
           end; reflexivity.
Qed.

Lemma fits_Forall (w h : Z) :
  fits w h = true <->
  Forall (fun c => cell_error (unit_of w) (unit_of h) c = None) grid.
Proof.
  unfold fits. rewrite forallb_forall, Forall_forall. unfold accepted. split.
  - intros H c Hc. apply list_elem_of_In in Hc. specialize (H c Hc).
    destruct (cell_error _ _ c); [discriminate | reflexivity].
  - intros H c Hc. apply list_elem_of_In in Hc. rewrite (H c Hc). reflexivity.
Qed.

(** The layout succeeds where the grid fits and is refused elsewhere. *)
Lemma GridLayout_fits (a : App) :
  if fits (maxX a) (maxY a)
  then GridLayout grid a
       = (set_views (foldl (place (unit_of (maxX a)) (unit_of (maxY a)))
                           (views a) grid) a, Ok tt)
  else exists a', GridLayout grid a = (a', Fail (Err "invalid dimensions")).
Proof.
  destruct (fits (maxX a) (maxY a)) eqn:E.
  - rewrite LayoutFacts.GridLayout_unfold.
    apply LayoutFacts.GridLayout_loop_succeeds, fits_Forall, E.
  - rewrite LayoutFacts.GridLayout_unfold.
    destruct (GridLayout_loop (unit_of (maxX a)) (unit_of (maxY a)) grid a)
      as [a' [[]|e]] eqn:El.
    + apply LayoutFacts.GridLayout_loop_checked in El.
      apply fits_Forall in El. congruence.
    + exists a'. apply ErrorFacts.GridLayout_loop_refused in El.
      destruct El as (c & Hin & Hc).
      rewrite (ErrorFacts.grid_refused _ _ c e Hin Hc). reflexivity.
Qed.

Section Sizes.

Variable targetsMap : gmap string string.
Variable keys : list string.
Variable os : nat -> list string -> start_result.

(** X3: the program needs room to start.  On a terminal of up to 1000
    columns and rows the first render pass succeeds exactly when there
    are at least 8 columns and 7 rows or at least 9 rows, or at most one
    column and one row; on every other size, a terminal of 8 rows among
    them, the layout is refused with "invalid dimensions", the loop
    returns before any event is read and [main] panics. *)
Theorem start_up_needs_room (w h : Z) (evs : list event) :
  0 <= w <= size_bound -> 0 <= h <= size_bound ->
  if starts_up w h
  then exists a, MainLoop targetsMap keys os w h [] = Running a
  else exists a,
      MainLoop targetsMap keys os w h evs = Returned (Err "invalid dimensions") a /\
      main_exit (Err "invalid dimensions") = Panics (Err "invalid dimensions").
Proof.
  intros Hw Hh. rewrite <- (fits_starts_up w h Hw Hh).
  pose proof (GridLayout_fits (boot w h)) as HG. cbn [maxX maxY boot] in HG.
  unfold MainLoop, manager, bind.
  destruct (fits w h).
  - rewrite HG. cbn [started set_views boot negb].
    match goal with
    | |- context [initViews keys ?b] =>
        destruct (ErrorFacts.sure_initViews keys b) as (a2 & x & E2 & _)
    end.
    + pose proof (ErrorFacts.GridLayout_Ok_has_views _ _ _ _ HG) as Hv.
      eapply ErrorFacts.has_views_same; [|exact Hv]. reflexivity.
    + rewrite E2. exists a2. reflexivity.
  - destruct HG as [a' HG]. rewrite HG. exists a'. split; reflexivity.
Qed.

End Sizes.

(** X4: on the sizes that are in use the three views tile the terminal.  With
    8 to 1000 columns and 7 or 9 to 1000 rows the layout succeeds; the
    sidebar has its corner at the origin, the help view lies below it
    with the same two vertical edges, the command view begins one column
    after the sidebar and reaches the last column and the last row; the
    bottom of the help view is the last row or the row before it. *)
Theorem layout_tiles_the_terminal (a : App) :
  8 <= maxX a <= size_bound ->
  maxY a = 7 \/ 9 <= maxY a <= size_bound ->
  exists a' s c p,
    GridLayout grid a = (a', Ok tt) /\
    views a' !! "Sidebar" = Some s /\
    views a' !! "command" = Some c /\
    views a' !! "help" = Some p /\
    x0 s = 0 /\ y0 s = 0 /\
    x0 p = 0 /\ x1 p = x1 s /\ y0 p = y1 s + 1 /\
    x0 c = x1 s + 1 /\ y0 c = 0 /\
    x1 c = maxX a - 1 /\ y1 c = maxY a - 1 /\
    maxY a - 2 <= y1 p <= maxY a - 1.
Proof.
  intros Hw Hh.
  assert (Hx : x_good (maxX a) = true)
    by (apply (in_table _ 8 (size_bound - 7) _ x_good_table); lia).
  assert (Hy : y_good (maxY a) = true).
  { pose proof y_good_table as T. cbn [forallb] in T.
    apply andb_true_iff in T. destruct T as [T7 T].
    destruct Hh as [->|Hh]; [exact T7|].
    apply (in_table _ 9 (size_bound - 8) _ T). lia. }
  unfold x_good in Hx. unfold y_good in Hy.
  set (u := unit_of (maxX a)) in *. set (v := unit_of (maxY a)) in *.
  destruct (edges u 0 3) as [sx0 sx1] eqn:Esx.
  destruct (edges u 3 9) as [cx0 cx1] eqn:Ecx.
  destruct (edges v 0 10) as [sy0 sy1] eqn:Esy.
  destruct (edges v 0 12) as [cy0 cy1] eqn:Ecy.
  destruct (edges v 10 2) as [py0 py1] eqn:Epy.
  cbn [fst snd] in Hx, Hy.
  rewrite !andb_true_iff in Hx. rewrite !andb_true_iff in Hy.
  destruct Hx as ((((X1 & X2) & X3) & X4) & X5).
  destruct Hy as ((((((((Y1 & Y2) & Y3) & Y4) & Y5) & Y6) & Y7) & Y8) & Y9).
  apply Z.eqb_eq in X1, X3, X4, Y1, Y3, Y4, Y6.
  apply Z.ltb_lt in X2, X5, Y2, Y5, Y7. apply Z.leb_le in Y8, Y9.
  assert (Rs : section_rect u v (mkCell "Sidebar" 3 10 0 0) = (sx0, sy0, sx1, sy1)).
  { rewrite section_rect_clamp. cbn [XPos YPos Width Height].
    rewrite Esx, Esy. unfold clamp. cbn [fst snd].
    destruct (Z.leb_spec sx1 0); [lia | reflexivity]. }
  assert (Rc : section_rect u v (mkCell "command" 9 12 3 0) = (cx0, cy0, cx1, cy1)).
  { rewrite section_rect_clamp. cbn [XPos YPos Width Height].
    rewrite Ecx, Ecy. unfold clamp. cbn [fst snd].
    destruct (Z.leb_spec cx1 0); [lia | reflexivity]. }
  assert (Rp : section_rect u v (mkCell "help" 3 2 0 10) = (sx0, py0, sx1, py1)).
  { rewrite section_rect_clamp. cbn [XPos YPos Width Height].
    rewrite Esx, Epy. unfold clamp. cbn [fst snd].
    destruct (Z.leb_spec sx1 0); [lia | reflexivity]. }
  assert (Hok : Forall (fun c => cell_error u v c = None) grid).
  { unfold grid. repeat apply Forall_cons_2; [| | |apply Forall_nil_2];
      unfold cell_error; rewrite ?Rs, ?Rc, ?Rp; cbn [Name];
      match goal with
      | |- (if (?p <=? ?q) || (?r <=? ?s) then _ else _) = _ =>
          destruct (Z.leb_spec p q); [lia|];
          destruct (Z.leb_spec r s); [lia|]; reflexivity
      end. }
  assert (Hnd : NoDup (map Name grid))
    by (apply (bool_decide_unpack _); vm_compute; exact I).
  eexists _, _, _, _. split.
  { rewrite LayoutFacts.GridLayout_unfold.
    apply LayoutFacts.GridLayout_loop_succeeds. exact Hok. }
  cbn [views set_views]. fold u v.
  rewrite !LayoutFacts.foldl_place_lookup.
  assert (Ls : last_rect u v grid "Sidebar" = Some (sx0, sy0, sx1, sy1)).
  { rewrite <- Rs.
    apply (LayoutFacts.last_rect_NoDup u v grid (mkCell "Sidebar" 3 10 0 0) Hnd).
    unfold grid. rewrite !elem_of_cons. auto. }
  assert (Lc : last_rect u v grid "command" = Some (cx0, cy0, cx1, cy1)).
  { rewrite <- Rc.
    apply (LayoutFacts.last_rect_NoDup u v grid (mkCell "command" 9 12 3 0) Hnd).
    unfold grid. rewrite !elem_of_cons. auto. }
  assert (Lp : last_rect u v grid "help" = Some (sx0, py0, sx1, py1)).
  { rewrite <- Rp.
    apply (LayoutFacts.last_rect_NoDup u v grid (mkCell "help" 3 2 0 10) Hnd).
    unfold grid. rewrite !elem_of_cons. auto. }
  rewrite Ls, Lc, Lp.
  split; [reflexivity|]. split; [reflexivity|]. split; [reflexivity|].
  cbn [with_rect set_rect x0 y0 x1 y1]. lia.
Qed.

Lemma last_rect_Some (u v : float64) (g : list Cell) (name : string)
      (r : Z * Z * Z * Z) :
  last_rect u v g name = Some r ->
  exists c, c ∈ g /\ Name c = name /\ r = section_rect u v c.
Proof.
  induction g as [|c0 g IH]; [discriminate|]. cbn [last_rect].
  destruct (last_rect u v g name) as [r'|].
  - intros H. inversion H; subst r'. destruct (IH eq_refl) as (c & Hc & Hn & Hr).
    exists c. split; [right; exact Hc | auto].
  - destruct (String.eqb_spec (Name c0) name) as [E|E]; [|discriminate].
    intros H. inversion H. exists c0. split; [left | auto].
Qed.

(** X5: the layout creates a view for a name that has none exactly when a
    cell of the grid has that name.  The view it creates is new in
    everything but its title, which is its name, and its rectangle, which
    is the one computed for a cell of that name: for the cell of that
    name when the names of the grid are all different. *)
Theorem GridLayout_creates_named_views (g : list Cell) (a a' : App) (name : string) :
  GridLayout g a = (a', Ok tt) ->
  views a !! name = None ->
  let u := unit_of (maxX a) in
  let v := unit_of (maxY a) in
  let created (c : Cell) :=
    with_rect (section_rect u v c) (set_Title name (newView 0 0 0 0)) in
  (name ∉ map Name g -> views a' !! name = None) /\
  (name ∈ map Name g ->
   exists c, c ∈ g /\ Name c = name /\ views a' !! name = Some (created c)) /\
  (NoDup (map Name g) ->
   forall c, c ∈ g -> Name c = name -> views a' !! name = Some (created c)).
Proof.
  intros H Hn. cbv zeta. rewrite LayoutFacts.GridLayout_unfold in H.
  apply LayoutFacts.GridLayout_loop_Ok in H. subst a'. cbn [views set_views].
  rewrite LayoutFacts.foldl_place_lookup. unfold base_view. rewrite Hn.
  split; [|split].
  - intros Hout. rewrite LayoutFacts.last_rect_None by exact Hout. reflexivity.
  - intros Hin. apply list_elem_of_fmap in Hin. destruct Hin as (c & -> & Hc).
    destruct (ErrorFacts.last_rect_member (unit_of (maxX a)) (unit_of (maxY a)) g c Hc)
      as [r Hr].
    rewrite Hr. apply last_rect_Some in Hr. destruct Hr as (c' & Hc' & Hn' & ->).
    exists c'. auto.
  - intros Hnd c Hc <-.
    rewrite (LayoutFacts.last_rect_NoDup _ _ g c Hnd Hc). reflexivity.
Qed.

End SizeFacts.

(** ** Line ends *)

Module LineEnds.
Import GoStrings Bufio Catalog Gocui Main Terms.

Lemma has_LF_CR (l : string) :
  has_LF l = false -> has_LF (l +:+ String CR EmptyString) = false.
Proof.
  induction l as [|c l IH]; [reflexivity|]. cbn [has_LF]. intros H.
  apply orb_false_iff in H. destruct H as [Hc Hl].
  rewrite LoopFacts.append_cons. cbn [has_LF]. rewrite Hc, (IH Hl). reflexivity.
Qed.

Lemma dropCR_CR (l : string) : dropCR (l +:+ String CR EmptyString) = l.
Proof.
  induction l as [|c l IH]; [reflexivity|].
  rewrite LoopFacts.append_cons. cbn [dropCR].
  destruct (l +:+ String CR EmptyString) as [|d r] eqn:E.
  - destruct l; discriminate.
  - rewrite IH. reflexivity.
Qed.

Lemma length_CR (l : string) :
  String.length (l +:+ String CR EmptyString) = S (String.length l).
Proof.
  induction l as [|c l IH]; [reflexivity|].
  rewrite LoopFacts.append_cons. cbn [String.length]. rewrite IH. reflexivity.
Qed.

Lemma raw_lines_crlf_all (ls : list string) :
  Forall crlf_line ls ->
  raw_lines (crlf_all ls) = map (fun l => l +:+ String CR EmptyString) ls.
Proof.
  induction 1 as [|l ls [[Hl _] _] _ IH]; [reflexivity|].
  cbn [crlf_all fold_right map]. fold (crlf_all ls).
  replace (l +:+ String CR (String LF (crlf_all ls)))
    with ((l +:+ String CR EmptyString) +:+ String LF (crlf_all ls))
    by (rewrite LoopFacts.append_assoc; reflexivity).
  rewrite StreamFacts.raw_lines_line by (apply has_LF_CR; exact Hl).
  rewrite IH. reflexivity.
Qed.

Lemma scan_crlf (ls : list string) :
  Forall crlf_line ls ->
  scan (map (fun l => l +:+ String CR EmptyString) ls) = (ls, None).
Proof.
  induction 1 as [|l ls [_ Hlen] _ IH]; [reflexivity|].
  cbn [map scan]. rewrite length_CR.
  destruct (Z.leb_spec MaxScanTokenSize (Z.of_nat (S (String.length l)))); [lia|].
  rewrite IH, dropCR_CR. reflexivity.
Qed.

(** The scanner returns the same lines for CR LF line ends as for LF. *)
Lemma ScanLines_crlf_all (ls : list string) :
  Forall crlf_line ls -> ScanLines (crlf_all ls) = ScanLines (println_all ls).
Proof.
  intros H. unfold ScanLines at 1. rewrite raw_lines_crlf_all, scan_crlf by exact H.
  symmetry. apply StreamFacts.ScanLines_println_all.
  eapply Forall_impl; [exact H|]. intros l [Hl _]. exact Hl.
Qed.

(** X21: line ends do not matter to the catalog.  A descriptor written
    with CR LF line ends is read as the same descriptor with LF line
    ends: the scanner drops the carriage return, so no target and no
    documentation ends in one. *)
Theorem crlf_descriptor_reads_the_same (ls : list string) :
  Forall crlf_line ls ->
  readMakefile (Some (crlf_all ls)) = readMakefile (Some (println_all ls)).
Proof.
  intros H. unfold readMakefile. rewrite (ScanLines_crlf_all ls H). reflexivity.
Qed.


End LineEnds.

(** ** The theorems on concrete sessions *)

Module Instances.
Import GoStrings Bufio Catalog Float64 Gocui Main Terms Scenario Cases.

Lemma redraw_fails_on_size_only_witness :
  Err "invalid dimensions" = Err "invalid dimensions" /\
  exists c, c ∈ grid /\
            cell_error (unit_of (maxX (boot 80 8))) (unit_of (maxY (boot 80 8))) c
            = Some (Err "invalid dimensions").
Proof.
  apply (ErrorFacts.redraw_fails_on_size_only two_targets order_bt (boot 80 8)
           (fst (manager two_targets order_bt (boot 80 8)))).
  vm_compute. reflexivity.
Defined.

Lemma first_pass_setup_is_kept_witness :
  let a := state_of (MainLoop two_targets order_bt os_two_runs 80 24
                       [KeyArrowDown; KeyEnter; UserEvent 0; PumpRead 0; UserEvent 0]) in
  view_has "Sidebar"
    (fun v => buf v = println_all order_bt /\ Title v = "Makefile Targets" /\
              Highlight v = true /\ SelBgColor v = ColorBlue /\
              SelFgColor v = ColorBlack) a /\
  view_has "command"
    (fun v => Title v = "Command Output" /\ Autoscroll v = true) a.
Proof.
  cbv zeta.
  apply (SessionFacts.first_pass_setup_is_kept two_targets order_bt os_two_runs 80 24
           [KeyArrowDown; KeyEnter; UserEvent 0; PumpRead 0; UserEvent 0]).
  vm_compute. reflexivity.
Defined.

Lemma enter_without_targets_witness :
  let a := state_of (MainLoop no_targets [] os_two_runs 80 24 [KeyArrowDown]) in
  step no_targets [] os_two_runs KeyEnter a = Returned (Err "invalid point") a /\
  main_exit (Err "invalid point") = Panics (Err "invalid point").
Proof.
  cbv zeta.
  apply (CursorFacts.enter_without_targets no_targets os_two_runs 80 24 [KeyArrowDown]).
  vm_compute. reflexivity.
Defined.

Lemma enter_confirms_a_listed_line_witness :
  let a := state_of (MainLoop two_targets order_bt os_two_runs 80 24
                       [KeyArrowDown; KeyArrowDown; KeyArrowDown]) in
  (highlighted a ∈ order_bt \/ highlighted a = EmptyString) /\
  handle os_two_runs KeyEnter a
  = (set_userEvents (userEvents a ++ [UExec (highlighted a)]) a, Ok tt).
Proof.
  cbv zeta.
  apply (CursorFacts.enter_confirms_a_listed_line two_targets order_bt os_two_runs
           (Some two_makefile) 80 24 [KeyArrowDown; KeyArrowDown; KeyArrowDown]).
  - vm_compute. reflexivity.
  - unfold range_order. vm_compute. first [reflexivity | apply perm_swap].
  - discriminate.
  - vm_compute. reflexivity.
Defined.


Lemma redraw_is_idempotent_witness :
  let a1 := fst (manager two_targets order_bt (ready os_two_runs)) in
  manager two_targets order_bt a1 = (a1, Ok tt).
Proof.
  cbv zeta.
  apply (CursorFacts.redraw_is_idempotent two_targets order_bt (ready os_two_runs)).
  - vm_compute. reflexivity.
  - vm_compute. reflexivity.
Defined.













Lemma processes_are_never_stopped_witness :
  let a := state_of (run two_targets order_bt os_two_runs overlap_start
                       (ready os_two_runs)) in
  exists pr' read,
    procs (state_of (run two_targets order_bt os_two_runs overlap_late a)) !! 0%nat
    = Some pr' /\
    argv pr' = argv (mkProc ["make"; "build"] ["a2"]) /\
    script (mkProc ["make"; "build"] ["a2"]) = (read ++ script pr')%list.
Proof.
  cbv zeta.
  apply (ProcessFacts.processes_are_never_stopped two_targets order_bt os_two_runs
           overlap_late _ 0%nat (mkProc ["make"; "build"] ["a2"])).
  vm_compute. reflexivity.
Defined.

Lemma pipe_failure_ends_program_witness :
  let a := state_of (step two_targets order_bt os_no_pipe KeyEnter (ready os_no_pipe)) in
  exists a',
    step two_targets order_bt os_no_pipe (UserEvent 0) a
    = Returned (Err "pipe: too many open files") a' /\
    starts a' = starts a /\ procs a' = procs a /\
    buffer "command" a' = EmptyString /\
    main_exit (Err "pipe: too many open files")
    = Panics (Err "pipe: too many open files").
Proof.
  cbv zeta.
  apply (ProcessFacts.pipe_failure_ends_program two_targets order_bt os_no_pipe
           _ 0%nat "build" "pipe: too many open files").
  - vm_compute. reflexivity.
  - vm_compute. eexists. reflexivity.
  - vm_compute. reflexivity.
Defined.

Lemma catalog_docs_are_trimmed_witness :
  starts_with_space "compile" = false /\
  ends_with_space "compile" = false /\
  TrimSpace "compile" = "compile".
Proof.
  apply (CatalogMore.catalog_docs_are_trimmed (Some two_makefile) two_targets "build").
  - vm_compute. reflexivity.
  - vm_compute. reflexivity.
Defined.

Lemma start_up_needs_room_witness :
  exists a,
    MainLoop two_targets order_bt os_two_runs 30 8 [KeyArrowDown]
    = Returned (Err "invalid dimensions") a /\
    main_exit (Err "invalid dimensions") = Panics (Err "invalid dimensions").
Proof.
  apply (SizeFacts.start_up_needs_room two_targets order_bt os_two_runs 30 8
           [KeyArrowDown]).
  - unfold size_bound. lia.
  - unfold size_bound. lia.
Defined.

Lemma layout_tiles_the_terminal_witness :
  exists a' s c p,
    GridLayout grid (boot 30 32) = (a', Ok tt) /\
    views a' !! "Sidebar" = Some s /\
    views a' !! "command" = Some c /\
    views a' !! "help" = Some p /\
    x0 s = 0 /\ y0 s = 0 /\
    x0 p = 0 /\ x1 p = x1 s /\ y0 p = y1 s + 1 /\
    x0 c = x1 s + 1 /\ y0 c = 0 /\
    x1 c = maxX (boot 30 32) - 1 /\ y1 c = maxY (boot 30 32) - 1 /\
    maxY (boot 30 32) - 2 <= y1 p <= maxY (boot 30 32) - 1.
Proof.
  apply (SizeFacts.layout_tiles_the_terminal (boot 30 32)).
  - unfold size_bound. cbn. lia.
  - right. unfold size_bound. cbn. lia.
Defined.

Lemma GridLayout_creates_named_views_witness :
  views (fst (GridLayout grid (boot 80 24))) !! "help"
  = Some (with_rect (section_rect (unit_of 80) (unit_of 24) (mkCell "help" 3 2 0 10))
                    (set_Title "help" (newView 0 0 0 0))).
Proof.
  refine (proj2 (proj2 (SizeFacts.GridLayout_creates_named_views grid (boot 80 24)
                          (fst (GridLayout grid (boot 80 24))) "help" _ _))
                _ (mkCell "help" 3 2 0 10) _ eq_refl).
  - vm_compute. reflexivity.
  - reflexivity.
  - apply (bool_decide_unpack _). vm_compute. exact I.
  - unfold grid. rewrite !elem_of_cons. auto.
Defined.

Lemma crlf_descriptor_reads_the_same_witness :
  readMakefile (Some (crlf_all ["build: compile"; "test: run unit tests"]))
  = readMakefile (Some (println_all ["build: compile"; "test: run unit tests"])).
Proof.
  apply (LineEnds.crlf_descriptor_reads_the_same
           ["build: compile"; "test: run unit tests"]).
  apply Forall_cons_2; [|apply Forall_cons_2; [|apply Forall_nil_2]];
    (split; [split; [reflexivity|]; split; [reflexivity|]|];
     vm_compute; reflexivity).
Defined.


Lemma readMakefile_accepts_grammar_witness :
  exists line after pre post,
    line ∈ fst (ScanLines two_makefile) /\ admissible line /\
    Cut line ":" = Some ("build", after) /\ "compile" = doc_of line /\
    after = pre +:+ "compile" +:+ post /\ white pre /\ white post /\
    starts_with_space "compile" = false /\ ends_with_space "compile" = false.
Proof.
  apply (proj1 (proj2 (CatalogMore.readMakefile_accepts_grammar
                         two_makefile two_targets
                         ltac:(vm_compute; reflexivity)))
               "build" "compile").
  vm_compute. reflexivity.
Defined.

(** C6, as stated, fails: without [make] the confirmation is received
    and [cmd.Start] is called, but no process exists afterwards and the
    loop returns; and with no target in the catalog the confirmation
    hands nothing to the loop. *)
Lemma confirmation_without_process :
  let o := run two_targets order_bt os_no_make [KeyEnter; UserEvent 0]
             (ready os_no_make) in
  let idle_ui := state_of (MainLoop no_targets [] os_two_runs 80 24 []) in
  highlighted (ready os_no_make) = "build" /\
  o = Returned (Err "exec: make: executable file not found in $PATH") (state_of o) /\
  starts (state_of o) = [["make"; "build"]] /\
  procs (state_of o) = [] /\
  step no_targets [] os_two_runs KeyEnter idle_ui
  = Returned (Err "invalid point") idle_ui /\
  userEvents idle_ui = [] /\ procs idle_ui = [].
Proof. vm_compute. repeat split. Qed.

Lemma confirmation_spawns_at_most_once_witness :
  let b := state_of (step two_targets order_bt os_two_runs KeyEnter
                       (ready os_two_runs)) in
  let b' := state_of (step two_targets order_bt os_two_runs (UserEvent 0) b) in
  userEvents b' = delete 0%nat (userEvents b) /\
  procs b'
  = (procs b ++ [mkProc ["make"; "build"]
                        (pump_script ("a1" +:+ nl +:+ "a2" +:+ nl) None)])%list.
Proof.
  cbv zeta.
  destruct (ProcessFacts.confirmation_spawns_at_most_once two_targets order_bt
              os_two_runs (ready os_two_runs)
              (default (newView 0 0 0 0) (views (ready os_two_runs) !! "Sidebar"))
              ltac:(vm_compute; reflexivity) ltac:(vm_compute; reflexivity))
    as (_ & _ & H & _ & _).
  specialize (H (state_of (step two_targets order_bt os_two_runs KeyEnter
                             (ready os_two_runs)))
                0%nat "build"
                ltac:(vm_compute; reflexivity)
                ltac:(vm_compute; eexists; reflexivity)).
  cbv zeta in H.
  assert (E : os_two_runs
                (length (starts (state_of (step two_targets order_bt os_two_runs
                                             KeyEnter (ready os_two_runs)))))
                ["make"; "build"]
              = Started ("a1" +:+ nl +:+ "a2" +:+ nl) None)
    by (vm_compute; reflexivity).
  rewrite E in H. exact H.
Defined.



End Instances.
